(** * Youtube_downloader: the job lifecycle engine of [downloader.py]

    A shallow embedding of the download engine (path resolution, folder-name
    sanitising, format selection, the job registry, the progress hook, the
    per-item download with its format fallback, the staging reconciler and the
    worker), of the metadata probe and of the HTTP handlers of [app.py],
    together with the properties the specification states about them and
    further properties of the code.

    Conventions.
    - A Python [str] is a Rocq [string] holding its UTF-8 bytes.
    - A Python [dict] is a [gmap string _]; the registry [JOBS] is a
      [gmap string (gmap string pyval)].
    - A Python exception is a value of [exn]; code that can raise returns
      [result A].
    - [os.path] is [posixpath]. *)

From Stdlib Require Import ZArith String Ascii List Bool Lia.
From Stdlib Require Import Sorting.Sorted.
From Stdlib.Floats Require Import PrimFloat SpecFloat FloatOps.
From stdpp Require Import gmap strings list pretty.

Set Warnings "-register-all".

Open Scope Z_scope.

(** ** Text *)

Definition chars (s : string) : list ascii := list_ascii_of_string s.
Definition str (l : list ascii) : string := string_of_list_ascii l.

Fixpoint drop_while {A} (f : A → bool) (l : list A) : list A :=
  match l with
  | [] => []
  | x :: r => if f x then drop_while f r else l
  end.

(** [s.startswith(p)] *)
Fixpoint starts_with (p s : list ascii) : bool :=
  match p, s with
  | [], _ => true
  | a :: p', b :: s' => Ascii.eqb a b && starts_with p' s'
  | _ :: _, [] => false
  end.

(** [s.endswith(p)] *)
Definition ends_with (p s : list ascii) : bool :=
  starts_with (rev p) (rev s).

(** [needle in hay] on strings. *)
Fixpoint contains (needle hay : list ascii) : bool :=
  starts_with needle hay ||
  match hay with
  | [] => false
  | _ :: hay' => contains needle hay'
  end.

(** [a or b] on strings: the first operand unless it is empty. *)
Definition str_or (a b : string) : string :=
  match a with
  | EmptyString => b
  | _ => a
  end.

Definition is_slash (c : ascii) : bool := Ascii.eqb c "/".

(** ** Exceptions *)

(** The exception classes the engine tells apart; the argument is [str(e)]. *)
Inductive exn :=
| KeyboardInterrupt (msg : string)
| DownloadError (msg : string)
| PyException (msg : string).

Inductive result (A : Type) :=
| Ok (a : A)
| Raise (e : exn).
Arguments Ok {A} a.
Arguments Raise {A} e.

(** ** [posixpath] *)

Module Path.

(** [os.path.isabs] *)
Definition isabs (p : string) : bool := starts_with ["/"%char] (chars p).

(** [os.path.join(a, b)] *)
Definition join (a b : string) : string :=
  if starts_with ["/"%char] (chars b) then b
  else if (String.eqb a EmptyString || ends_with ["/"%char] (chars a))%bool
       then a +:+ b
       else a +:+ "/" +:+ b.

(** [s.rstrip('/')] *)
Definition rstrip_slash (s : list ascii) : list ascii :=
  rev (drop_while is_slash (rev s)).

Fixpoint take_until_slash (s : list ascii) : list ascii :=
  match s with
  | [] => []
  | c :: r => if is_slash c then [] else c :: take_until_slash r
  end.

Fixpoint drop_until_slash (s : list ascii) : list ascii :=
  match s with
  | [] => []
  | c :: r => if is_slash c then s else drop_until_slash r
  end.

(** [os.path.expanduser].  [home] is the account database:
    [home EmptyString] is the home directory of the current user ([$HOME],
    else the passwd entry), [home name] that of user [name]; [None] when it
    is not known, in which case the path is returned unchanged. *)
Definition expanduser (home : string → option string) (path : string) : string :=
  match chars path with
  | "~"%char :: rest =>
      match home (str (take_until_slash rest)) with
      | None => path
      | Some userhome =>
          str_or (str (rstrip_slash (chars userhome) ++ drop_until_slash rest)) "/"
      end
  | _ => path
  end.

(** [os.path.basename]: what follows the last slash. *)
Fixpoint basename_go (acc s : list ascii) : list ascii :=
  match s with
  | [] => rev acc
  | c :: r => if is_slash c then basename_go [] r else basename_go (c :: acc) r
  end.
Definition basename (p : string) : string := str (basename_go [] (chars p)).

End Path.

(** ** Paths and defaults *)

(** What the module reads from its surroundings when it is imported and when
    it resolves a directory. *)
Record Env := {
  BASE_DIR : string;                      (* dirname(abspath(__file__)) *)
  home : string → option string;          (* see [Path.expanduser] *)
  makedirs_error : string → option string (* [os.makedirs(p, exist_ok=True)]:
                                             [None] when it succeeds, else the
                                             text of the [OSError] it raises *)
}.

Section Paths.
Context (env : Env).

Definition STORAGE_DIR : string := Path.join (BASE_DIR env) "storage".

(** [os.makedirs(p, exist_ok=True)] *)
Definition os_makedirs (p : string) : result unit :=
  match makedirs_error env p with
  | None => Ok tt
  | Some msg => Raise (PyException msg)
  end.

(** [user_downloads_dir]; the value is used for [DEFAULT_DL] at import. *)
Definition user_downloads_dir : result string :=
  let dl := Path.join (Path.expanduser (home env) "~") "Downloads" in
  match os_makedirs dl with
  | Ok _ => Ok dl
  | Raise _ =>
      match os_makedirs STORAGE_DIR with
      | Ok _ => Ok STORAGE_DIR
      | Raise e => Raise e
      end
  end.

(** [DEFAULT_DL]: the module only loads when [user_downloads_dir] returns,
    so an import that raised is given the storage directory here. *)
Definition DEFAULT_DL : string :=
  match user_downloads_dir with
  | Ok dl => dl
  | Raise _ => STORAGE_DIR
  end.

Definition DEFAULT_VID_BUCKET : string := Path.join DEFAULT_DL "Yt_videos".
Definition DEFAULT_AUD_BUCKET : string := Path.join DEFAULT_DL "Yt_audios".

(** [_resolve_root_dir(user_dir, media_type)].  [user_dir] is
    [Optional[str]]; [None] and the empty string are both falsy. *)
Definition _resolve_root_dir (user_dir : option string) (media_type : string)
  : result string :=
  let root :=
    match user_dir with
    | Some (String _ _ as ud) =>
        let ud' := Path.expanduser (home env) ud in
        if Path.isabs ud' then ud' else Path.join STORAGE_DIR ud'
    | _ =>
        if String.eqb media_type "video" then DEFAULT_VID_BUCKET
        else DEFAULT_AUD_BUCKET
    end in
  match os_makedirs root with
  | Ok _ => Ok root
  | Raise _ =>
      match os_makedirs STORAGE_DIR with
      | Ok _ => Ok STORAGE_DIR
      | Raise e => Raise e
      end
  end.

End Paths.

(** ** Helpers *)

(** The character class of [safe_folder]'s pattern: backslash, slash, colon,
    star, question mark, double quote, angle brackets and bar. *)
Definition is_reserved (c : ascii) : bool :=
  existsb (Ascii.eqb c) ["\"; "/"; ":"; "*"; "?"; "034"; "<"; ">"; "|"]%char.

(** [re.sub] of the pattern [reserved+] by an underscore: every maximal run of
    reserved characters becomes one underscore.  [in_run] tells that the previous
    character was reserved. *)
Fixpoint sub_reserved (in_run : bool) (s : list ascii) : list ascii :=
  match s with
  | [] => []
  | c :: r =>
      if is_reserved c
      then (if in_run then sub_reserved true r else "_"%char :: sub_reserved true r)
      else c :: sub_reserved false r
  end.

(** The code points for which [str.isspace] holds, in UTF-8:
    U+0009..U+000D, U+001C..U+0020, U+0085, U+00A0, U+1680, U+2000..U+200A,
    U+2028, U+2029, U+202F, U+205F and U+3000. *)
Definition whitespace : list (list ascii) :=
  map (map ascii_of_nat)
    [ [9]; [10]; [11]; [12]; [13]; [28]; [29]; [30]; [31]; [32];
      [194; 133]; [194; 160]; [225; 154; 128];
      [226; 128; 128]; [226; 128; 129]; [226; 128; 130]; [226; 128; 131];
      [226; 128; 132]; [226; 128; 133]; [226; 128; 134]; [226; 128; 135];
      [226; 128; 136]; [226; 128; 137]; [226; 128; 138];
      [226; 128; 168]; [226; 128; 169]; [226; 128; 175];
      [226; 129; 159]; [227; 128; 128] ]%nat.

(** [s] without its prefix [p], when it has it. *)
Fixpoint drop_prefix (p s : list ascii) : option (list ascii) :=
  match p, s with
  | [], _ => Some s
  | a :: p', b :: s' => if Ascii.eqb a b then drop_prefix p' s' else None
  | _ :: _, [] => None
  end.

(** [s] without the first of [toks] it starts with. *)
Fixpoint drop_token (toks : list (list ascii)) (s : list ascii) : option (list ascii) :=
  match toks with
  | [] => None
  | t :: toks' =>
      match drop_prefix t s with
      | Some r => Some r
      | None => drop_token toks' s
      end
  end.

(** Drop leading tokens, at most [fuel] of them. *)
Fixpoint lstrip_tokens (toks : list (list ascii)) (fuel : nat) (s : list ascii)
  : list ascii :=
  match fuel with
  | O => s
  | S fuel' =>
      match drop_token toks s with
      | Some r => lstrip_tokens toks fuel' r
      | None => s
      end
  end.

(** [s.lstrip()], [s.rstrip()], [s.strip()]: no string has more leading
    white-space characters than it has bytes. *)
Definition lstrip (s : list ascii) : list ascii :=
  lstrip_tokens whitespace (length s) s.
Definition rstrip (s : list ascii) : list ascii :=
  rev (lstrip_tokens (map (@rev ascii) whitespace) (length s) (rev s)).
Definition strip (s : list ascii) : list ascii := rstrip (lstrip s).

(** [safe_folder(name)] *)
Definition safe_folder (name : string) : string :=
  str_or (str (strip (sub_reserved false (chars name)))) "Untitled".

(** [re.sub] of the pattern [ESC \[ (digit or semicolon)* m] by the empty string,
    as a scanner.  A match in progress is
    remembered as the parameter characters read after [ESC \[], newest first;
    when it fails they are output: none of them can start a match. *)
Inductive ansi_state :=
| Plain
| SawEsc
| InParams (buf : list ascii).

Definition ESC : ascii := ascii_of_nat 27.

Definition is_param (c : ascii) : bool :=
  let n := nat_of_ascii c in
  ((48 <=? n)%nat && (n <=? 57)%nat) || Ascii.eqb c ";".

Definition ansi_flush (st : ansi_state) : list ascii :=
  match st with
  | Plain => []
  | SawEsc => [ESC]
  | InParams buf => ESC :: "["%char :: rev buf
  end.

Fixpoint strip_ansi_go (st : ansi_state) (s : list ascii) : list ascii :=
  match s with
  | [] => ansi_flush st
  | c :: r =>
      let restart :=
        ansi_flush st ++
        (if Ascii.eqb c ESC then strip_ansi_go SawEsc r
         else c :: strip_ansi_go Plain r) in
      match st with
      | Plain => restart
      | SawEsc => if Ascii.eqb c "[" then strip_ansi_go (InParams []) r else restart
      | InParams buf =>
          if is_param c then strip_ansi_go (InParams (c :: buf)) r
          else if Ascii.eqb c "m" then strip_ansi_go Plain r
          else restart
      end
  end.

(** [strip_ansi(s)]; [None] and the empty string give the empty string. *)
Definition strip_ansi (s : option string) : string :=
  match s with
  | Some s' => str (strip_ansi_go Plain (chars s'))
  | None => EmptyString
  end.

(** ** Numbers *)

(** A Python number as the progress dictionary carries it: [int] or [float]
    (IEEE 754 binary64). *)
Inductive num :=
| NInt (z : Z)
| NFloat (f : float).

(** Truth value of a number: zero (and minus zero) is false, NaN is true. *)
Definition num_truthy (v : num) : bool :=
  match v with
  | NInt z => negb (z =? 0)
  | NFloat f => negb (f =? 0)%float
  end.

(** [v > 0] *)
Definition num_positive (v : num) : bool :=
  match v with
  | NInt z => 0 <? z
  | NFloat f => (0 <? f)%float
  end.

(** [float(z)] for an [int]: rounded to nearest even, [OverflowError] beyond
    the range of a double. *)
Definition float_of_Z (z : Z) : result float :=
  match binary_normalize 53 1024 z 0 false with
  | S754_infinity _ => Raise (PyException "int too large to convert to float")
  | sf => Ok (SF2Prim sf)
  end.

(** [float(v)] *)
Definition float_of_num (v : num) : result float :=
  match v with
  | NInt z => float_of_Z z
  | NFloat f => Ok f
  end.

(** [int(f)] for a float: truncation, [OverflowError] on an infinity and
    [ValueError] on NaN. *)
Definition int_of_float (f : float) : result Z :=
  match Prim2SF f with
  | S754_zero _ => Ok 0
  | S754_finite s m e =>
      let a := Z.shiftl (Z.pos m) e in
      Ok (if s then - a else a)
  | S754_infinity _ => Raise (PyException "cannot convert float infinity to integer")
  | S754_nan => Raise (PyException "cannot convert float NaN to integer")
  end.

Fixpoint zeros (n : nat) : string :=
  match n with
  | O => EmptyString
  | S n' => "0" +:+ zeros n'
  end.

(** The format [.{d}f] for [1 <= d]: the exact value rounded half to even to
    [d] decimals. *)
Definition format_fixed (d : nat) (x : float) : string :=
  let digits (n : Z) :=
    let frac := pretty (n mod 10 ^ Z.of_nat d) in
    pretty (n / 10 ^ Z.of_nat d) +:+ "." +:+
    zeros (d - String.length frac) +:+ frac in
  match Prim2SF x with
  | S754_nan => "nan"
  | S754_infinity s => if s then "-inf" else "inf"
  | S754_zero s => (if s then "-" else EmptyString) +:+ digits 0
  | S754_finite s m e =>
      let num := Z.pos m * 10 ^ Z.of_nat d * 2 ^ Z.max e 0 in
      let den := 2 ^ Z.max (- e) 0 in
      let q := num / den in
      let r := num mod den in
      let n := if 2 * r <? den then q
               else if den <? 2 * r then q + 1
               else if Z.even q then q else q + 1 in
      (if s then "-" else EmptyString) +:+ digits n
  end.

Definition units : list string := ["B"; "KiB"; "MiB"; "GiB"; "TiB"].

Fixpoint humanize_bytes_go (us : list string) (n : float) : string :=
  match us with
  | [] => format_fixed 2 n +:+ " B"
  | unit :: us' =>
      if ((n <? 1024)%float || String.eqb unit "TiB")%bool
      then format_fixed 2 n +:+ " " +:+ unit
      else humanize_bytes_go us' (n / 1024)%float
  end.

(** [humanize_bytes(n)] *)
Definition humanize_bytes (n : float) : string := humanize_bytes_go units n.

(** [humanize_bps(v, fallback)]; [v] is a number or [None]. *)
Definition humanize_bps (v : option num) (fallback : option string) : result string :=
  match v with
  | Some n =>
      if num_positive n
      then match float_of_num n with
           | Ok f => Ok (humanize_bytes f +:+ "/s")
           | Raise e => Raise e
           end
      else Ok (strip_ansi fallback)
  | None => Ok (strip_ansi fallback)
  end.

(** [humanize_seconds(sec)].  [max(0, sec)] is [sec] when [sec > 0] and the
    integer [0] otherwise; [int] of it only raises for plus infinity, whose
    [str] is [inf]. *)
Definition humanize_seconds (sec : option num) : string :=
  match sec with
  | None => EmptyString
  | Some v =>
      let s_or_exc :=
        if num_positive v
        then match v with
             | NInt z => Ok z
             | NFloat f => int_of_float f
             end
        else Ok 0 in
      match s_or_exc with
      | Raise _ => strip_ansi (Some "inf")
      | Ok s =>
          let h := s / 3600 in
          let m := (s mod 3600) / 60 in
          let ss := s mod 60 in
          if negb (h =? 0) then pretty h +:+ "h " +:+ pretty m +:+ "m " +:+ pretty ss +:+ "s"
          else if negb (m =? 0) then pretty m +:+ "m " +:+ pretty ss +:+ "s"
          else pretty ss +:+ "s"
      end
  end.

(** ** Download engine *)

(** [_format_string(media_type, height)] *)
Definition _format_string (media_type : string) (height : option Z) : string :=
  if String.eqb media_type "audio" then "bestaudio/best"
  else match height with
       | None => "bv*+ba/b"
       | Some h => "bv*[height=" +:+ pretty h +:+ "]+ba/b[height=" +:+ pretty h +:+ "]"
       end.

(** ** Python values and the job registry *)

(** The values a job record holds. *)
Inductive pyval :=
| PNone
| PBool (b : bool)
| PInt (z : Z)
| PFloat (f : float)
| PStr (s : string)
| PList (l : list string).

(** Truth value, as [if v:] and [v or w] take it. *)
Definition truthy (v : pyval) : bool :=
  match v with
  | PNone => false
  | PBool b => b
  | PInt z => negb (z =? 0)
  | PFloat f => negb (f =? 0)%float
  | PStr s => negb (String.eqb s EmptyString)
  | PList l => match l with [] => false | _ => true end
  end.

(** [v == lit] for a string literal, on the result of [d.get(k)]. *)
Definition is_str (v : option pyval) (lit : string) : bool :=
  match v with
  | Some (PStr s) => String.eqb s lit
  | _ => false
  end.

(** [d.get(k)] as a truth value: a missing key gives [None]. *)
Definition get_truthy (d : gmap string pyval) (k : string) : bool :=
  match d !! k with
  | Some v => truthy v
  | None => false
  end.

(** The format [.1f] applied to a value. *)
Definition format_f1 (v : pyval) : result string :=
  match v with
  | PFloat f => Ok (format_fixed 1 f)
  | PInt z =>
      match float_of_Z z with
      | Ok f => Ok (format_fixed 1 f)
      | Raise e => Raise e
      end
  | PBool b => Ok (if b then "1.0" else "0.0")
  | PNone => Raise (PyException "unsupported format string passed to NoneType.__format__")
  | PStr _ => Raise (PyException "Unknown format code 'f' for object of type 'str'")
  | PList _ => Raise (PyException "unsupported format string passed to list.__format__")
  end.

(** [JOBS]: job id to job record; a record is the dictionary [create_job]
    builds. *)
Abbreviation job := (gmap string pyval).
Abbreviation registry := (gmap string (gmap string pyval)).

(** [job[k] = v] for the record registered under [job_id]: the record is one
    shared object, so the assignment is seen through [JOBS]. *)
Definition set_field (job_id k : string) (v : pyval) (JOBS : registry) : registry :=
  alter (insert k v) job_id JOBS.

(** [create_job].  [job_id] stands for [uuid.uuid4().hex[:12]] and [now] for
    [int(time.time())]; the worker thread it starts is [_download_worker]
    below, which runs after [create_job] has returned the id. *)
Definition create_job (env : Env) (job_id : string) (now : Z)
    (url media_type : string) (video_height : option Z)
    (audio_bitrate : option string) (selected_urls : option (list string))
    (output_dir : option string) (JOBS : registry) : result (string * registry) :=
  match _resolve_root_dir env output_dir media_type with
  | Raise e => Raise e
  | Ok root_dir =>
      let record : job :=
        list_to_map
          [ ("jobId", PStr job_id);
            ("url", PStr url);
            ("mediaType", PStr media_type);
            ("videoHeight", match video_height with Some h => PInt h | None => PNone end);
            ("audioBitrate", PStr (str_or (default EmptyString audio_bitrate) "best"));
            ("selectedUrls", PList (default [] selected_urls));
            ("rootDir", PStr root_dir);
            ("finalDir", PNone);
            ("status", PStr "queued");
            ("progress", PFloat 0);
            ("percent", PStr "0%");
            ("eta", PStr EmptyString);
            ("speed", PStr EmptyString);
            ("message", PStr EmptyString);
            ("_cancel", PBool false);
            ("kind", PNone);
            ("title", PStr EmptyString);
            ("currentItem", PInt 0);
            ("totalItems", PInt 0);
            ("currentTitle", PStr EmptyString);
            ("created", PInt now) ] in
      Ok (job_id, <[job_id := record]> JOBS)
  end.

(** [not job] for [job = JOBS.get(job_id)]: no record, or an empty one. *)
Definition no_job (o : option job) : bool :=
  match o with
  | None => true
  | Some j => (size j =? 0)%nat
  end.

(** [cancel_job(job_id)]: the returned flag and the registry afterwards. *)
Definition cancel_job (job_id : string) (JOBS : registry) : bool * registry :=
  if no_job (JOBS !! job_id) then (false, JOBS)
  else (true,
        set_field job_id "message" (PStr "Cancel requested…")
          (set_field job_id "_cancel" (PBool true) JOBS)).

(** [get_job(job_id)]: the record itself, which the HTTP handlers serialise
    as it is. *)
Definition get_job (job_id : string) (JOBS : registry) : option job :=
  JOBS !! job_id.

(** ** State and exceptions *)

(** A computation over a state [S] that returns or raises; the state it
    leaves is kept in both cases, as the mutations made before a [raise] are. *)
Definition M (S A : Type) : Type := S → S * result A.

Global Instance M_ret {S} : MRet (M S) := λ A a s, (s, Ok a).
Global Instance M_bind {S} : MBind (M S) := λ A B f m s,
  match m s with
  | (s', Ok a) => f a s'
  | (s', Raise e) => (s', Raise e)
  end.

Definition raise {S A} (e : exn) : M S A := λ s, (s, Raise e).
Definition get_state {S} : M S S := λ s, (s, Ok s).
Definition modify {S} (f : S → S) : M S unit := λ s, (f s, Ok tt).
Definition lift_result {S A} (r : result A) : M S A := λ s, (s, r).

(** [try: m except <handled by h>: ...]: [h e] is [None] for an exception no
    clause catches. *)
Definition try_except {S A} (m : M S A) (h : exn → option (M S A)) : M S A := λ s,
  match m s with
  | (s', Ok a) => (s', Ok a)
  | (s', Raise e) =>
      match h e with
      | Some k => k s'
      | None => (s', Raise e)
      end
  end.

(** [try: m finally: f] *)
Definition try_finally {S A} (m : M S A) (f : M S unit) : M S A := λ s,
  match m s with
  | (s', r) =>
      match f s' with
      | (s'', Ok _) => (s'', r)
      | (s'', Raise e) => (s'', Raise e)
      end
  end.

(** ** The progress hook *)

(** The dictionary the extraction library passes to a progress hook, with the
    keys the hook reads; a key that is absent is [None]. *)
Record progress := {
  p_status : option string;
  p_total_bytes : option num;
  p_total_bytes_estimate : option num;
  p_downloaded_bytes : option num;
  p_speed : option num;
  p_speed_str : option string;
  p_eta : option num;
  p_eta_str : option string;
  p_filename : option string
}.

(** [a or b] for numbers; [None] is falsy. *)
Definition num_or (a : option num) (b : num) : num :=
  match a with
  | Some v => if num_truthy v then v else b
  | None => b
  end.

(** [a / b] on floats *)
Definition float_div (a b : float) : result float :=
  if (b =? 0)%float then Raise (PyException "float division by zero")
  else Ok (a / b)%float.

Definition status_is (s : option string) (lit : string) : bool :=
  match s with
  | Some s' => String.eqb s' lit
  | None => false
  end.

(** [d.get(total_bytes) or d.get(total_bytes_estimate) or 0] *)
Definition hook_total (d : progress) : num :=
  num_or (p_total_bytes d) (num_or (p_total_bytes_estimate d) (NInt 0)).

(** [d.get(downloaded_bytes) or 0] *)
Definition hook_done (d : progress) : num :=
  num_or (p_downloaded_bytes d) (NInt 0).

(** [job.get(k)] on the record registered under [job_id]. *)
Definition read_field (job_id k : string) : M registry (option pyval) := λ JOBS,
  (JOBS, Ok (JOBS !! job_id ≫= (.!! k))).

(** [_progress_hook(job_id)], applied to a progress dictionary [d]. *)
Definition _progress_hook (job_id : string) (d : progress) : M registry unit :=
  JOBS ← get_state;
  if no_job (JOBS !! job_id) then mret tt
  else
    let set k v := modify (set_field job_id k v) in
    (if status_is (p_status d) "downloading" then
       set "status" (PStr "running");;
       let total := hook_total d in
       let done := hook_done d in
       (if num_truthy total then
          fd ← lift_result (float_of_num done);
          ft ← lift_result (float_of_num total);
          q ← lift_result (float_div fd ft);
          set "progress" (PFloat (q * 100)%float)
        else mret tt);;
       p ← read_field job_id "progress";
       pc ← lift_result (format_f1 (default (PFloat 0) p));
       set "percent" (PStr (pc +:+ "%"));;
       sp ← lift_result (humanize_bps (p_speed d) (p_speed_str d));
       set "speed" (PStr sp);;
       set "eta" (PStr (str_or (humanize_seconds (p_eta d)) (strip_ansi (p_eta_str d))))
     else if status_is (p_status d) "finished" then
       set "message"
         (PStr ("Processing " +:+ Path.basename (default EmptyString (p_filename d)) +:+ "…"))
     else mret tt);;
    c ← read_field job_id "_cancel";
    if truthy (default PNone c) then raise (KeyboardInterrupt "Canceled by user")
    else mret tt.

(** ** The extraction library and the worker *)

(** One entry of the [postprocessors] option. *)
Record postprocessor := {
  pp_key : string;
  pp_preferredcodec : string;
  pp_preferredquality : option pyval
}.

(** The options a download is started with, those the engine chooses per
    call; the options [_yt_opts] adds to every call (quiet logging, headers,
    the cookie file) are the same for all calls and are left out. *)
Record ydl_opts := {
  o_format : string;
  o_outtmpl : string;
  o_postprocessors : option (list postprocessor)
}.

(** What can happen while [ydl.download] runs: the library invokes the
    progress hook, or the HTTP thread serves a cancellation request for this
    job. *)
Inductive action :=
| Progress (d : progress)
| CancelRequest.

(** One run of [ydl.download]: what happens meanwhile, and how the call ends
    when no hook raises. *)
Record attempt := {
  a_actions : list action;
  a_outcome : result unit
}.

(** The part of an [info] dictionary the engine reads. *)
Record info := {
  i_title : option string;
  i_has_entries : bool        (* the key [entries] is present and not empty *)
}.

(** The extraction library.  The number is the count of calls the worker has
    made before this one, so that a call repeated with the same arguments may
    be answered differently. *)
Record World := {
  w_probe : string → result (option info);          (* flat [extract_info] *)
  w_info : nat → string → result (option info);     (* [extract_info] of an item *)
  w_download : nat → string → ydl_opts → attempt    (* [ydl.download([url])] *)
}.

(** The calls the worker makes to the library and to the file system. *)
Inductive call :=
| CallProbe (url : string)
| CallInfo (url : string)
| CallDownload (url : string) (opts : ydl_opts)
| CallMakedirs (path : string)
| CallMoveCompleted (work_dir final_dir : option string).

(** The state of a worker: the registry, the calls made so far, each with the
    job record as it was when the call was made, and the two local variables
    the [finally] clause reads. *)
Record wstate := {
  JOBS : registry;
  trace : list (call * option job);
  final_dir : option string;
  work_dir : option string
}.

Definition with_jobs (f : registry → registry) (s : wstate) : wstate :=
  {| JOBS := f (JOBS s); trace := trace s;
     final_dir := final_dir s; work_dir := work_dir s |}.

Definition set_final_dir (v : option string) (s : wstate) : wstate :=
  {| JOBS := JOBS s; trace := trace s; final_dir := v; work_dir := work_dir s |}.

Definition set_work_dir (v : option string) (s : wstate) : wstate :=
  {| JOBS := JOBS s; trace := trace s; final_dir := final_dir s; work_dir := v |}.

(** Run a computation on the registry inside a worker. *)
Definition on_jobs {A} (m : M registry A) : M wstate A := λ s,
  match m (JOBS s) with
  | (J, r) => (with_jobs (λ _, J) s, r)
  end.

Definition log (job_id : string) (c : call) : M wstate unit :=
  modify (λ s, {| JOBS := JOBS s;
                  trace := trace s ++ [(c, JOBS s !! job_id)];
                  final_dir := final_dir s; work_dir := work_dir s |}).

(** The value of [kind] *)
Inductive kind := Video | Playlist.

Definition kind_str (k : kind) : string :=
  match k with
  | Video => "video"
  | Playlist => "playlist"
  end.

(** The keys of [probe_url_meta]'s result that the worker reads. *)
Record meta := {
  m_kind : kind;
  m_title : string
}.

Section Worker.
Context (env : Env) (w : World).

(** [os.makedirs(p, exist_ok=True)] in a worker. *)
Definition makedirs (job_id p : string) : M wstate unit :=
  log job_id (CallMakedirs p);;
  lift_result (os_makedirs env p).

(** [probe_url_meta(url)], up to the keys [kind] and [title]: the heights
    and the entry list it also returns are not read by the worker. *)
Definition probe_url_meta (job_id url : string) : M wstate meta :=
  log job_id (CallProbe url);;
  match w_probe w url with
  | Raise (DownloadError _) => raise (DownloadError "Video or playlist unavailable")
  | Raise e => raise e
  | Ok None => raise (PyException "argument of type 'NoneType' is not iterable")
  | Ok (Some i) =>
      mret {| m_kind := if i_has_entries i then Playlist else Video;
              m_title := str_or (default EmptyString (i_title i)) "Untitled" |}
  end.

(** The hook invocations and cancellation requests of one download, in
    order, until a hook raises. *)
Fixpoint run_actions (job_id : string) (acts : list action) : M registry unit :=
  match acts with
  | [] => mret tt
  | Progress d :: rest => _progress_hook job_id d;; run_actions job_id rest
  | CancelRequest :: rest =>
      modify (λ J, snd (cancel_job job_id J));; run_actions job_id rest
  end.

(** [with YoutubeDL(opts) as ydl: ydl.download([url])] *)
Definition ydl_download (job_id url : string) (opts : ydl_opts) : M wstate unit :=
  s ← get_state;
  let a := w_download w (length (trace s)) url opts in
  log job_id (CallDownload url opts);;
  on_jobs (run_actions job_id (a_actions a));;
  lift_result (a_outcome a).

Definition mk_opts (fmt work_dir : string)
    (postprocessors : option (list postprocessor)) : ydl_opts :=
  {| o_format := fmt;
     o_outtmpl := Path.join work_dir "%(title)s.%(ext)s";
     o_postprocessors :=
       match postprocessors with
       | Some (_ :: _) => postprocessors
       | _ => None
       end |}.

Definition format_unavailable (msg : string) : bool :=
  contains (chars "Requested format is not available") (chars msg).

(** [_try_download_one] *)
Definition _try_download_one (url media_type : string) (height : option Z)
    (postprocessors : option (list postprocessor)) (job_id work_dir : string)
  : M wstate unit :=
  let fmt := _format_string media_type height in
  returned ←
    try_except
      (ydl_download job_id url (mk_opts fmt work_dir postprocessors);; mret true)
      (λ e, match e with
            | DownloadError msg =>
                if negb (format_unavailable msg) then None else Some (mret false)
            | _ => None
            end);
  if returned : bool then mret tt
  else
    (* Fallback to Best *)
    let best_fmt := _format_string media_type None in
    ydl_download job_id url (mk_opts best_fmt work_dir postprocessors).
End Worker.

Section Engine.
Context (env : Env) (w : World).

Definition set_job (job_id k : string) (v : pyval) : M wstate unit :=
  modify (with_jobs (set_field job_id k v)).

Definition read_job (job_id k : string) : M wstate (option pyval) :=
  on_jobs (read_field job_id k).

(** The body of the loop of [_download_urls], from item [i] on; [None]
    for the rest of the list is the [break]. *)
Fixpoint download_items (job_id media_type : string) (height : option Z)
    (postprocessors : option (list postprocessor)) (work_dir : string)
    (total : Z) (i : Z) (urls : list string) : M wstate unit :=
  match urls with
  | [] => mret tt
  | u :: rest =>
      set_job job_id "currentItem" (PInt i);;
      set_job job_id "message"
        (PStr ("Downloading item " +:+ pretty i +:+ "/" +:+ pretty total +:+ "…"));;
      title ←
        try_except
          (s ← get_state;
           log job_id (CallInfo u);;
           vi ← lift_result (w_info w (length (trace s)) u);
           match vi with
           | Some i => mret (str_or (default EmptyString (i_title i)) EmptyString)
           | None => raise (PyException "'NoneType' object has no attribute 'get'")
           end)
          (λ e, match e with
                | KeyboardInterrupt _ => None
                | _ => Some (mret EmptyString)
                end);
      set_job job_id "currentTitle" (PStr title);;
      _try_download_one w u media_type height postprocessors job_id work_dir;;
      c ← read_job job_id "_cancel";
      if truthy (default PNone c) then mret tt
      else download_items job_id media_type height postprocessors work_dir
             total (i + 1) rest
  end.

(** [_download_urls] *)
Definition _download_urls (job_id : string) (urls : list string)
    (media_type : string) (height : option Z) (work_dir : string) : M wstate unit :=
  s ← get_state;
  match JOBS s !! job_id with
  | None => raise (PyException "KeyError")
  | Some _ =>
      makedirs env job_id work_dir;;
      postprocessors ←
        (if String.eqb media_type "audio" then
           abitrate ← read_job job_id "audioBitrate";
           let quality :=
             match abitrate with
             | Some v =>
                 if truthy v && negb (match v with
                                      | PStr b => String.eqb b "best"
                                      | _ => false
                                      end)
                 then Some v else None
             | None => None
             end in
           mret (Some [ {| pp_key := "FFmpegExtractAudio";
                           pp_preferredcodec := "mp3";
                           pp_preferredquality := quality |} ])
         else mret None);
      let total := Z.of_nat (length urls) in
      set_job job_id "totalItems" (PInt total);;
      download_items job_id media_type height postprocessors work_dir total 1 urls
  end.

(** The [try] block of [_download_worker]. *)
Definition worker_body (job_id url media_type : string) (height : option Z)
    (root_dir : string) : M wstate unit :=
  meta ← probe_url_meta w job_id url;
  set_job job_id "kind" (PStr (kind_str (m_kind meta)));;
  set_job job_id "title" (PStr (m_title meta));;
  set_job job_id "status" (PStr "running");;
  set_job job_id "message" (PStr "Starting…");;
  let fd :=
    match m_kind meta with
    | Playlist => Path.join root_dir (safe_folder (str_or (m_title meta) "Playlist"))
    | Video => root_dir
    end in
  modify (set_final_dir (Some fd));;
  makedirs env job_id fd;;
  set_job job_id "finalDir" (PStr fd);;
  let wd := Path.join (Path.join root_dir "_tmp") job_id in
  modify (set_work_dir (Some wd));;
  makedirs env job_id wd;;
  sel ← read_job job_id "selectedUrls";
  let selected_urls := match sel with Some (PList l) => l | _ => [] end in
  let urls :=
    match m_kind meta, selected_urls with
    | Playlist, _ :: _ => selected_urls
    | _, _ => [url]
    end in
  _download_urls job_id urls media_type height wd;;
  (* Normal completion *)
  c ← read_job job_id "_cancel";
  let canceled := truthy (default PNone c) in
  set_job job_id "status" (PStr (if canceled then "canceled" else "done"));;
  set_job job_id "message" (PStr (if canceled then "Canceled" else "Completed"));;
  (if canceled then mret tt
   else set_job job_id "progress" (PFloat 100);;
        set_job job_id "percent" (PStr "100%"));;
  set_job job_id "eta" (PStr EmptyString);;
  set_job job_id "speed" (PStr EmptyString).

(** The [except] clauses of [_download_worker]. *)
Definition worker_handler (job_id : string) (e : exn) : option (M wstate unit) :=
  Some match e with
       | KeyboardInterrupt _ =>
           set_job job_id "status" (PStr "canceled");;
           set_job job_id "message" (PStr "Canceled")
       | DownloadError msg =>
           set_job job_id "status" (PStr "error");;
           set_job job_id "message" (PStr ("DownloadError: " +:+ msg))
       | PyException msg =>
           set_job job_id "status" (PStr "error");;
           set_job job_id "message" (PStr ("Error: " +:+ msg))
       end.

(** The [finally] clause: the reconciler is called on the two local
    variables; whatever it raises is discarded, and what it does to the
    file system is [FS._move_completed_to_final] below. *)
Definition worker_finally (job_id : string) : M wstate unit :=
  s ← get_state;
  log job_id (CallMoveCompleted (work_dir s) (final_dir s));;
  st ← read_job job_id "status";
  if is_str st "canceled"
  then set_job job_id "message"
         (PStr "Canceled — completed items saved to destination.")
  else mret tt.

(** [_download_worker(job_id)].  The reads before the [try] raise
    [KeyError] when the record or one of its keys is missing. *)
Definition _download_worker (job_id : string) : M wstate unit :=
  s ← get_state;
  match JOBS s !! job_id with
  | None => raise (PyException "KeyError")
  | Some job =>
      match job !! "url", job !! "mediaType" with
      | Some (PStr url), Some (PStr media_type) =>
          let height :=
            match job !! "videoHeight" with
            | Some (PInt h) => Some h
            | _ => None
            end in
          let root_dir :=
            match job !! "rootDir" with
            | Some (PStr r) => r
            | _ => STORAGE_DIR env
            end in
          modify (set_final_dir None);;
          modify (set_work_dir None);;
          try_finally
            (try_except (worker_body job_id url media_type height root_dir)
                        (worker_handler job_id))
            (worker_finally job_id)
      | _, _ => raise (PyException "KeyError")
      end
  end.

(** A worker started on a registry. *)
Definition run_worker (job_id : string) (J : registry) : wstate * result unit :=
  _download_worker job_id
    {| JOBS := J; trace := []; final_dir := None; work_dir := None |}.
End Engine.

(** ** The file system and the staging reconciler *)

Module FS.

(** A file-system tree.  The entries of a directory are listed in the
    order in which the directory is scanned; their names are distinct in a
    well-formed tree ([wf]). *)
Inductive node :=
| File (data : string)
| Dir (entries : list (string * node)).

(** A path is the list of its components from the root;
    [os.path.join(d, f)] is [d ++ [f]] and [os.path.dirname(p)] is
    [removelast p]. *)
Definition path := list string.

Fixpoint assoc (name : string) (es : list (string * node)) : option node :=
  match es with
  | [] => None
  | (k, x) :: r => if String.eqb k name then Some x else assoc name r
  end.

(** Bind [name] to [v]: in place when the name is bound, else as a new
    last entry. *)
Fixpoint assoc_set (name : string) (v : node) (es : list (string * node))
  : list (string * node) :=
  match es with
  | [] => [(name, v)]
  | (k, x) :: r =>
      if String.eqb k name then (k, v) :: r else (k, x) :: assoc_set name v r
  end.

Definition assoc_del (name : string) (es : list (string * node))
  : list (string * node) :=
  List.filter (λ e, negb (String.eqb (fst e) name)) es.

Fixpoint distinct (l : list string) : bool :=
  match l with
  | [] => true
  | x :: r => negb (existsb (String.eqb x) r) && distinct r
  end.

Fixpoint wf (n : node) : bool :=
  match n with
  | File _ => true
  | Dir es =>
      distinct (map fst es) &&
      (fix all (l : list (string * node)) : bool :=
         match l with
         | [] => true
         | (_, m) :: r => wf m && all r
         end) es
  end.

(** The node at path [p] under [n]. *)
Fixpoint fs_lookup (p : path) (n : node) : option node :=
  match p with
  | [] => Some n
  | c :: p' =>
      match n with
      | Dir es =>
          match assoc c es with
          | Some m => fs_lookup p' m
          | None => None
          end
      | File _ => None
      end
  end.

(** [os.path.exists], [os.path.isdir] *)
Definition exists_ (p : path) (fs : node) : bool :=
  match fs_lookup p fs with
  | Some _ => true
  | None => false
  end.

Definition isdir (p : path) (fs : node) : bool :=
  match fs_lookup p fs with
  | Some (Dir _) => true
  | _ => false
  end.

(** Put [v] at [p]; [None] (an [OSError]) when the parent of [p] is not a
    directory. *)
Fixpoint fs_insert (p : path) (v : node) (n : node) : option node :=
  match p with
  | [] => Some v
  | c :: p' =>
      match n with
      | File _ => None
      | Dir es =>
          match assoc c es, p' with
          | Some m, _ =>
              match fs_insert p' v m with
              | Some m' => Some (Dir (assoc_set c m' es))
              | None => None
              end
          | None, [] => Some (Dir (assoc_set c v es))
          | None, _ :: _ => None
          end
      end
  end.

(** Remove what is at [p], if anything. *)
Fixpoint fs_remove (p : path) (n : node) : node :=
  match p with
  | [] => n
  | c :: p' =>
      match n with
      | File _ => n
      | Dir es =>
          match p' with
          | [] => Dir (assoc_del c es)
          | _ :: _ =>
              match assoc c es with
              | Some m => Dir (assoc_set c (fs_remove p' m) es)
              | None => n
              end
          end
      end
  end.

(** [os.makedirs(p, exist_ok=True)]; [None] when a component of [p] is a
    regular file. *)
Fixpoint makedirs (p : path) (n : node) : option node :=
  match n with
  | File _ => None
  | Dir es =>
      match p with
      | [] => Some n
      | c :: p' =>
          match makedirs p' (default (Dir []) (assoc c es)) with
          | Some m' => Some (Dir (assoc_set c m' es))
          | None => None
          end
      end
  end.

(** The names of the entries that are not directories. *)
Definition file_names (es : list (string * node)) : list string :=
  map fst (List.filter (λ e, match snd e with File _ => true | Dir _ => false end) es).

(** [os.walk(root)] on the tree [n] found at [root], top down: each
    directory with the names of its files. *)
Fixpoint walk (root : path) (n : node) : list (path * list string) :=
  match n with
  | File _ => []
  | Dir es =>
      (root, file_names es) ::
      (fix sub (l : list (string * node)) : list (path * list string) :=
         match l with
         | [] => []
         | (c, m) :: r => walk (root ++ [c]) m ++ sub r
         end) es
  end.

Definition os_walk (top : path) (fs : node) : list (path * list string) :=
  match fs_lookup top fs with
  | Some n => walk top n
  | None => []
  end.

(** [os.path.splitext] of a file name: the extension starts at the last
    dot, unless only dots precede it. *)
Fixpoint split_last_dot (ext rp : list ascii) : option (list ascii * list ascii) :=
  match rp with
  | [] => None
  | c :: rp' =>
      if is_slash c then None
      else if Ascii.eqb c "." then Some (c :: ext, rp')
      else split_last_dot (c :: ext) rp'
  end.

Definition splitext (p : string) : string * string :=
  match split_last_dot [] (rev (chars p)) with
  | Some (ext, rbase) =>
      if forallb (Ascii.eqb ".") (Path.take_until_slash rbase)
      then (p, EmptyString)
      else (str (rev rbase), str ext)
  | None => (p, EmptyString)
  end.

(** The name tried after [n - 1] collisions: [{base} ({n}){ext}]. *)
Definition numbered (base ext : string) (n : Z) : string :=
  base +:+ " (" +:+ pretty n +:+ ")" +:+ ext.

(** The loop of [_unique_dst], for at most [fuel] more candidates. *)
Fixpoint unique_dst_loop (fuel : nat) (fs : node) (dst_dir : path)
    (base ext : string) (n : Z) (candidate : path) : option path :=
  if exists_ candidate fs then
    match fuel with
    | O => None
    | S fuel' =>
        unique_dst_loop fuel' fs dst_dir base ext (n + 1)
          (dst_dir ++ [numbered base ext n])
    end
  else Some candidate.

Definition entry_count (p : path) (fs : node) : nat :=
  match fs_lookup p fs with
  | Some (Dir es) => length es
  | _ => O
  end.

(** [_unique_dst(dst_dir, filename)].  The loop is given one candidate
    more than [dst_dir] has entries, which is enough for it to end
    ([unique_dst_total]). *)
Definition _unique_dst (dst_dir : path) (filename : string) (fs : node)
  : option path :=
  let '(base, ext) := splitext filename in
  unique_dst_loop (S (entry_count dst_dir fs)) fs dst_dir base ext 1
    (dst_dir ++ [filename]).

(** [f.endswith(.part) or f.endswith(.ytdl)] *)
Definition is_temp (f : string) : bool :=
  ends_with (chars ".part") (chars f) || ends_with (chars ".ytdl") (chars f).

(** [shutil.move(src, dst)] for a [dst] that does not exist: a rename. *)
Definition shutil_move (src dst : path) (fs : node) : option node :=
  match fs_lookup src fs with
  | Some n => fs_insert dst n (fs_remove src fs)
  | None => None
  end.

(** [shutil.copy2(src, dst)] *)
Definition shutil_copy2 (src dst : path) (fs : node) : option node :=
  match fs_lookup src fs with
  | Some (File d) => fs_insert dst (File d) fs
  | _ => None
  end.

(** [os.remove(src)] *)
Definition os_remove (src : path) (fs : node) : option node :=
  match fs_lookup src fs with
  | Some (File _) => Some (fs_remove src fs)
  | _ => None
  end.

(** The body of the inner loop of [_move_completed_to_final]. *)
Definition move_one (final_dir root : path) (f : string) (fs : node)
  : option node :=
  if is_temp f then Some fs
  else
    let src := root ++ [f] in
    match _unique_dst final_dir f fs with
    | None => None
    | Some dst =>
        match makedirs (removelast dst) fs with
        | None => None
        | Some fs1 =>
            match shutil_move src dst fs1 with
            | Some fs2 => Some fs2
            | None =>
                match shutil_copy2 src dst fs1 with
                | Some fs2 => Some (default fs2 (os_remove src fs2))
                | None => None
                end
            end
        end
    end.

Fixpoint move_files (final_dir root : path) (files : list string) (fs : node)
  : option node :=
  match files with
  | [] => Some fs
  | f :: r =>
      match move_one final_dir root f fs with
      | Some fs' => move_files final_dir root r fs'
      | None => None
      end
  end.

Fixpoint move_dirs (final_dir : path) (ds : list (path * list string)) (fs : node)
  : option node :=
  match ds with
  | [] => Some fs
  | (root, files) :: r =>
      match move_files final_dir root files fs with
      | Some fs' => move_dirs final_dir r fs'
      | None => None
      end
  end.

(** [_move_completed_to_final(work_dir, final_dir)]; an argument that is
    [None] or the empty string is [None] here, and the result is [None]
    when the function raises.  The directories of the staging tree are
    listed as they are once [final_dir] has been made: the loop body only
    takes files out of directories that were already listed and adds files
    to [final_dir], so that nothing it does is seen by the rest of the walk
    as long as [final_dir] does not lie inside [work_dir]. *)
Definition _move_completed_to_final (work_dir final_dir : option path)
    (fs : node) : option node :=
  match work_dir, final_dir with
  | Some wd, Some fd =>
      if negb (isdir wd fs) then Some fs
      else
        match makedirs fd fs with
        | None => None
        | Some fs1 =>
            match move_dirs fd (os_walk wd fs1) fs1 with
            | None => None
            | Some fs2 => Some (fs_remove wd fs2)   (* shutil.rmtree *)
            end
        end
  | _, _ => Some fs
  end.

End FS.

(** ** The options shared by all calls of the library *)

(** The values of the options the engine passes. *)
Inductive optval :=
| OBool (b : bool)
| OStr (s : string)
| OLogger                                  (* a [QuietLogger] *)
| OHeaders (h : list (string * string))
| OHooks (job_ids : list string)           (* the hooks [_progress_hook(job_id)] *)
| OPostprocessors (l : list postprocessor).

Definition COOKIES_DIR (env : Env) : string := Path.join (BASE_DIR env) "cookies".
Definition COOKIES_FILE (env : Env) : string := Path.join (COOKIES_DIR env) "cookies.txt".

Definition default_options : gmap string optval :=
  list_to_map [("quiet", OBool true); ("no_warnings", OBool true); ("logger", OLogger)].

Definition default_headers : optval :=
  OHeaders
    [("User-Agent",
      "Mozilla/5.0 (Windows NT 10.0; Win64; x64) AppleWebKit/537.36 (KHTML, like Gecko) Chrome/120.0.0.0 Safari/537.36");
     ("Accept-Language", "en-US,en;q=0.9")].

(** [_yt_opts(base)]; [cookies] tells whether [COOKIES_FILE] is a file.
    In the dictionary literal the entries of [base] come last and so
    replace the defaults. *)
Definition _yt_opts (env : Env) (cookies : bool) (base : gmap string optval)
  : gmap string optval :=
  let opts := base ∪ default_options in
  let opts := if cookies then <["cookiefile" := OStr (COOKIES_FILE env)]> opts else opts in
  match opts !! "http_headers" with
  | Some _ => opts
  | None => <["http_headers" := default_headers]> opts
  end.

(** ** The metadata probe *)

Module Probe.

(** One entry of [formats], with the keys read; a key that is absent reads as
    [None]. *)
Record format := {
  f_vcodec : pyval;
  f_height : pyval
}.

(** One entry of a flat playlist, likewise; an entry that is [None] or an
    empty dictionary is [None] in the list of entries. *)
Record entry := {
  e_url : option string;
  e_webpage_url : option string;
  e_title : option string;
  e_id : option string;
  e_duration : pyval;
  e_duration_string : pyval
}.

(** An [info] dictionary of the extraction library, with the keys the probe
    reads.  A key that is absent is [None]; [formats] and [entries], when
    present, are lists. *)
Record info := {
  i_title : option string;
  i_thumbnail : option string;
  i_webpage_url : option string;
  i_formats : option (list format);
  i_entries : option (list (option entry))
}.

(** The extraction library as the probe uses it: [extract_flat] is
    [extract_info] with the options of the flat probe ([extract_flat],
    [ignoreerrors]), [extract] with [skip_download] alone. *)
Record Library := {
  extract_flat : string → result (option info);
  extract : option string → result (option info)
}.

(** [isinstance(h, int)]; a [bool] is an [int]. *)
Definition is_int (v : pyval) : bool :=
  match v with
  | PInt _ | PBool _ => true
  | _ => false
  end.

(** The number an [int] is; [True] is 1 and [False] is 0. *)
Definition int_value (v : pyval) : Z :=
  match v with
  | PInt z => z
  | PBool true => 1
  | _ => 0
  end.

(** [heights.add(h)] on a set of [int]s, held as the list of its elements: an
    element equal to [h] stays, and [h] is not added. *)
Definition set_add (h : pyval) (s : list pyval) : list pyval :=
  if existsb (λ x, int_value x =? int_value h) s then s else s ++ [h].

(** [sorted(s, reverse=True)] on [int]s *)
Fixpoint insert_desc (h : pyval) (l : list pyval) : list pyval :=
  match l with
  | [] => [h]
  | x :: r => if int_value x <? int_value h then h :: l else x :: insert_desc h r
  end.

Definition sorted_reverse (s : list pyval) : list pyval :=
  fold_left (λ acc h, insert_desc h acc) s [].

(** The test of the loop: a video codec that is not [none], and a height
    that is an [int]. *)
Definition has_video_height (f : format) : bool :=
  truthy (f_vcodec f) && negb (is_str (Some (f_vcodec f)) "none") && is_int (f_height f).

(** [_list_heights_from_info(info)] *)
Definition _list_heights_from_info (vi : option info) : list pyval :=
  let formats :=
    match vi with
    | Some i => default [] (i_formats i)
    | None => []
    end in
  let heights :=
    fold_left (λ hs f, if has_video_height f then set_add (f_height f) hs else hs)
      formats [] in
  sorted_reverse heights.

Section WithLibrary.
Context (lib : Library).

(** [_probe_video_heights(url)]: [except Exception] does not catch
    [KeyboardInterrupt]. *)
Definition _probe_video_heights (url : option string) : result (list pyval) :=
  match extract lib url with
  | Ok vi => Ok (_list_heights_from_info vi)
  | Raise (KeyboardInterrupt m) => Raise (KeyboardInterrupt m)
  | Raise _ => Ok []
  end.

(** [a or b] on optional strings *)
Definition opt_or (a b : option string) : option string :=
  match a with
  | Some (String _ _) => a
  | _ => b
  end.

(** One entry of the result's [entries]; its [thumbnail] is always [None]. *)
Record listed := {
  l_index : Z;
  l_id : string;
  l_title : string;
  l_url : option string;
  l_duration : pyval
}.

(** The loop over [enumerate(entries, start=i)] *)
Fixpoint list_entries (i : Z) (es : list (option entry)) : list listed :=
  match es with
  | [] => []
  | None :: r => list_entries (i + 1) r
  | Some e :: r =>
      {| l_index := i;
         l_id := str_or (default EmptyString (e_id e)) EmptyString;
         l_title := str_or (default EmptyString (e_title e)) ("Item " +:+ pretty i);
         l_url := opt_or (e_url e) (e_webpage_url e);
         l_duration := if truthy (e_duration e) then e_duration e
                       else e_duration_string e |}
      :: list_entries (i + 1) r
  end.

(** The dictionary [probe_url_meta] returns; [m_entries] is [None] for a
    single video, whose dictionary has no such key. *)
Record meta := {
  m_kind : kind;
  m_title : string;
  m_availableHeights : list pyval;
  m_defaultHeight : option pyval;
  m_canAudio : bool;
  m_thumbnail : option string;
  m_entries : option (list listed)
}.

(** [probe_url_meta(url)] *)
Definition probe_url_meta (url : string) : result meta :=
  match extract_flat lib url with
  | Raise (DownloadError _) => Raise (DownloadError "Video or playlist unavailable")
  | Raise e => Raise e
  | Ok None => Raise (PyException "argument of type 'NoneType' is not iterable")
  | Ok (Some vi) =>
      let is_playlist :=
        match i_entries vi with
        | Some (_ :: _) => true
        | _ => false
        end in
      let title := str_or (default EmptyString (i_title vi)) "Untitled" in
      let thumb := i_thumbnail vi in
      if negb is_playlist then
        let probed :=
          match _list_heights_from_info (Some vi) with
          | [] =>
              _probe_video_heights
                (Some (str_or (default EmptyString (i_webpage_url vi)) url))
          | hs => Ok hs
          end in
        match probed with
        | Raise e => Raise e
        | Ok heights =>
            Ok {| m_kind := Video;
                  m_title := title;
                  m_availableHeights := heights;
                  m_defaultHeight := head heights;
                  m_canAudio := true;
                  m_thumbnail := thumb;
                  m_entries := None |}
        end
      else
        let entries := list_entries 1 (default [] (i_entries vi)) in
        let probed :=
          match entries with
          | first :: _ => _probe_video_heights (l_url first)
          | [] => Ok []
          end in
        match probed with
        | Raise e => Raise e
        | Ok heights =>
            Ok {| m_kind := Playlist;
                  m_title := title;
                  m_availableHeights := heights;
                  m_defaultHeight := head heights;
                  m_canAudio := true;
                  m_thumbnail := thumb;
                  m_entries := Some entries |}
        end
  end.
End WithLibrary.

End Probe.

(** ** The HTTP handlers of [app.py] *)

Module App.

(** The JSON documents the handlers answer with. *)
Inductive body :=
| JError (msg : string)        (* an object with the key [error] *)
| JOk                          (* an object with the key [ok], true *)
| JJobId (job_id : string)     (* an object with the key [jobId] *)
| JJob (j : job)               (* a job record *)
| JMeta (m : Probe.meta).      (* a result of the probe *)

(** A response: its document and its status code. *)
Definition response : Type := body * Z.

(** The body of [POST /api/jobs], as the page sends it: each field has the
    type it has there, or is absent.  A body that is not JSON, or is empty,
    is the request without any field. *)
Record job_request := {
  q_url : option string;
  q_mediaType : option string;
  q_videoHeight : option Z;
  q_audioBitrate : option string;
  q_selectedUrls : option (list string);
  q_outputDir : option string
}.

(** [s.strip()] *)
Definition str_strip (s : string) : string := str (strip (chars s)).

(** [api_probe]; [url] is the field of that name in the body, when there
    is one.  An exception that is raised is one that no clause catches. *)
Definition api_probe (lib : Probe.Library) (url : option string) : result response :=
  let url := str_strip (default EmptyString url) in
  if String.eqb url EmptyString then Ok (JError "Missing url", 400)
  else
    match Probe.probe_url_meta lib url with
    | Ok meta => Ok (JMeta meta, 200)
    | Raise (DownloadError _) =>
        Ok (JError "Probe failed: video/playlist unavailable or requires login (try cookies.txt).",
            404)
    | Raise (PyException e) => Ok (JError ("Probe failed: " +:+ e), 400)
    | Raise (KeyboardInterrupt m) => Raise (KeyboardInterrupt m)
    end.

(** [api_create_job]; [job_id] and [now] are those of [create_job]. *)
Definition api_create_job (env : Env) (job_id : string) (now : Z)
    (data : job_request) (JOBS : registry) : result (response * registry) :=
  let url := str_strip (default EmptyString (q_url data)) in
  let media_type := q_mediaType data in
  let video_height := q_videoHeight data in
  let audio_bitrate := q_audioBitrate data in
  let selected_urls := default [] (q_selectedUrls data) in
  let output_dir :=
    match q_outputDir data with
    | Some (String _ _ as d) => Some d
    | _ => None
    end in
  match media_type with
  | Some mt =>
      if String.eqb url EmptyString || negb (String.eqb mt "video" || String.eqb mt "audio")
      then Ok ((JError "Invalid payload", 400), JOBS)
      else
        match create_job env job_id now url mt video_height audio_bitrate
                (Some selected_urls) output_dir JOBS with
        | Ok (id, JOBS') => Ok ((JJobId id, 200), JOBS')
        | Raise e => Raise e
        end
  | None => Ok ((JError "Invalid payload", 400), JOBS)
  end.

(** [api_job_status] *)
Definition api_job_status (job_id : string) (JOBS : registry) : response :=
  match get_job job_id JOBS with
  | Some j => if no_job (Some j) then (JError "Not found", 404) else (JJob j, 200)
  | None => (JError "Not found", 404)
  end.

(** [api_cancel_job] *)
Definition api_cancel_job (job_id : string) (JOBS : registry) : response * registry :=
  match cancel_job job_id JOBS with
  | (true, JOBS') => ((JOk, 200), JOBS')
  | (false, JOBS') => ((JError "Not found", 404), JOBS')
  end.

(** The line feed *)
Definition LF : string := String (ascii_of_nat 10) EmptyString.

(** The events of the push stream *)
Definition error_event : string := "event: error" +:+ LF +:+ "data: {}" +:+ LF +:+ LF.
Definition data_event (payload : string) : string := "data: " +:+ payload +:+ LF +:+ LF.

(** How the generator of a stream stands: it has ended (by [break]), it has
    raised, or it waits for its next turn with the payload it sent last. *)
Inductive stream_state :=
| Closed
| Failed (e : exn)
| Polling (last_payload : option string).

Section Stream.
(** [json.dumps(job, ensure_ascii=False)] *)
Context (dumps : job → string).

(** One turn of the loop of [api_stream], on the registry as it is at that
    turn: what is sent, and how the generator stands afterwards. *)
Definition stream_turn (job_id : string) (last_payload : option string)
    (JOBS : registry) : list string * stream_state :=
  match get_job job_id JOBS with
  | Some j =>
      if no_job (Some j) then ([error_event], Closed)
      else
        let payload := dumps j in
        let changed :=
          match last_payload with
          | Some p => negb (String.eqb payload p)
          | None => true
          end in
        let sent := if changed then [data_event payload] else [] in
        let last_payload := if changed then Some payload else last_payload in
        match j !! "status" with
        | Some st =>
            if is_str (Some st) "done" || is_str (Some st) "error"
               || is_str (Some st) "canceled"
            then (sent, Closed)
            else (sent, Polling last_payload)
        | None => (sent, Failed (PyException "'status'"))
        end
  | None => ([error_event], Closed)
  end.

(** The generator run over the registries it finds at its successive
    turns; each turn is taken to see one state of the registry (no other
    thread writes between the statements of a turn). *)
Fixpoint stream_from (job_id : string) (st : stream_state) (turns : list registry)
  : list string * stream_state :=
  match turns with
  | [] => ([], st)
  | JOBS :: rest =>
      match st with
      | Polling last_payload =>
          let '(sent, st') := stream_turn job_id last_payload JOBS in
          let '(later, st'') := stream_from job_id st' rest in
          (sent ++ later, st'')
      | _ => ([], st)
      end
  end.

(** [api_stream(job_id)] *)
Definition api_stream (job_id : string) (turns : list registry)
  : list string * stream_state :=
  stream_from job_id (Polling None) turns.
End Stream.

End App.


(** * Properties *)

(** ** Text *)

Lemma chars_str (l : list ascii) : chars (str l) = l.
Proof. apply list_ascii_of_string_of_list_ascii. Qed.

Lemma str_chars (s : string) : str (chars s) = s.
Proof. apply string_of_list_ascii_of_string. Qed.

Lemma chars_app (s t : string) : chars (s +:+ t) = chars s ++ chars t.
Proof.
  unfold chars. induction s as [|c s IH]; simpl; [reflexivity | now rewrite IH].
Qed.

Lemma chars_inj (s t : string) : chars s = chars t → s = t.
Proof. intros H. rewrite <- (str_chars s), <- (str_chars t). now rewrite H. Qed.

(** ** Format selection *)

(** C10: for an audio job the format string is the constant
    [bestaudio/best], whatever height is requested. *)
Theorem format_string_audio_ignores_height (h : option Z) :
  _format_string "audio" h = "bestaudio/best".
Proof. reflexivity. Qed.
(** ** Folder names *)

Lemma sub_reserved_clean (b : bool) (s : list ascii) (c : ascii) :
  In c (sub_reserved b s) → is_reserved c = false.
Proof.
  revert b. induction s as [|a s IH]; intros b; simpl; [tauto|].
  destruct (is_reserved a) eqn:Ha.
  - destruct b; simpl; [apply IH|].
    intros [<-|H]; [reflexivity | eapply IH, H].
  - simpl. intros [<-|H]; [exact Ha | eapply IH, H].
Qed.

Lemma sub_reserved_id (b : bool) (s : list ascii) :
  forallb (λ c, negb (is_reserved c)) s = true → sub_reserved b s = s.
Proof.
  revert b. induction s as [|a s IH]; intros b; simpl; [reflexivity|].
  intros [Ha Hs]%andb_true_iff. apply negb_true_iff in Ha. rewrite Ha.
  f_equal. apply IH, Hs.
Qed.

Lemma drop_prefix_app (p s r : list ascii) :
  drop_prefix p s = Some r → s = p ++ r.
Proof.
  revert s. induction p as [|a p IH]; intros [|b s]; simpl; try congruence.
  destruct (Ascii.eqb a b) eqn:E; [|congruence].
  apply Ascii.eqb_eq in E as ->. intros H. f_equal. apply IH, H.
Qed.

Lemma drop_token_app (toks : list (list ascii)) (s r : list ascii) :
  drop_token toks s = Some r → ∃ t, In t toks ∧ s = t ++ r.
Proof.
  induction toks as [|t toks IH]; simpl; [congruence|].
  destruct (drop_prefix t s) eqn:E.
  - intros [= ->]. exists t. split; [now left | now apply drop_prefix_app].
  - intros H. destruct (IH H) as (t' & Hin & ->). exists t'. split; [now right | reflexivity].
Qed.

Lemma lstrip_tokens_incl (toks : list (list ascii)) (fuel : nat) (s : list ascii) (c : ascii) :
  In c (lstrip_tokens toks fuel s) → In c s.
Proof.
  revert s. induction fuel as [|fuel IH]; intros s; simpl; [tauto|].
  destruct (drop_token toks s) eqn:E; [|tauto].
  apply drop_token_app in E as (t & _ & ->).
  intros H. apply in_or_app. right. apply IH, H.
Qed.

Lemma strip_incl (s : list ascii) (c : ascii) : In c (strip s) → In c s.
Proof.
  unfold strip, rstrip, lstrip. intros H.
  apply in_rev, lstrip_tokens_incl, in_rev in H.
  eapply lstrip_tokens_incl, H.
Qed.

(** A string of white space only: a sequence of white-space characters. *)
Definition whitespace_only (s : string) : Prop :=
  ∃ toks, Forall (λ t, In t whitespace) toks ∧ chars s = concat toks.

Lemma whitespace_not_reserved (t : list ascii) :
  In t whitespace → forallb (λ c, negb (is_reserved c)) t = true.
Proof.
  intros H.
  assert (Hall : forallb (λ t, forallb (λ c, negb (is_reserved c)) t) whitespace = true)
    by reflexivity.
  rewrite forallb_forall in Hall. apply Hall, H.
Qed.

Lemma whitespace_nonempty (t : list ascii) : In t whitespace → t ≠ [].
Proof.
  intros H ->. revert H. unfold whitespace. simpl.
  intuition discriminate.
Qed.

Lemma drop_token_whitespace (t r : list ascii) :
  In t whitespace → drop_token whitespace (t ++ r) = Some r.
Proof.
  unfold whitespace. simpl.
  intros H. repeat (destruct H as [<-|H]; [reflexivity|]). destruct H.
Qed.

Lemma lstrip_tokens_whitespace (toks : list (list ascii)) (fuel : nat) :
  Forall (λ t, In t whitespace) toks → (length toks ≤ fuel)%nat →
  lstrip_tokens whitespace fuel (concat toks) = [].
Proof.
  revert toks. induction fuel as [|fuel IH]; intros toks Hall Hlen.
  - destruct toks; [reflexivity | simpl in Hlen; lia].
  - destruct toks as [|t toks]; [reflexivity|].
    inversion Hall as [|? ? Ht Hts]; subst.
    cbn [concat lstrip_tokens]. rewrite drop_token_whitespace by assumption.
    apply IH; [assumption | simpl in Hlen; lia].
Qed.

Lemma concat_length_ge (toks : list (list ascii)) :
  Forall (λ t, In t whitespace) toks → (length toks ≤ length (concat toks))%nat.
Proof.
  induction 1 as [|t toks Ht _ IH]; simpl; [lia|].
  rewrite length_app. apply whitespace_nonempty in Ht.
  destruct t; [congruence | simpl; lia].
Qed.

Lemma str_or_nonempty (a b : string) : b ≠ EmptyString → str_or a b ≠ EmptyString.
Proof. destruct a; simpl; [tauto | discriminate]. Qed.

(** *** Leading tokens *)

Section Tokens.
Context (toks : list (list ascii)).
Hypothesis toks_nonempty : ∀ t, In t toks → t ≠ [].

Lemma drop_prefix_self (t x : list ascii) : drop_prefix t (t ++ x) = Some x.
Proof.
  induction t as [|a t IH]; cbn; [reflexivity|]. now rewrite Ascii.eqb_refl.
Qed.

Lemma drop_token_nil : drop_token toks [] = None.
Proof.
  clear -toks_nonempty. induction toks as [|t ts IH]; [reflexivity|]. cbn.
  destruct t as [|a t]; [now destruct (toks_nonempty [] (or_introl eq_refl))|].
  cbn. apply IH. intros t' Ht'. apply toks_nonempty. now right.
Qed.

Lemma drop_token_starts (t x : list ascii) :
  In t toks → is_Some (drop_token toks (t ++ x)).
Proof.
  clear toks_nonempty. induction toks as [|t' ts IH]; [intros []|].
  intros [-> | Hin]; cbn.
  - rewrite drop_prefix_self. eauto.
  - destruct (drop_prefix t' (t ++ x)); [eauto | now apply IH].
Qed.

(** A text that does not start with a token. *)
Definition unled (s : list ascii) : Prop := drop_token toks s = None.

Lemma lstrip_tokens_suffix (fuel : nat) (s : list ascii) :
  ∃ pre, s = pre ++ lstrip_tokens toks fuel s.
Proof.
  revert s. induction fuel as [|fuel IH]; intros s; cbn; [now exists []|].
  destruct (drop_token toks s) as [r|] eqn:E; [|now exists []].
  apply drop_token_app in E as (t & _ & ->).
  destruct (IH r) as [pre Hpre]. exists (t ++ pre). rewrite <- app_assoc. now f_equal.
Qed.

Lemma lstrip_tokens_unled (fuel : nat) (s : list ascii) :
  (length s ≤ fuel)%nat → unled (lstrip_tokens toks fuel s).
Proof.
  revert s. induction fuel as [|fuel IH]; intros s Hlen; cbn.
  - destruct s; [apply drop_token_nil | cbn in Hlen; lia].
  - destruct (drop_token toks s) as [r|] eqn:E; [|exact E].
    apply drop_token_app in E as (t & Ht & ->). apply IH.
    apply toks_nonempty in Ht. rewrite length_app in Hlen.
    destruct t; [congruence | cbn in Hlen; lia].
Qed.

Lemma lstrip_tokens_id (fuel : nat) (s : list ascii) :
  unled s → lstrip_tokens toks fuel s = s.
Proof. unfold unled. intros H. destruct fuel; cbn; [reflexivity | now rewrite H]. Qed.

Lemma unled_prefix (p q : list ascii) : unled (p ++ q) → unled p.
Proof.
  unfold unled. intros H. destruct (drop_token toks p) as [r|] eqn:E; [|reflexivity].
  apply drop_token_app in E as (t & Ht & ->).
  destruct (drop_token_starts t (r ++ q) Ht) as [x Hx].
  rewrite <- app_assoc in H. congruence.
Qed.
End Tokens.

Lemma rev_whitespace_nonempty (t : list ascii) :
  In t (map (@rev ascii) whitespace) → t ≠ [].
Proof.
  intros (u & <- & Hu)%in_map_iff Hnil.
  apply whitespace_nonempty in Hu. apply Hu.
  apply (f_equal (@rev ascii)) in Hnil. now rewrite rev_involutive in Hnil.
Qed.

(** *** The name the specification describes

    The two relations below follow the words of the specification, not the
    code; [safe_folder] is compared with them. *)

(** A text that does not start with a reserved character. *)
Definition unreserved_head (s : list ascii) : Prop :=
  ∀ x r, s = x :: r → is_reserved x = false.

(** [replaced s t]: the text [t] is [s] read from left to right, every
    character that is not reserved kept as it is and in its place, and every
    maximal run of reserved characters (a reserved character, the reserved
    characters after it, up to a character that is not reserved or to the end)
    replaced by one underscore. *)
Inductive replaced : list ascii → list ascii → Prop :=
| replaced_nil : replaced [] []
| replaced_keep (c : ascii) (s t : list ascii) :
    is_reserved c = false → replaced s t → replaced (c :: s) (c :: t)
| replaced_run (c : ascii) (run s t : list ascii) :
    is_reserved c = true → Forall (λ x, is_reserved x = true) run →
    unreserved_head s → replaced s t →
    replaced (c :: run ++ s) ("_"%char :: t).

(** A sequence of white-space characters. *)
Definition white (s : list ascii) : Prop :=
  ∃ toks, Forall (λ t, In t whitespace) toks ∧ s = concat toks.

(** [stripped t u]: the text [u] is [t] without the white space at its two
    ends: [t] is [u] between two sequences of white-space characters, and [u]
    neither starts nor ends with a white-space character. *)
Definition stripped (t u : list ascii) : Prop :=
  ∃ pre post, t = pre ++ u ++ post ∧ white pre ∧ white post ∧
    (∀ w r, In w whitespace → u ≠ w ++ r) ∧
    (∀ w r, In w whitespace → u ≠ r ++ w).

(** *** Runs of reserved characters *)

Lemma sub_reserved_run (run s : list ascii) :
  Forall (λ x, is_reserved x = true) run →
  sub_reserved true (run ++ s) = sub_reserved true s.
Proof.
  induction 1 as [|x run Hx _ IH]; [reflexivity|].
  cbn [app sub_reserved]. now rewrite Hx.
Qed.

Lemma sub_reserved_head (s : list ascii) :
  unreserved_head s → sub_reserved true s = sub_reserved false s.
Proof.
  destruct s as [|x r]; [reflexivity|]. intros H.
  cbn [sub_reserved]. now rewrite (H x r eq_refl).
Qed.

(** The scanner computes the replacement of the runs, and nothing else is
    one. *)
Lemma replaced_sub_reserved (s : list ascii) :
  replaced s (sub_reserved false s) ∧
  ∃ run rest, s = run ++ rest ∧ Forall (λ x, is_reserved x = true) run ∧
    unreserved_head rest ∧ replaced rest (sub_reserved true s).
Proof.
  induction s as [|c s (IH & run & rest & Hs & Hrun & Hrest & Hrep)].
  - split; [constructor|]. exists [], []. repeat split; try constructor.
    intros x r [=].
  - cbn [sub_reserved]. destruct (is_reserved c) eqn:Hc.
    + split.
      * subst s. now apply replaced_run.
      * exists (c :: run), rest. subst s. repeat split; try assumption.
        now constructor.
    + assert (Hk : replaced (c :: s) (c :: sub_reserved false s))
        by now apply replaced_keep.
      split; [exact Hk|]. exists [], (c :: s). repeat split; try assumption.
      * constructor.
      * now intros x r [= <- <-].
Qed.

Lemma replaced_fun (s t : list ascii) :
  replaced s t → t = sub_reserved false s.
Proof.
  induction 1 as [|c s t Hc _ IH|c run s t Hc Hrun Hs _ IH]; cbn [sub_reserved].
  - reflexivity.
  - now rewrite Hc, IH.
  - now rewrite Hc, sub_reserved_run, sub_reserved_head, IH.
Qed.

(** *** White space at the two ends *)

Lemma lstrip_tokens_split (toks : list (list ascii)) (fuel : nat) (s : list ascii) :
  ∃ ws, Forall (λ t, In t toks) ws ∧ s = concat ws ++ lstrip_tokens toks fuel s.
Proof.
  revert s. induction fuel as [|fuel IH]; intros s; cbn [lstrip_tokens].
  - now exists [].
  - destruct (drop_token toks s) as [r|] eqn:E; [|now exists []].
    apply drop_token_app in E as (t & Ht & ->).
    destruct (IH r) as (ws & Hws & Hr). exists (t :: ws). split.
    + now constructor.
    + cbn [concat]. rewrite <- app_assoc. now f_equal.
Qed.

Lemma lstrip_tokens_drop (toks : list (list ascii)) (ws : list (list ascii))
    (fuel : nat) (x : list ascii) :
  (∀ t r, In t toks → drop_token toks (t ++ r) = Some r) →
  Forall (λ t, In t toks) ws → (length ws ≤ fuel)%nat → unled toks x →
  lstrip_tokens toks fuel (concat ws ++ x) = x.
Proof.
  intros Hdrop Hws. revert fuel.
  induction Hws as [|t ws Ht _ IH]; intros fuel Hlen Hx.
  - now apply lstrip_tokens_id.
  - destruct fuel as [|fuel]; [cbn in Hlen; lia|].
    cbn [concat lstrip_tokens]. rewrite <- app_assoc, Hdrop by assumption.
    apply IH; [cbn in Hlen; lia | assumption].
Qed.

Lemma drop_token_rev_whitespace (t r : list ascii) :
  In t (map (@rev ascii) whitespace) →
  drop_token (map (@rev ascii) whitespace) (t ++ r) = Some r.
Proof.
  unfold whitespace. simpl.
  intros H. repeat (destruct H as [<-|H]; [reflexivity|]). destruct H.
Qed.

Lemma rev_concat (ws : list (list ascii)) :
  rev (concat ws) = concat (map (@rev ascii) (rev ws)).
Proof.
  induction ws as [|t ws IH]; [reflexivity|].
  cbn [concat rev]. rewrite rev_app_distr, IH, map_app, concat_app.
  cbn [map concat]. now rewrite app_nil_r.
Qed.

Lemma white_rev (ws : list (list ascii)) :
  Forall (λ t, In t (map (@rev ascii) whitespace)) ws →
  white (rev (concat ws)).
Proof.
  intros Hws. exists (map (@rev ascii) (rev ws)). split; [|apply rev_concat].
  apply List.Forall_forall. intros t (u & <- & Hu%in_rev)%in_map_iff.
  rewrite List.Forall_forall in Hws.
  apply Hws in Hu as (v & <- & Hv)%in_map_iff. now rewrite rev_involutive.
Qed.

Lemma unled_starts (toks : list (list ascii)) (u : list ascii) :
  unled toks u ↔ ∀ w r, In w toks → u ≠ w ++ r.
Proof.
  unfold unled. split.
  - intros Hu w r Hw ->. destruct (drop_token_starts toks w r Hw) as [x Hx].
    congruence.
  - intros H. destruct (drop_token toks u) as [r|] eqn:E; [|reflexivity].
    apply drop_token_app in E as (t & Ht & ->). now destruct (H t r Ht).
Qed.

(** [strip] gives the text between the white space at the two ends. *)
Lemma strip_stripped (t : list ascii) : stripped t (strip t).
Proof.
  unfold strip.
  destruct (lstrip_tokens_split whitespace (length t) t) as (ws & Hws & Ht).
  fold (lstrip t) in Ht. set (a := lstrip t) in *.
  assert (Ha : unled whitespace a).
  { subst a. unfold lstrip. now apply lstrip_tokens_unled; [apply whitespace_nonempty|]. }
  unfold rstrip.
  destruct (lstrip_tokens_split (map (@rev ascii) whitespace) (length a) (rev a))
    as (ws' & Hws' & Hra).
  set (c := lstrip_tokens (map (@rev ascii) whitespace) (length a) (rev a)) in *.
  assert (Hc : unled (map (@rev ascii) whitespace) c).
  { subst c. apply lstrip_tokens_unled; [apply rev_whitespace_nonempty|].
    now rewrite length_rev. }
  assert (Hac : a = rev c ++ rev (concat ws')).
  { now rewrite <- rev_app_distr, <- Hra, rev_involutive. }
  exists (concat ws), (rev (concat ws')). split; [|split; [|split; [|split]]].
  - now rewrite <- Hac.
  - now exists ws.
  - now apply white_rev.
  - apply unled_starts. apply (unled_prefix whitespace (rev c) (rev (concat ws'))).
    now rewrite <- Hac.
  - intros w r Hw Hrc. apply (f_equal (@rev ascii)) in Hrc.
    rewrite rev_involutive, rev_app_distr in Hrc.
    apply (proj1 (unled_starts _ _) Hc (rev w) (rev r)); [|exact Hrc].
    now apply in_map.
Qed.

(** The first byte of a white-space character is not a later byte of one. *)
Definition is_lead (x : ascii) : bool :=
  existsb (λ t, match t with y :: _ => Ascii.eqb x y | [] => false end) whitespace.

Lemma white_lead (x : ascii) (p : list ascii) : white (x :: p) → is_lead x = true.
Proof.
  intros (ws & Hws & Hp). induction Hws as [|t ws Ht _ IH]; [discriminate|].
  destruct t as [|y t]; [now destruct (whitespace_nonempty [] Ht)|].
  cbn in Hp. injection Hp as <- _.
  apply existsb_exists. exists (x :: t). split; [exact Ht | apply Ascii.eqb_refl].
Qed.

Lemma whitespace_tail (t : list ascii) (x : ascii) :
  In t whitespace → In x (tl t) → is_lead x = false.
Proof.
  intros Ht Hx.
  assert (Hall : forallb (λ t, forallb (λ x, negb (is_lead x)) (tl t)) whitespace = true)
    by reflexivity.
  rewrite forallb_forall in Hall. apply Hall in Ht.
  rewrite forallb_forall in Ht. now apply negb_true_iff, Ht.
Qed.

Lemma unled_white (u post : list ascii) :
  u ≠ [] → unled whitespace u → white post → unled whitespace (u ++ post).
Proof.
  intros Hne Hu Hpost. apply unled_starts. intros w r Hw E.
  apply app_eq_app in E as (l & [[-> ->] | [-> Hp]]).
  - now apply (proj1 (unled_starts _ _) Hu w l).
  - destruct l as [|x l].
    + rewrite app_nil_r in Hw.
      apply (proj1 (unled_starts _ _) Hu u []); [exact Hw | now rewrite app_nil_r].
    + rewrite Hp in Hpost. apply white_lead in Hpost.
      destruct u as [|y u]; [congruence|].
      rewrite (whitespace_tail _ x Hw) in Hpost; [discriminate|].
      cbn. apply in_or_app. right. now left.
Qed.

Lemma stripped_fun (t u : list ascii) : stripped t u → u = strip t.
Proof.
  intros (pre & post & -> & (ws & Hws & ->) & Hpost & Hl & Hr).
  destruct u as [|y u].
  - destruct Hpost as (ws' & Hws' & ->). cbn [app].
    rewrite <- concat_app. unfold strip, lstrip.
    rewrite lstrip_tokens_whitespace; [reflexivity | now apply Forall_app |].
    apply concat_length_ge. now apply Forall_app.
  - set (v := y :: u) in *.
    assert (Hv : unled whitespace v) by now apply unled_starts.
    unfold strip, lstrip.
    rewrite lstrip_tokens_drop.
    + destruct Hpost as (ws' & Hws' & ->). unfold rstrip.
      rewrite rev_app_distr, rev_concat, lstrip_tokens_drop.
      * now rewrite rev_involutive.
      * apply drop_token_rev_whitespace.
      * apply List.Forall_forall. intros t (w & <- & Hw%in_rev)%in_map_iff.
        rewrite List.Forall_forall in Hws'. now apply in_map, Hws'.
      * rewrite length_map, length_rev, length_app.
        pose proof (concat_length_ge ws' Hws'). lia.
      * apply unled_starts. intros w r (w' & <- & Hw')%in_map_iff E.
        apply (f_equal (@rev ascii)) in E.
        rewrite rev_involutive, rev_app_distr, rev_involutive in E.
        exact (Hr w' (rev r) Hw' E).
    + intros w r Hw. now apply drop_token_whitespace.
    + exact Hws.
    + rewrite length_app. pose proof (concat_length_ge ws Hws). lia.
    + now apply unled_white.
Qed.

(** C6: [safe_folder] replaces every reserved character and keeps the rest
    of the name: the name it returns is the given one with each maximal run of
    reserved characters replaced by one underscore, every other character kept
    in its place, and the white space at the two ends taken away; when nothing
    is left of it, the placeholder [Untitled].  There is one such text, so the
    result is this one and no other.  The name returned is therefore never
    empty and holds no reserved character, and for an empty or
    white-space-only name it is the placeholder. *)
Theorem safe_folder_spec (name : string) :
  safe_folder name ≠ EmptyString ∧
  (∀ c, In c (chars (safe_folder name)) → is_reserved c = false) ∧
  (whitespace_only name → safe_folder name = "Untitled") ∧
  ∃ t u,
    replaced (chars name) t ∧ stripped t u ∧
    (u = [] → safe_folder name = "Untitled") ∧
    (u ≠ [] → safe_folder name = str u) ∧
    ∀ t' u', replaced (chars name) t' → stripped t' u' → u' = u.
Proof.
  unfold safe_folder. split; [|split; [|split]].
  - apply str_or_nonempty. discriminate.
  - intros c. destruct (str (strip (sub_reserved false (chars name)))) eqn:E.
    + simpl. intros H.
      assert (Hall : forallb (λ c, negb (is_reserved c)) (chars "Untitled") = true)
        by reflexivity.
      rewrite forallb_forall in Hall. apply negb_true_iff, Hall, H.
    + cbn [str_or]. rewrite <- E, chars_str. intros H.
      eapply sub_reserved_clean, strip_incl, H.
  - intros (toks & Hall & Hs). rewrite Hs.
    rewrite sub_reserved_id.
    + unfold strip, lstrip.
      rewrite lstrip_tokens_whitespace; [reflexivity | assumption |].
      now apply concat_length_ge.
    + clear Hs. induction Hall as [|t toks Ht _ IH]; [reflexivity|].
      simpl. rewrite forallb_app, IH, whitespace_not_reserved by assumption. reflexivity.
  - exists (sub_reserved false (chars name)), (strip (sub_reserved false (chars name))).
    split; [apply replaced_sub_reserved|]. split; [apply strip_stripped|].
    split; [|split].
    + now intros ->.
    + intros Hu. destruct (strip (sub_reserved false (chars name))); [congruence|].
      reflexivity.
    + intros t' u' Ht' Hu'. apply replaced_fun in Ht' as ->.
      now apply stripped_fun in Hu'.
Qed.

Lemma safe_folder_spec_witness :
  replaced (chars " Mix: Best/Of?? ") (chars " Mix_ Best_Of_ ") ∧
  stripped (chars " Mix_ Best_Of_ ") (chars "Mix_ Best_Of_") ∧
  safe_folder " Mix: Best/Of?? " = "Mix_ Best_Of_".
Proof.
  assert (Hr : replaced (chars " Mix: Best/Of?? ") (chars " Mix_ Best_Of_ ")).
  { cbn [chars list_ascii_of_string].
    do 4 (apply replaced_keep; [reflexivity|]).
    apply (replaced_run ":" []); [reflexivity | constructor | now intros x r [= <- <-] |].
    do 5 (apply replaced_keep; [reflexivity|]).
    apply (replaced_run "/" []); [reflexivity | constructor | now intros x r [= <- <-] |].
    do 2 (apply replaced_keep; [reflexivity|]).
    apply (replaced_run "?" ["?"%char]);
      [reflexivity | now repeat constructor | now intros x r [= <- <-] |].
    apply replaced_keep; [reflexivity|]. constructor. }
  assert (Hw : white [" "%char]).
  { exists [[" "%char]]. split; [|reflexivity].
    constructor; [|constructor]. unfold whitespace. simpl. tauto. }
  assert (Hs : stripped (chars " Mix_ Best_Of_ ") (chars "Mix_ Best_Of_")).
  { exists [" "%char], [" "%char]. split; [reflexivity|]. split; [exact Hw|].
    split; [exact Hw|]. split.
    - intros w r Hin E. revert Hin. unfold whitespace. cbn [map].
      cbn [chars list_ascii_of_string] in E.
      intros Hin. repeat (destruct Hin as [<-|Hin]; [discriminate E|]). destruct Hin.
    - intros w r Hin E. apply (f_equal (@rev ascii)) in E.
      rewrite rev_app_distr in E. revert Hin E. unfold whitespace. cbn.
      intros Hin. repeat (destruct Hin as [<-|Hin]; [discriminate|]). destruct Hin. }
  split; [exact Hr|]. split; [exact Hs|].
  destruct (safe_folder_spec " Mix: Best/Of?? ")
    as (_ & _ & _ & t & u & _ & _ & _ & Hsf & Huniq).
  rewrite <- (Huniq _ _ Hr Hs) in Hsf. apply Hsf. discriminate.
Defined.

(** ** Path resolution *)

Lemma starts_with_app (p s : list ascii) : starts_with p (p ++ s) = true.
Proof.
  induction p as [|a p IH]; simpl; [reflexivity|].
  now rewrite Ascii.eqb_refl, IH.
Qed.

(** A relative second argument is appended to the first one. *)
Lemma join_relative (a b : string) :
  Path.isabs b = false → starts_with (chars a) (chars (Path.join a b)) = true.
Proof.
  unfold Path.isabs, Path.join. intros ->.
  destruct (_ || _)%bool; rewrite chars_app; apply starts_with_app.
Qed.

(** A path that does not start with a tilde is left as it is. *)
Lemma expanduser_absolute (h : string → option string) (p : string) :
  Path.isabs p = true → Path.expanduser h p = p.
Proof.
  unfold Path.isabs, Path.expanduser.
  destruct (chars p) as [|c r]; [reflexivity|]. cbn [starts_with].
  rewrite andb_true_r. intros H%Ascii.eqb_eq. subst c. reflexivity.
Qed.

(** The environment of the examples: the application lives in [/srv/app],
    the user's home is [/home/u], and every directory can be made. *)
Definition env_ex : Env :=
  {| BASE_DIR := "/srv/app";
     home := λ name, if String.eqb name EmptyString then Some "/home/u" else None;
     makedirs_error := λ _, None |}.

(** The same on a file system on which no directory can be made. *)
Definition env_readonly : Env :=
  {| BASE_DIR := "/srv/app";
     home := home env_ex;
     makedirs_error := λ p, Some ("[Errno 30] Read-only file system: '" +:+ p +:+ "'") |}.

(** C9, as stated, fails: the directory string [~/Music] is relative, yet the
    root it resolves to is the user's home directory and not a directory
    under the storage root; and when not even the storage root can be made,
    the error reaches the caller. *)
Lemma resolve_root_dir_counterexample :
  Path.isabs "~/Music" = false ∧
  _resolve_root_dir env_ex (Some "~/Music") "video" = Ok "/home/u/Music" ∧
  starts_with (chars (STORAGE_DIR env_ex)) (chars "/home/u/Music") = false ∧
  _resolve_root_dir env_readonly (Some "clips") "video" =
    Raise (PyException "[Errno 30] Read-only file system: '/srv/app/storage'").
Proof. repeat split; vm_compute; reflexivity. Qed.

(** C9, amended: the directory string is first expanded ([~] and [~user]);
    an absolute string is used verbatim; a string that is still relative
    after the expansion is joined to the storage root, so that the root
    starts with it; when the directory cannot be made the root silently
    becomes the storage root, and an error is raised only when the storage
    root cannot be made either. *)
Theorem resolve_root_dir_spec (env : Env) (user_dir media_type : string) :
  user_dir ≠ EmptyString →
  let expanded := Path.expanduser (home env) user_dir in
  let root := if Path.isabs expanded then expanded
              else Path.join (STORAGE_DIR env) expanded in
  (Path.isabs user_dir = true → root = user_dir) ∧
  (Path.isabs expanded = false →
     starts_with (chars (STORAGE_DIR env)) (chars root) = true) ∧
  _resolve_root_dir env (Some user_dir) media_type =
    match makedirs_error env root with
    | None => Ok root
    | Some _ =>
        match makedirs_error env (STORAGE_DIR env) with
        | None => Ok (STORAGE_DIR env)
        | Some msg => Raise (PyException msg)
        end
    end.
Proof.
  intros Hne expanded root. split; [|split].
  - intros Habs. subst root expanded.
    rewrite expanduser_absolute by assumption. now rewrite Habs.
  - intros Hrel. subst root. rewrite Hrel. now apply join_relative.
  - unfold _resolve_root_dir, os_makedirs.
    destruct user_dir as [|c r]; [congruence|].
    fold expanded. fold root.
    destruct (makedirs_error env root); [|reflexivity].
    destruct (makedirs_error env (STORAGE_DIR env)); reflexivity.
Qed.

Lemma resolve_root_dir_spec_witness :
  "clips" ≠ EmptyString ∧
  _resolve_root_dir env_ex (Some "clips") "audio" = Ok "/srv/app/storage/clips".
Proof.
  split; [discriminate|].
  exact (proj2 (proj2 (resolve_root_dir_spec env_ex "clips" "audio" ltac:(discriminate)))).
Defined.

(** ** The registry *)

(** The value under key [k] of the record registered under [job_id]. *)
Definition field (J : registry) (job_id k : string) : option pyval :=
  J !! job_id ≫= (.!! k).

Lemma set_field_lookup (job_id k : string) (v : pyval) (J : registry) :
  set_field job_id k v J !! job_id = insert k v <$> J !! job_id.
Proof. apply lookup_alter_eq. Qed.

Lemma set_field_lookup_ne (job_id id' k : string) (v : pyval) (J : registry) :
  job_id ≠ id' → set_field job_id k v J !! id' = J !! id'.
Proof. apply lookup_alter_ne. Qed.

Lemma field_set_eq (job_id k : string) (v : pyval) (J : registry) :
  is_Some (J !! job_id) → field (set_field job_id k v J) job_id k = Some v.
Proof.
  intros [j Hj]. unfold field. rewrite set_field_lookup, Hj. simpl.
  apply lookup_insert_eq.
Qed.

Lemma field_set_ne (job_id id' k k' : string) (v : pyval) (J : registry) :
  k ≠ k' → field (set_field job_id k v J) id' k' = field J id' k'.
Proof.
  intros Hk. unfold field. destruct (decide (job_id = id')) as [<-|Hid].
  - rewrite set_field_lookup. destruct (J !! job_id); simpl; [|reflexivity].
    now apply lookup_insert_ne.
  - now rewrite set_field_lookup_ne.
Qed.

Lemma set_field_is_Some (job_id id' k : string) (v : pyval) (J : registry) :
  is_Some (set_field job_id k v J !! id') ↔ is_Some (J !! id').
Proof.
  destruct (decide (job_id = id')) as [<-|Hid].
  - rewrite set_field_lookup. apply fmap_is_Some.
  - now rewrite set_field_lookup_ne.
Qed.

Lemma lookup_default {A} (o : option A) (d : A) :
  match o with Some _ => true | None => false end = true →
  o = Some (default d o).
Proof. destruct o; [reflexivity | discriminate]. Qed.

(** The status of a record is one of the final ones. *)
Definition terminal (j : job) : bool :=
  is_str (j !! "status") "done" || is_str (j !! "status") "error" ||
  is_str (j !! "status") "canceled".

Lemma no_job_false (j : job) (k : string) :
  is_Some (j !! k) → no_job (Some j) = false.
Proof.
  intros [v Hv]. unfold no_job. apply Nat.eqb_neq.
  eapply map_size_ne_0_lookup_2. rewrite Hv. eauto.
Qed.

(** The extraction library of the examples: the URL is a single video, the
    download reports its progress once (half of 2 MiB at 1 MiB/s, 1 s to go)
    and succeeds. *)
Definition halfway : progress :=
  {| p_status := Some "downloading";
     p_total_bytes := Some (NInt 2097152);
     p_total_bytes_estimate := None;
     p_downloaded_bytes := Some (NInt 1048576);
     p_speed := Some (NInt 1048576);
     p_speed_str := None;
     p_eta := Some (NInt 1);
     p_eta_str := None;
     p_filename := None |}.

Definition world_video : World :=
  {| w_probe := λ _, Ok (Some {| i_title := Some "Clip"; i_has_entries := false |});
     w_info := λ _ _, Ok (Some {| i_title := Some "Clip"; i_has_entries := false |});
     w_download := λ _ _ _, {| a_actions := [Progress halfway]; a_outcome := Ok tt |} |}.

(** The registry after [create_job] for a video. *)
Definition jobs_created : registry :=
  match create_job env_ex "0123456789ab" 1700000000 "https://example/video1"
          "video" None None None None ∅ with
  | Ok (_, J) => J
  | Raise _ => ∅
  end.

(** The registry once the worker of that job has run. *)
Definition jobs_done : registry :=
  JOBS (fst (run_worker env_ex world_video "0123456789ab" jobs_created)).

(** C1, as stated, fails: the job below is [done] with the message
    [Completed]; a cancellation request leaves its status alone but replaces
    the message and sets the cancellation flag. *)
Lemma cancel_job_terminal_counterexample :
  field jobs_done "0123456789ab" "status" = Some (PStr "done") ∧
  field jobs_done "0123456789ab" "message" = Some (PStr "Completed") ∧
  field jobs_done "0123456789ab" "_cancel" = Some (PBool false) ∧
  let J' := snd (cancel_job "0123456789ab" jobs_done) in
  field J' "0123456789ab" "status" = Some (PStr "done") ∧
  field J' "0123456789ab" "message" = Some (PStr "Cancel requested…") ∧
  field J' "0123456789ab" "_cancel" = Some (PBool true).
Proof. repeat split; vm_compute; reflexivity. Qed.

(** C1, amended: a cancellation request on a job whose status is final
    reports success and changes neither the status nor any other key of the
    record, except that it sets [_cancel] to [True] and [message] to
    [Cancel requested…]; the other records are untouched. *)
Theorem cancel_job_terminal (job_id : string) (J : registry) (j : job) :
  J !! job_id = Some j → terminal j = true →
  ∃ J' j',
    cancel_job job_id J = (true, J') ∧
    get_job job_id J' = Some j' ∧
    j' !! "status" = j !! "status" ∧
    j' !! "_cancel" = Some (PBool true) ∧
    j' !! "message" = Some (PStr "Cancel requested…") ∧
    (∀ k, k ≠ "_cancel" → k ≠ "message" → j' !! k = j !! k) ∧
    (∀ id', id' ≠ job_id → J' !! id' = J !! id').
Proof.
  intros Hj Hterm.
  assert (Hst : is_Some (j !! "status")).
  { unfold terminal, is_str in Hterm. destruct (j !! "status"); [eauto | discriminate]. }
  unfold cancel_job. rewrite Hj, (no_job_false j "status" Hst).
  eexists _, _. split; [reflexivity|]. unfold get_job.
  split; [|split; [|split; [|split; [|split]]]].
  - rewrite set_field_lookup, set_field_lookup, Hj. reflexivity.
  - rewrite !lookup_insert_ne by discriminate. reflexivity.
  - rewrite lookup_insert_ne by discriminate. apply lookup_insert_eq.
  - apply lookup_insert_eq.
  - intros k H1 H2. rewrite !lookup_insert_ne by congruence. reflexivity.
  - intros id' Hid. rewrite !set_field_lookup_ne by congruence. reflexivity.
Qed.

Lemma cancel_job_terminal_witness :
  terminal (default ∅ (jobs_done !! "0123456789ab")) = true ∧
  fst (cancel_job "0123456789ab" jobs_done) = true.
Proof.
  assert (Hj : jobs_done !! "0123456789ab"
               = Some (default ∅ (jobs_done !! "0123456789ab")))
    by (apply lookup_default; vm_compute; reflexivity).
  assert (Ht : terminal (default ∅ (jobs_done !! "0123456789ab")) = true)
    by (vm_compute; reflexivity).
  split; [exact Ht|].
  destruct (cancel_job_terminal _ _ _ Hj Ht) as (J' & j' & -> & _).
  reflexivity.
Defined.

(** ** Invariants of monadic code *)

(** [m] keeps the property [P] of the state, whether it returns or raises. *)
Definition preserves {S A} (P : S → Prop) (m : M S A) : Prop :=
  ∀ s, P s → P (fst (m s)).

Section Preserves.
Context {S : Type} (P : S → Prop).

Lemma preserves_ret {A} (a : A) : preserves P (mret a).
Proof. intros s H. exact H. Qed.

Lemma preserves_raise {A} (e : exn) : preserves P (raise e : M S A).
Proof. intros s H. exact H. Qed.

Lemma preserves_get : preserves P get_state.
Proof. intros s H. exact H. Qed.

Lemma preserves_lift {A} (r : result A) : preserves P (lift_result r).
Proof. intros s H. exact H. Qed.

Lemma preserves_modify (f : S → S) : (∀ s, P s → P (f s)) → preserves P (modify f).
Proof. intros Hf s H. apply Hf, H. Qed.

Lemma preserves_bind {A B} (m : M S A) (f : A → M S B) :
  preserves P m → (∀ a, preserves P (f a)) → preserves P (m ≫= f).
Proof.
  intros Hm Hf s H. unfold mbind, M_bind. specialize (Hm s H).
  destruct (m s) as [s' [a|e]]; simpl in *; [apply Hf, Hm | exact Hm].
Qed.

Lemma preserves_try_except {A} (m : M S A) (h : exn → option (M S A)) :
  preserves P m → (∀ e k, h e = Some k → preserves P k) →
  preserves P (try_except m h).
Proof.
  intros Hm Hh s H. unfold try_except. specialize (Hm s H).
  destruct (m s) as [s' [a|e]]; simpl in *; [exact Hm|].
  destruct (h e) as [k|] eqn:E; [eapply Hh; eauto | exact Hm].
Qed.

Lemma preserves_try_finally {A} (m : M S A) (f : M S unit) :
  preserves P m → preserves P f → preserves P (try_finally m f).
Proof.
  intros Hm Hf s H. unfold try_finally. specialize (Hm s H).
  destruct (m s) as [s' r]; simpl in *. specialize (Hf s' Hm).
  destruct (f s') as [s'' [[]|e]]; exact Hf.
Qed.
End Preserves.


Ltac preserves_step :=
  lazymatch goal with
  | |- preserves _ (_ ≫= _) => apply preserves_bind; [|intros ?]
  | |- preserves _ (mret _) => apply preserves_ret
  | |- preserves _ (raise _) => apply preserves_raise
  | |- preserves _ get_state => apply preserves_get
  | |- preserves _ (lift_result _) => apply preserves_lift
  | |- preserves _ (if ?b then _ else _) => destruct b
  | |- preserves _ (match ?x with _ => _ end) => destruct x
  end.

(** ** The fields of a record *)


(** The keys of the record [create_job] builds, in its order. *)
Definition record_keys : list string :=
  [ "jobId"; "url"; "mediaType"; "videoHeight"; "audioBitrate"; "selectedUrls";
    "rootDir"; "finalDir"; "status"; "progress"; "percent"; "eta"; "speed";
    "message"; "_cancel"; "kind"; "title"; "currentItem"; "totalItems";
    "currentTitle"; "created" ].

















Section EngineInvariant.
Context (env : Env) (w : World).








End EngineInvariant.








(** ** The progress hook *)

Ltac run_monad :=
  unfold mbind, M_bind, mret, M_ret, get_state, modify, lift_result, raise,
    read_field, on_jobs, try_except, try_finally in *.

Ltac field_solve :=
  repeat (rewrite field_set_ne by discriminate);
  first [ rewrite field_set_eq by (rewrite ?set_field_is_Some; eauto); reflexivity
        | reflexivity ].

Lemma num_truthy_nonzero (f fd : float) :
  num_truthy (NFloat f) = true → float_div fd f = Ok (fd / f)%float.
Proof.
  unfold num_truthy, float_div. intros H%negb_true_iff. now rewrite H.
Qed.

Lemma float_div_Ok (a b q : float) : float_div a b = Ok q → q = (a / b)%float.
Proof. unfold float_div. destruct (b =? 0)%float; [discriminate | now intros [= <-]]. Qed.

(** C8: on a [downloading] event for a registered job the status becomes
    [running]; when the event carries no total (neither [total_bytes] nor
    an estimate, or zero) the progress is left as it was; when it carries
    one, the progress becomes [float(done) / float(total) * 100.0]. *)
Theorem progress_hook_downloading (job_id : string) (d : progress)
    (J : registry) (j : job) :
  J !! job_id = Some j → j ≠ ∅ → p_status d = Some "downloading" →
  let J' := fst (_progress_hook job_id d J) in
  field J' job_id "status" = Some (PStr "running") ∧
  (p_total_bytes d = None → p_total_bytes_estimate d = None →
     num_truthy (hook_total d) = false) ∧
  (num_truthy (hook_total d) = false →
     field J' job_id "progress" = field J job_id "progress") ∧
  (∀ fd ft q,
     num_truthy (hook_total d) = true →
     float_of_num (hook_done d) = Ok fd →
     float_of_num (hook_total d) = Ok ft →
     float_div fd ft = Ok q →
     field J' job_id "progress" = Some (PFloat (fd / ft * 100)%float)).
Proof.
  intros Hj Hne Hst J'.
  assert (Hsome : is_Some (J !! job_id)) by eauto.
  assert (Hno : no_job (J !! job_id) = false).
  { rewrite Hj. unfold no_job. apply Nat.eqb_neq. now apply map_size_non_empty_iff. }
  subst J'. unfold _progress_hook. run_monad. rewrite Hno.
  unfold status_is. rewrite Hst. cbn [String.eqb Ascii.eqb Bool.eqb].
  cbn match.
  split; [|split; [|split]].
  - destruct (num_truthy (hook_total d));
      repeat (match goal with
              | |- context [match ?r with Ok _ => _ | Raise _ => _ end] => destruct r
              | |- context [if truthy ?c then _ else _] => destruct (truthy c)
              end; cbn [fst snd]);
      field_solve.
  - intros H1 H2. unfold hook_total. now rewrite H1, H2.
  - intros Hfalse. rewrite Hfalse.
      repeat (match goal with
              | |- context [match ?r with Ok _ => _ | Raise _ => _ end] => destruct r
              | |- context [if truthy ?c then _ else _] => destruct (truthy c)
              end; cbn [fst snd]);
      field_solve.
  - intros fd ft q Htrue Hfd Hft Hq. rewrite Htrue, Hfd, Hft, Hq.
    rewrite (float_div_Ok _ _ _ Hq).
      repeat (match goal with
              | |- context [match ?r with Ok _ => _ | Raise _ => _ end] => destruct r
              | |- context [if truthy ?c then _ else _] => destruct (truthy c)
              end; cbn [fst snd]);
      field_solve.
Qed.

Lemma created_record :
  jobs_created !! "0123456789ab"
  = Some (default ∅ (jobs_created !! "0123456789ab")).
Proof. apply lookup_default. vm_compute. reflexivity. Qed.

Lemma created_record_nonempty :
  default (∅ : job) (jobs_created !! "0123456789ab") ≠ ∅.
Proof.
  intros H. apply (f_equal (λ m : job, match m !! "status" with
                                       | Some _ => true
                                       | None => false
                                       end)) in H.
  vm_compute in H. discriminate.
Qed.

Lemma progress_hook_downloading_witness :
  let J' := fst (_progress_hook "0123456789ab" halfway jobs_created) in
  field J' "0123456789ab" "status" = Some (PStr "running") ∧
  field J' "0123456789ab" "progress" = Some (PFloat 50).
Proof.
  destruct (progress_hook_downloading "0123456789ab" halfway jobs_created _
              created_record created_record_nonempty eq_refl)
    as (Hst & _ & _ & Hprog).
  split; [exact Hst|].
  apply (Hprog 1048576%float 2097152%float 0.5%float); vm_compute; reflexivity.
Defined.

(** ** One item: the format fallback *)

Section TryDownload.
Context (w : World).

(** A download is one call to the library, made in the state it starts in. *)
Lemma ydl_download_trace (job_id url : string) (opts : ydl_opts) (s : wstate) :
  trace (fst (ydl_download w job_id url opts s))
  = trace s ++ [(CallDownload url opts, JOBS s !! job_id)].
Proof.
  unfold ydl_download, log. run_monad. cbn.
  destruct (run_actions _ _ _) as [J' [[]|e]]; cbn; reflexivity.
Qed.

(** C7: [_try_download_one] makes one download attempt at the requested
    format.  When that attempt raises a [DownloadError] saying that the
    requested format is not available, it makes exactly one more attempt, at
    the best format of the media type, and ends as that attempt ends; in
    every other case (success or any other failure) there is no second
    attempt and it ends as the first one did. *)
Theorem try_download_one_fallback (url media_type : string) (height : option Z)
    (pp : option (list postprocessor)) (job_id wd : string) (s : wstate) :
  let requested := mk_opts (_format_string media_type height) wd pp in
  let best := mk_opts (_format_string media_type None) wd pp in
  let first := ydl_download w job_id url requested s in
  let r := _try_download_one w url media_type height pp job_id wd s in
  let one_call := [(CallDownload url requested, JOBS s !! job_id)] in
  match snd first with
  | Raise (DownloadError msg) =>
      if format_unavailable msg
      then r = ydl_download w job_id url best (fst first) ∧
           trace (fst r)
           = trace s ++ one_call ++ [(CallDownload url best, JOBS (fst first) !! job_id)]
      else r = first ∧ trace (fst r) = trace s ++ one_call
  | _ => r = first ∧ trace (fst r) = trace s ++ one_call
  end.
Proof.
  intros requested best first r one_call.
  pose proof (ydl_download_trace job_id url requested s) as Ht.
  fold first in Ht. subst r. unfold _try_download_one. run_monad.
  fold requested. fold first. fold best.
  destruct first as [s1 [[]|[m|m|m]]] eqn:E; cbn [fst snd] in *;
    try (split; [reflexivity | exact Ht]).
  destruct (format_unavailable m); cbn [negb].
  - split; [reflexivity|].
    rewrite ydl_download_trace, Ht, <- app_assoc. reflexivity.
  - split; [reflexivity | exact Ht].
Qed.
End TryDownload.

(** ** What the hook and a cancellation request leave alone *)

(** The keys written by the progress hook or by [cancel_job]. *)
Definition hook_keys : list string :=
  ["status"; "progress"; "percent"; "speed"; "eta"; "message"; "_cancel"].

Definition hook_key (k : string) : bool := existsb (String.eqb k) hook_keys.

Lemma hook_key_false (k : string) :
  hook_key k = false →
  "status" ≠ k ∧ "progress" ≠ k ∧ "percent" ≠ k ∧ "speed" ≠ k ∧ "eta" ≠ k ∧
  "message" ≠ k ∧ "_cancel" ≠ k.
Proof.
  unfold hook_key, hook_keys. cbn [existsb]. intros H.
  repeat (apply orb_false_iff in H as [?%String.eqb_neq H]).
  repeat split; congruence.
Qed.

Lemma cancel_job_field (job_id id' k : string) (J : registry) :
  hook_key k = false →
  field (snd (cancel_job job_id J)) id' k = field J id' k.
Proof.
  intros (_ & _ & _ & _ & _ & Hm & Hc)%hook_key_false. unfold cancel_job.
  destruct (no_job _); [reflexivity|]. cbn [snd].
  now rewrite !field_set_ne.
Qed.

Lemma cancel_job_is_Some (job_id id' : string) (J : registry) :
  is_Some (snd (cancel_job job_id J) !! id') ↔ is_Some (J !! id').
Proof.
  unfold cancel_job. destruct (no_job _); [reflexivity|]. cbn [snd].
  now rewrite !set_field_is_Some.
Qed.

Ltac hook_cases :=
  repeat (match goal with
          | |- context [match ?r with Ok _ => _ | Raise _ => _ end] => destruct r
          | |- context [if ?c then _ else _] => destruct c
          end; cbn [fst snd]).

Lemma progress_hook_field (job_id id' k : string) (d : progress) (J : registry) :
  hook_key k = false →
  field (fst (_progress_hook job_id d J)) id' k = field J id' k.
Proof.
  intros (? & ? & ? & ? & ? & ? & ?)%hook_key_false.
  unfold _progress_hook. run_monad.
  hook_cases; rewrite ?field_set_ne by assumption; reflexivity.
Qed.

Lemma progress_hook_is_Some (job_id id' : string) (d : progress) (J : registry) :
  is_Some (fst (_progress_hook job_id d J) !! id') ↔ is_Some (J !! id').
Proof.
  unfold _progress_hook. run_monad.
  hook_cases; rewrite ?set_field_is_Some; reflexivity.
Qed.

Lemma run_actions_field (job_id id' k : string) (acts : list action) (J : registry) :
  hook_key k = false →
  field (fst (run_actions job_id acts J)) id' k = field J id' k.
Proof.
  intros Hk. revert J. induction acts as [|[d|] acts IH]; intros J; cbn [run_actions].
  - reflexivity.
  - run_monad. pose proof (progress_hook_field job_id id' k d J Hk) as Hh.
    destruct (_progress_hook job_id d J) as [J1 [[]|e]]; cbn [fst] in *.
    + now rewrite IH.
    + exact Hh.
  - run_monad. rewrite IH. now apply cancel_job_field.
Qed.

Lemma run_actions_is_Some (job_id id' : string) (acts : list action) (J : registry) :
  is_Some (fst (run_actions job_id acts J) !! id') ↔ is_Some (J !! id').
Proof.
  revert J. induction acts as [|[d|] acts IH]; intros J; cbn [run_actions].
  - reflexivity.
  - run_monad. pose proof (progress_hook_is_Some job_id id' d J) as Hh.
    destruct (_progress_hook job_id d J) as [J1 [[]|e]]; cbn [fst] in *.
    + now rewrite IH.
    + exact Hh.
  - run_monad. rewrite IH. apply cancel_job_is_Some.
Qed.

(** ** The items a worker processes *)

(** The value of [currentItem] in a record as a call saw it. *)
Definition current_item (snap : option job) : option Z :=
  match snap ≫= (.!! "currentItem") with
  | Some (PInt i) => Some i
  | _ => None
  end.

(** The items whose metadata was requested, in order, each with the value
    [currentItem] had at the time; every item of the loop of
    [_download_urls] starts with that request. *)
Definition info_calls (tr : list (call * option job)) : list (string * option Z) :=
  flat_map (λ e, match fst e with
                 | CallInfo u => [(u, current_item (snd e))]
                 | _ => []
                 end) tr.

(** The download attempts, in order, likewise. *)
Definition download_calls (tr : list (call * option job)) : list (string * option Z) :=
  flat_map (λ e, match fst e with
                 | CallDownload u _ => [(u, current_item (snd e))]
                 | _ => []
                 end) tr.

(** [enumerate(urls, start=i)], with the index as [currentItem] holds it. *)
Fixpoint enumerate (i : Z) (urls : list string) : list (string * option Z) :=
  match urls with
  | [] => []
  | u :: rest => (u, Some i) :: enumerate (i + 1) rest
  end.

Lemma enumerate_urls (i : Z) (urls : list string) : map fst (enumerate i urls) = urls.
Proof. revert i. induction urls as [|u r IH]; intros i; simpl; [|rewrite IH]; reflexivity. Qed.

Lemma enumerate_indices (i : Z) (urls : list string) :
  map snd (enumerate i urls) = Some <$> seqZ i (Z.of_nat (length urls)).
Proof.
  revert i. induction urls as [|u r IH]; intros i; [reflexivity|].
  cbn [enumerate map length]. rewrite seqZ_cons by lia. cbn [fmap list_fmap].
  f_equal. rewrite IH. do 2 f_equal; lia.
Qed.

(** Each item is attempted once, or twice when the fallback is taken. *)
Definition attempts (items : list (string * option Z)) (retried : list bool)
  : list (string * option Z) :=
  concat (zip_with (λ x (b : bool), if b then [x; x] else [x]) items retried).

Lemma info_calls_app (a b : list (call * option job)) :
  info_calls (a ++ b) = info_calls a ++ info_calls b.
Proof. apply flat_map_app. Qed.

Lemma download_calls_app (a b : list (call * option job)) :
  download_calls (a ++ b) = download_calls a ++ download_calls b.
Proof. apply flat_map_app. Qed.

Lemma bind_Ok {S A B} (m : M S A) (f : A → M S B) (s s' : S) (b : B) :
  (m ≫= f) s = (s', Ok b) → ∃ a s1, m s = (s1, Ok a) ∧ f a s1 = (s', Ok b).
Proof.
  unfold mbind, M_bind. destruct (m s) as [s1 [a|e]]; [eauto | discriminate].
Qed.

(** What a computation did between two states of a worker: the calls it
    added, and that it kept the record's keys other than those [written]. *)
Record effect (job_id : string) (written : string → bool) (s s' : wstate)
    (calls : list (call * option job)) : Prop := {
  eff_trace : trace s' = trace s ++ calls;
  eff_fields : ∀ k, written k = false →
                    field (JOBS s') job_id k = field (JOBS s) job_id k;
  eff_job : is_Some (JOBS s !! job_id) → is_Some (JOBS s' !! job_id)
}.

Lemma effect_refl (job_id : string) (written : string → bool) (s : wstate) :
  effect job_id written s s [].
Proof. split; [now rewrite app_nil_r | reflexivity | tauto]. Qed.

Lemma effect_trans (job_id : string) (written : string → bool) (s1 s2 s3 : wstate)
    (c1 c2 : list (call * option job)) :
  effect job_id written s1 s2 c1 → effect job_id written s2 s3 c2 →
  effect job_id written s1 s3 (c1 ++ c2).
Proof.
  intros [T1 F1 J1] [T2 F2 J2]. split.
  - now rewrite T2, T1, app_assoc.
  - intros k Hk. now rewrite F2, F1.
  - auto.
Qed.

Lemma effect_weaken (job_id : string) (w1 w2 : string → bool) (s s' : wstate)
    (calls : list (call * option job)) :
  (∀ k, w2 k = false → w1 k = false) →
  effect job_id w1 s s' calls → effect job_id w2 s s' calls.
Proof. intros Hw [T F J]. split; auto. Qed.

Lemma set_job_effect (job_id k : string) (v : pyval) (s : wstate) :
  effect job_id (String.eqb k) s (with_jobs (set_field job_id k v) s) [].
Proof.
  split; cbn.
  - now rewrite app_nil_r.
  - intros k' Hk%String.eqb_neq. now apply field_set_ne.
  - apply set_field_is_Some.
Qed.

Lemma log_effect (job_id : string) (written : string → bool) (c : call) (s : wstate) :
  effect job_id written s (fst (log job_id c s)) [(c, JOBS s !! job_id)].
Proof. split; cbn; [reflexivity | reflexivity | tauto]. Qed.

Section Items.
Context (env : Env) (w : World).

Lemma ydl_download_effect (job_id url : string) (opts : ydl_opts) (s : wstate) :
  effect job_id hook_key s (fst (ydl_download w job_id url opts s))
    [(CallDownload url opts, JOBS s !! job_id)].
Proof.
  split.
  - apply ydl_download_trace.
  - intros k Hk. unfold ydl_download, log. run_monad. cbn.
    pose proof (run_actions_field job_id job_id k
                  (a_actions (w_download w (length (trace s)) url opts)) (JOBS s) Hk) as H.
    destruct (run_actions _ _ _) as [J' [[]|e]]; cbn in *; exact H.
  - unfold ydl_download, log. run_monad. cbn.
    pose proof (run_actions_is_Some job_id job_id
                  (a_actions (w_download w (length (trace s)) url opts)) (JOBS s)) as H.
    destruct (run_actions _ _ _) as [J' [[]|e]]; cbn in *; apply H.
Qed.

(** [_try_download_one] ends as its first attempt does, or as a second
    attempt made after it does. *)
Lemma try_download_one_state (url media_type : string) (height : option Z)
    (pp : option (list postprocessor)) (job_id wd : string) (s : wstate) :
  let first := ydl_download w job_id url
                 (mk_opts (_format_string media_type height) wd pp) s in
  _try_download_one w url media_type height pp job_id wd s = first ∨
  _try_download_one w url media_type height pp job_id wd s
  = ydl_download w job_id url (mk_opts (_format_string media_type None) wd pp)
      (fst first).
Proof.
  intros first. unfold _try_download_one. run_monad. fold first.
  destruct first as [s1 [[]|[m|m|m]]]; cbn [fst]; try (now left).
  destruct (format_unavailable m); [now right | now left].
Qed.

(** One item of the loop adds one or two download attempts, all of them
    seen with the [currentItem] the item started with. *)
Lemma try_download_one_effect (url media_type : string) (height : option Z)
    (pp : option (list postprocessor)) (job_id wd : string) (s : wstate) :
  ∃ calls (retried : bool),
    effect job_id hook_key s
      (fst (_try_download_one w url media_type height pp job_id wd s)) calls ∧
    info_calls calls = [] ∧
    download_calls calls =
      let x := (url, current_item (JOBS s !! job_id)) in
      if retried then [x; x] else [x].
Proof.
  pose proof (ydl_download_effect job_id url
                (mk_opts (_format_string media_type height) wd pp) s) as E1.
  destruct (try_download_one_state url media_type height pp job_id wd s) as [-> | ->].
  - eexists _, false. split; [exact E1 | split; reflexivity].
  - eexists _, true. split; [|split].
    + eapply effect_trans; [exact E1 | apply ydl_download_effect].
    + reflexivity.
    + cbn. unfold current_item.
      pose proof (eff_fields _ _ _ _ _ E1 "currentItem" eq_refl) as Hci.
      unfold field in Hci. now rewrite Hci.
Qed.
End Items.

(** The keys written by the loop of [_download_urls]. *)
Definition loop_key (k : string) : bool :=
  hook_key k || String.eqb "currentItem" k || String.eqb "currentTitle" k.

Lemma loop_key_false (k : string) :
  loop_key k = false →
  hook_key k = false ∧ String.eqb "currentItem" k = false ∧
  String.eqb "currentTitle" k = false ∧ String.eqb "message" k = false.
Proof.
  unfold loop_key. intros [[H1 H2]%orb_false_iff H3]%orb_false_iff.
  repeat split; try assumption.
  apply hook_key_false in H1 as (_ & _ & _ & _ & _ & Hm & _).
  now apply String.eqb_neq.
Qed.

Lemma current_item_field (J : registry) (job_id : string) (i : Z) :
  field J job_id "currentItem" = Some (PInt i) → current_item (J !! job_id) = Some i.
Proof. unfold current_item, field. now intros ->. Qed.

Section Loop.
Context (env : Env) (w : World).

(** When the loop of [_download_urls] runs to its end without the
    cancellation flag being set, it has requested the metadata of every URL,
    in order, with [currentItem] counting from [i], and has attempted each
    download once or twice. *)
Lemma download_items_effect (job_id media_type : string) (height : option Z)
    (pp : option (list postprocessor)) (wd : string) (total : Z) (urls : list string) :
  ∀ (i : Z) (s s' : wstate),
    is_Some (JOBS s !! job_id) →
    download_items w job_id media_type height pp wd total i urls s = (s', Ok tt) →
    (urls ≠ [] → truthy (default PNone (field (JOBS s') job_id "_cancel")) = false) →
    ∃ calls retried,
      effect job_id loop_key s s' calls ∧
      info_calls calls = enumerate i urls ∧
      length retried = length urls ∧
      download_calls calls = attempts (enumerate i urls) retried.
Proof.
  induction urls as [|u rest IH]; intros i s s' Hjob Hrun Hcancel.
  - cbn in Hrun. injection Hrun as <-. exists [], [].
    split; [apply effect_refl | repeat split].
  - specialize (Hcancel ltac:(discriminate)).
    cbn [download_items] in Hrun.
    apply bind_Ok in Hrun as ([] & s1 & H1 & Hrun). injection H1 as <-.
    apply bind_Ok in Hrun as ([] & s2 & H2 & Hrun). injection H2 as <-.
    apply bind_Ok in Hrun as (title & s3 & H3 & Hrun).
    apply bind_Ok in Hrun as ([] & s4 & H4 & Hrun). injection H4 as <-.
    apply bind_Ok in Hrun as ([] & s5 & H5 & Hrun).
    apply bind_Ok in Hrun as (c & s6 & H6 & Hrun).
    set (s1 := with_jobs (set_field job_id "currentItem" (PInt i)) s) in *.
    set (s2 := with_jobs (set_field job_id "message" _) s1) in *.
    (* the metadata request *)
    assert (E3 : s3 = fst (log job_id (CallInfo u) s2)).
    { clear -H3. unfold try_except, log in *. run_monad. cbn in H3.
      destruct (w_info w _ u) as [[inf|]|[m|m|m]]; cbn in H3;
        now injection H3 as <- _. }
    assert (Hci2 : field (JOBS s2) job_id "currentItem" = Some (PInt i)).
    { subst s2 s1. cbn. rewrite field_set_ne by discriminate. now apply field_set_eq. }
    assert (Hjob2 : is_Some (JOBS s2 !! job_id)).
    { subst s2 s1. cbn. now rewrite !set_field_is_Some. }
    set (s4 := with_jobs (set_field job_id "currentTitle" (PStr title)) s3) in *.
    assert (Hci4 : field (JOBS s4) job_id "currentItem" = Some (PInt i)).
    { subst s4 s3. cbn. rewrite field_set_ne by discriminate. exact Hci2. }
    assert (Hjob4 : is_Some (JOBS s4 !! job_id)).
    { subst s4 s3. cbn. now rewrite set_field_is_Some. }
    (* the download *)
    destruct (try_download_one_effect w u media_type height pp job_id wd s4)
      as (dcalls & retried & E5 & Hinfo5 & Hdl5).
    rewrite H5 in E5. cbn [fst] in E5.
    rewrite (current_item_field _ _ _ Hci4) in Hdl5.
    (* the cancellation check *)
    unfold read_job, on_jobs, read_field in H6. cbn in H6. injection H6 as <- <-.
    assert (Hs6 : with_jobs (λ _, JOBS s5) s5 = s5) by (now destruct s5).
    rewrite Hs6 in Hrun. clear Hs6.
    change (JOBS s5 !! job_id ≫= (.!! "_cancel"))
      with (field (JOBS s5) job_id "_cancel") in Hrun.
    assert (Ehead : effect job_id loop_key s s5
                      ([(CallInfo u, JOBS s2 !! job_id)] ++ dcalls)).
    { apply (effect_trans _ _ s s4).
      - replace [(CallInfo u, JOBS s2 !! job_id)]
          with ([] ++ [] ++ [(CallInfo u, JOBS s2 !! job_id)] ++ []) by reflexivity.
        apply (effect_trans _ _ s s1).
        { eapply effect_weaken; [|apply set_job_effect].
          intros k Hk. now apply loop_key_false in Hk. }
        apply (effect_trans _ _ s1 s2).
        { eapply effect_weaken; [|apply set_job_effect].
          intros k Hk. now apply loop_key_false in Hk. }
        apply (effect_trans _ _ s2 s3).
        { rewrite E3. apply log_effect. }
        eapply effect_weaken; [|apply set_job_effect].
        intros k Hk. now apply loop_key_false in Hk.
      - eapply effect_weaken; [|exact E5].
        intros k Hk. now apply loop_key_false in Hk. }
    assert (Hinfo_head : info_calls ([(CallInfo u, JOBS s2 !! job_id)] ++ dcalls)
                         = [(u, Some i)]).
    { rewrite info_calls_app, Hinfo5. unfold info_calls. cbn [flat_map fst snd app].
      now rewrite (current_item_field _ _ _ Hci2). }
    assert (Hdl_head : download_calls ([(CallInfo u, JOBS s2 !! job_id)] ++ dcalls)
                       = if retried then [(u, Some i); (u, Some i)] else [(u, Some i)]).
    { rewrite download_calls_app, Hdl5. reflexivity. }
    destruct (truthy (default PNone (field (JOBS s5) job_id "_cancel"))) eqn:Hc.
    + (* break: the flag is set in the final state *)
      injection Hrun as <-. congruence.
    + destruct (IH (i + 1) s5 s') as (calls & rs & Etail & Hinfo & Hlen & Hdl).
      * apply (eff_job _ _ _ _ _ Ehead), Hjob.
      * exact Hrun.
      * intros _. exact Hcancel.
      * exists (([(CallInfo u, JOBS s2 !! job_id)] ++ dcalls) ++ calls), (retried :: rs).
        split; [eapply effect_trans; eassumption|]. split; [|split].
        -- rewrite info_calls_app, Hinfo_head, Hinfo. reflexivity.
        -- cbn. now rewrite Hlen.
        -- rewrite download_calls_app, Hdl_head, Hdl. unfold attempts. cbn.
           destruct retried; reflexivity.
Qed.
End Loop.

Lemma field_set_status (job_id k : string) (v : pyval) (J : registry) :
  field (set_field job_id k v J) job_id k = Some v ∨
  field (set_field job_id k v J) job_id k = None.
Proof.
  unfold field. rewrite set_field_lookup. destruct (J !! job_id); cbn; [left|right].
  - apply lookup_insert_eq.
  - reflexivity.
Qed.

Section WorkerItems.
Context (env : Env) (w : World).

(** The [finally] clause adds the call of the reconciler and writes no key
    but [message]. *)
Lemma worker_finally_effect (job_id : string) (s : wstate) :
  effect job_id (String.eqb "message") s (fst (worker_finally job_id s))
    [(CallMoveCompleted (work_dir s) (final_dir s), JOBS s !! job_id)].
Proof.
  split.
  - unfold worker_finally, read_job, log. run_monad. cbn.
    destruct (is_str _ _); reflexivity.
  - intros k Hk%String.eqb_neq.
    unfold worker_finally, read_job, log. run_monad. cbn.
    destruct (is_str _ _); cbn; [now apply field_set_ne | reflexivity].
  - unfold worker_finally, read_job, log. run_monad. cbn.
    destruct (is_str _ _); cbn; [apply set_field_is_Some | tauto].
Qed.

(** A worker whose body raised does not end as [done]. *)
Lemma worker_handler_status (job_id : string) (e : exn) (s : wstate) (k : M wstate unit) :
  worker_handler job_id e = Some k →
  field (JOBS (fst (k s))) job_id "status" ≠ Some (PStr "done").
Proof.
  intros [= <-].
  destruct e as [m|m|m]; unfold set_job; run_monad; cbn;
    rewrite field_set_ne by discriminate;
    match goal with
    | |- field (set_field ?i ?k ?v ?J) _ _ ≠ _ =>
        destruct (field_set_status i k v J) as [-> | ->]; discriminate
    end.
Qed.
End WorkerItems.

(** [k] is one of the keys [ks]. *)
Definition writes (ks : list string) (k : string) : bool := existsb (String.eqb k) ks.

Lemma writes_false (ks : list string) (k0 k : string) :
  writes ks k0 = true → writes ks k = false → String.eqb k0 k = false.
Proof.
  unfold writes. intros (x & Hin & ->%String.eqb_eq)%existsb_exists H.
  apply String.eqb_neq. intros ->.
  assert (existsb (String.eqb k) ks = true); [|congruence].
  apply existsb_exists. exists k. split; [assumption | apply String.eqb_refl].
Qed.

Section WorkerBody.
Context (env : Env) (w : World) (job_id : string).

Lemma set_job_step (ks : list string) (k : string) (v : pyval) (s cur s' : wstate)
    (calls : list (call * option job)) (u : unit) :
  effect job_id (writes ks) s cur calls → writes ks k = true →
  set_job job_id k v cur = (s', Ok u) →
  effect job_id (writes ks) s s' calls ∧
  field (JOBS s') job_id k
  = match JOBS cur !! job_id with Some _ => Some v | None => None end.
Proof.
  intros E Hk [= <-]. split.
  2:{ cbn. unfold field. rewrite set_field_lookup.
      destruct (JOBS cur !! job_id); cbn; [apply lookup_insert_eq | reflexivity]. }
  rewrite <- (app_nil_r calls). eapply effect_trans; [exact E|].
  eapply effect_weaken; [|apply set_job_effect].
  intros k' Hk'. eapply writes_false; eassumption.
Qed.

Lemma modify_final_dir_step (written : string → bool) (v : option string)
    (s cur s' : wstate) (calls : list (call * option job)) (u : unit) :
  effect job_id written s cur calls →
  modify (set_final_dir v) cur = (s', Ok u) → effect job_id written s s' calls.
Proof. intros [T F J] [= <-]. split; assumption. Qed.

Lemma modify_work_dir_step (written : string → bool) (v : option string)
    (s cur s' : wstate) (calls : list (call * option job)) (u : unit) :
  effect job_id written s cur calls →
  modify (set_work_dir v) cur = (s', Ok u) → effect job_id written s s' calls.
Proof. intros [T F J] [= <-]. split; assumption. Qed.

Lemma makedirs_step (written : string → bool) (p : string) (s cur s' : wstate)
    (calls : list (call * option job)) (u : unit) :
  effect job_id written s cur calls →
  makedirs env job_id p cur = (s', Ok u) →
  effect job_id written s s' (calls ++ [(CallMakedirs p, JOBS cur !! job_id)]).
Proof.
  intros E H. unfold makedirs, log in H. run_monad. cbn in H.
  destruct (os_makedirs env p); [|discriminate]. injection H as <-.
  eapply effect_trans; [exact E|]. apply log_effect.
Qed.

Lemma probe_url_meta_step (url : string) (s s' : wstate) (m : meta) :
  probe_url_meta w job_id url s = (s', Ok m) →
  effect job_id (λ _, false) s s' [(CallProbe url, JOBS s !! job_id)] ∧
  m_kind m = (if match w_probe w url with
                 | Ok (Some i) => i_has_entries i
                 | _ => false
                 end then Playlist else Video).
Proof.
  unfold probe_url_meta, log. run_monad. cbn.
  destruct (w_probe w url) as [[i|]|[e|e|e]]; cbn; try discriminate.
  intros [= <- <-]. split; [|reflexivity].
  split; cbn; [reflexivity | reflexivity | tauto].
Qed.

Lemma read_job_Ok (k : string) (s s' : wstate) (v : option pyval) :
  read_job job_id k s = (s', Ok v) → s' = s ∧ v = field (JOBS s) job_id k.
Proof.
  unfold read_job, on_jobs, read_field. cbn. intros [= <- <-].
  split; [now destruct s | reflexivity].
Qed.

(** [_download_urls], when it returns with the cancellation flag unset. *)
Lemma download_urls_effect (urls : list string) (media_type : string)
    (height : option Z) (wd : string) (s s' : wstate) :
  _download_urls env w job_id urls media_type height wd s = (s', Ok tt) →
  (urls ≠ [] → truthy (default PNone (field (JOBS s') job_id "_cancel")) = false) →
  ∃ calls retried,
    effect job_id (λ k, loop_key k || String.eqb "totalItems" k) s s' calls ∧
    info_calls calls = enumerate 1 urls ∧
    length retried = length urls ∧
    download_calls calls = attempts (enumerate 1 urls) retried ∧
    field (JOBS s') job_id "totalItems" = Some (PInt (Z.of_nat (length urls))).
Proof.
  intros Hrun Hcancel. unfold _download_urls in Hrun.
  apply bind_Ok in Hrun as (s0 & ? & [= <- <-] & Hrun).
  destruct (JOBS s !! job_id) as [j|] eqn:Hj; [|discriminate].
  assert (E0 : effect job_id (writes ["totalItems"]) s s []) by apply effect_refl.
  apply bind_Ok in Hrun as ([] & s1 & H1 & Hrun).
  apply (makedirs_step _ _ _ _ _ _ _ E0) in H1. clear E0.
  apply bind_Ok in Hrun as (pp & s2 & H2 & Hrun).
  assert (s2 = s1) as ->.
  { destruct (String.eqb media_type "audio").
    - apply bind_Ok in H2 as (ab & ? & [-> _]%read_job_Ok & [= <-]). reflexivity.
    - now injection H2 as <-. }
  clear H2.
  apply bind_Ok in Hrun as ([] & s3 & H3 & Hrun).
  assert (Hjob1 : is_Some (JOBS s1 !! job_id)) by (apply (eff_job _ _ _ _ _ H1); eauto).
  apply (set_job_step _ _ _ _ _ _ _ _ H1) in H3 as [E3 Htot]; [|reflexivity]. clear H1.
  destruct Hjob1 as [j1 Hj1]. rewrite Hj1 in Htot.
  assert (Hjob3 : is_Some (JOBS s3 !! job_id)) by (apply (eff_job _ _ _ _ _ E3); eauto).
  destruct (download_items_effect w job_id media_type height pp wd _ urls 1 s3 s'
              Hjob3 Hrun Hcancel) as (calls & retried & E & Hinfo & Hlen & Hdl).
  exists (([] ++ [(CallMakedirs wd, JOBS s !! job_id)]) ++ calls), retried.
  split; [|split; [|split; [|split]]].
  - eapply effect_trans.
    + eapply effect_weaken; [|exact E3].
      intros k [_ Hk]%orb_false_iff. unfold writes. cbn. now rewrite String.eqb_sym, Hk.
    + eapply effect_weaken; [|exact E].
      intros k [Hk _]%orb_false_iff. exact Hk.
  - rewrite info_calls_app. exact Hinfo.
  - exact Hlen.
  - rewrite download_calls_app. exact Hdl.
  - rewrite (eff_fields _ _ _ _ _ E) by reflexivity. exact Htot.
Qed.
End WorkerBody.

Ltac step_set :=
  match goal with
  | Hrun : (_ ≫= _) _ = _, E : effect _ _ _ _ _ |- _ =>
      let H := fresh in
      apply bind_Ok in Hrun as ([] & ? & H & Hrun);
      eapply set_job_step in H; [|exact E|reflexivity];
      clear E; destruct H as [E _]
  end.

Ltac step_with lem :=
  match goal with
  | Hrun : (_ ≫= _) _ = _, E : effect _ _ _ _ _ |- _ =>
      let H := fresh in
      apply bind_Ok in Hrun as ([] & ? & H & Hrun);
      eapply lem in H; [|exact E];
      clear E; rename H into E
  end.

Section WorkerDone.
Context (env : Env) (w : World) (job_id : string).

(** The playlist test and the selection, as the worker takes them. *)
Definition is_playlist (url : string) : bool :=
  match w_probe w url with
  | Ok (Some i) => i_has_entries i
  | _ => false
  end.

Definition selection (v : option pyval) : list string :=
  match v with
  | Some (PList l) => l
  | _ => []
  end.

(** The URL list the worker resolves. *)
Definition resolved_urls (url : string) (sel : list string) (urls : list string) : Prop :=
  (is_playlist url = true → sel ≠ [] → urls = sel) ∧
  (is_playlist url = false ∨ sel = [] → urls = [url]).

Definition setup_keys : list string :=
  ["kind"; "title"; "status"; "message"; "finalDir"].

Definition completion_keys : list string :=
  ["status"; "message"; "progress"; "percent"; "eta"; "speed"].

Lemma worker_body_done (url media_type : string) (height : option Z)
    (root_dir : string) (s s1 : wstate) :
  worker_body env w job_id url media_type height root_dir s = (s1, Ok tt) →
  field (JOBS s1) job_id "status" = Some (PStr "done") →
  ∃ urls retried calls,
    resolved_urls url (selection (field (JOBS s) job_id "selectedUrls")) urls ∧
    trace s1 = trace s ++ calls ∧
    info_calls calls = enumerate 1 urls ∧
    length retried = length urls ∧
    download_calls calls = attempts (enumerate 1 urls) retried ∧
    field (JOBS s1) job_id "totalItems" = Some (PInt (Z.of_nat (length urls))).
Proof.
  intros Hrun Hdone. unfold worker_body in Hrun.
  apply bind_Ok in Hrun as (meta & sa & Hp & Hrun).
  apply probe_url_meta_step in Hp as [E Hkind]. fold (is_playlist url) in Hkind.
  apply (effect_weaken _ _ (writes setup_keys)) in E; [|reflexivity].
  do 4 step_set.
  step_with modify_final_dir_step.
  step_with makedirs_step.
  step_set.
  step_with modify_work_dir_step.
  step_with makedirs_step.
  match goal with E' : effect _ _ s ?x _ |- _ => rename x into se end.
  apply bind_Ok in Hrun as (sel & ? & [-> ->]%read_job_Ok & Hrun).
  rewrite (eff_fields _ _ _ _ _ E) in Hrun by reflexivity.
  fold (selection (field (JOBS s) job_id "selectedUrls")) in Hrun.
  set (sel := selection (field (JOBS s) job_id "selectedUrls")) in *.
  set (urls := match m_kind meta with
               | Video => [url]
               | Playlist => match sel with [] => [url] | _ :: _ => sel end
               end) in *.
  assert (Hurls : resolved_urls url sel urls).
  { subst urls. rewrite Hkind. split.
    - intros -> Hne. destruct sel; [congruence | reflexivity].
    - intros [-> | ->]; [reflexivity|]. now destruct (is_playlist url). }
  assert (Hne : urls ≠ []).
  { subst urls. destruct (m_kind meta); [discriminate|].
    destruct sel; discriminate. }
  apply bind_Ok in Hrun as ([] & sf & Hdl & Hrun).
  apply bind_Ok in Hrun as (c & ? & [-> ->]%read_job_Ok & Hrun).
  (* the completion: six assignments, the first of which sets the status *)
  assert (Ef : effect job_id (writes completion_keys) sf sf []) by apply effect_refl.
  apply bind_Ok in Hrun as ([] & sg & Hst & Hrun).
  eapply set_job_step in Hst as [Eg Hst]; [|exact Ef|reflexivity]. clear Ef.
  assert (Ec : effect job_id (writes completion_keys) sf s1 [] ∧
               field (JOBS s1) job_id "status" = field (JOBS sg) job_id "status").
  { clear -Hrun Eg.
    apply bind_Ok in Hrun as ([] & sh & [= <-] & Hrun).
    apply bind_Ok in Hrun as ([] & si & Hi & Hrun).
    apply bind_Ok in Hrun as ([] & sj & [= <-] & Hrun).
    injection Hrun as <-.
    assert (Hsi : si = with_jobs (set_field job_id "message"
                                    (PStr (if truthy (default PNone
                                             (field (JOBS sf) job_id "_cancel"))
                                           then "Canceled" else "Completed"))) sg
                  ∨ ∃ v, si = with_jobs (set_field job_id "percent" (PStr "100%"))
                                (with_jobs (set_field job_id "progress" v)
                                   (with_jobs (set_field job_id "message"
                                      (PStr (if truthy (default PNone
                                               (field (JOBS sf) job_id "_cancel"))
                                             then "Canceled" else "Completed"))) sg))).
    { destruct (truthy _).
      - injection Hi as <-. now left.
      - apply bind_Ok in Hi as ([] & ? & [= <-] & Hi). injection Hi as <-.
        right. eauto. }
    destruct Hsi as [-> | [v ->]]; cbn.
    - split.
      + destruct Eg as [T F J]. split; cbn.
        * exact T.
        * intros k Hk. unfold writes, completion_keys in Hk. cbn [existsb] in Hk.
          repeat (apply orb_false_iff in Hk as [?%String.eqb_neq Hk]).
          rewrite !field_set_ne by congruence. apply F.
          unfold writes, completion_keys. cbn [existsb].
          repeat (apply orb_false_iff; split; [apply String.eqb_neq; congruence|]).
          reflexivity.
        * intros H. rewrite !set_field_is_Some. auto.
      + now rewrite !field_set_ne by discriminate.
    - split.
      + destruct Eg as [T F J]. split; cbn.
        * exact T.
        * intros k Hk. unfold writes, completion_keys in Hk. cbn [existsb] in Hk.
          repeat (apply orb_false_iff in Hk as [?%String.eqb_neq Hk]).
          rewrite !field_set_ne by congruence. apply F.
          unfold writes, completion_keys. cbn [existsb].
          repeat (apply orb_false_iff; split; [apply String.eqb_neq; congruence|]).
          reflexivity.
        * intros H. rewrite !set_field_is_Some. auto.
      + now rewrite !field_set_ne by discriminate. }
  destruct Ec as [Ec Hst1]. rewrite Hst1, Hst in Hdone.
  assert (Hcancel : truthy (default PNone (field (JOBS sf) job_id "_cancel")) = false).
  { destruct (truthy _); [|reflexivity].
    destruct (JOBS sf !! job_id); discriminate. }
  destruct (download_urls_effect env w job_id urls media_type height _ se sf Hdl
              (λ _, Hcancel)) as (calls & retried & Eu & Hinfo & Hlen & Hdlc & Htot).
  eexists urls, retried, _. split; [exact Hurls|].
  split; [|split; [|split; [|split]]].
  - rewrite (eff_trace _ _ _ _ _ Ec), app_nil_r, (eff_trace _ _ _ _ _ Eu),
      (eff_trace _ _ _ _ _ E), <- app_assoc. reflexivity.
  - rewrite !info_calls_app, Hinfo. reflexivity.
  - exact Hlen.
  - rewrite !download_calls_app, Hdlc. reflexivity.
  - rewrite (eff_fields _ _ _ _ _ Ec) by reflexivity. exact Htot.
Qed.
End WorkerDone.

Lemma try_finally_state {S A} (m : M S A) (f : M S unit) (s : S) :
  fst (try_finally m f s) = fst (f (fst (m s))).
Proof.
  unfold try_finally. destruct (m s) as [s1 r]. cbn.
  destruct (f s1) as [s2 [[]|e]]; reflexivity.
Qed.

(** A worker, begun: the state it ends in. *)
Lemma run_worker_state (env : Env) (w : World) (job_id : string) (J : registry)
    (j : job) (url : string) :
  J !! job_id = Some j → j !! "url" = Some (PStr url) →
  let s0 := {| JOBS := J; trace := []; final_dir := None; work_dir := None |} in
  fst (run_worker env w job_id J)
  = match j !! "mediaType" with
    | Some (PStr media_type) =>
        let height := match j !! "videoHeight" with
                      | Some (PInt h) => Some h
                      | _ => None
                      end in
        let root_dir := match j !! "rootDir" with
                        | Some (PStr r) => r
                        | _ => STORAGE_DIR env
                        end in
        fst (worker_finally job_id
               (fst (try_except (worker_body env w job_id url media_type height root_dir)
                       (worker_handler job_id) s0)))
    | _ => s0
    end.
Proof.
  intros Hj Hurl s0. unfold run_worker, _download_worker.
  fold s0. unfold mbind at 1, M_bind at 1. unfold get_state.
  change (JOBS s0) with J. rewrite Hj, Hurl.
  destruct (j !! "mediaType") as [[| | | |mt|]|]; try reflexivity.
  unfold mbind, M_bind, modify.
  rewrite try_finally_state. reflexivity.
Qed.

(** C5: when a worker ends as [done] (no cancellation was observed and no
    error was left unrecovered), it has processed a list of URLs that is the
    caller's selection when the source is a playlist and the selection is not
    empty, and the single source URL otherwise; it has processed exactly
    those URLs, in the order of the list, [currentItem] being 1, 2, ... as it
    went (each item downloaded once, or twice when the format fallback was
    taken); and [totalItems] is the length of the list. *)
Theorem worker_processes_selection (env : Env) (w : World) (job_id : string)
    (J : registry) (j : job) (url : string) :
  J !! job_id = Some j →
  j !! "url" = Some (PStr url) →
  is_str (j !! "status") "done" = false →
  let s' := fst (run_worker env w job_id J) in
  field (JOBS s') job_id "status" = Some (PStr "done") →
  ∃ urls retried,
    (is_playlist w url = true → selection (j !! "selectedUrls") ≠ [] →
     urls = selection (j !! "selectedUrls")) ∧
    (is_playlist w url = false ∨ selection (j !! "selectedUrls") = [] →
     urls = [url]) ∧
    info_calls (trace s') = enumerate 1 urls ∧
    length retried = length urls ∧
    download_calls (trace s') = attempts (enumerate 1 urls) retried ∧
    field (JOBS s') job_id "totalItems" = Some (PInt (Z.of_nat (length urls))).
Proof.
  intros Hj Hurl Hnot s' Hdone. subst s'.
  assert (Hstart : field J job_id "status" ≠ Some (PStr "done")).
  { unfold field. rewrite Hj. cbn. intros H. rewrite H in Hnot. discriminate. }
  revert Hdone. rewrite (run_worker_state env w job_id J j url Hj Hurl).
  destruct (j !! "mediaType") as [[| | | |mt|]|]; try (intros H; cbn in H; congruence).
  cbv zeta.
  set (s0 := {| JOBS := J; trace := []; final_dir := None; work_dir := None |}).
  set (body := worker_body env w job_id url mt _ _).
  intros Hdone.
  pose proof (worker_finally_effect job_id
                (fst (try_except body (worker_handler job_id) s0))) as Ef.
  rewrite (eff_fields _ _ _ _ _ Ef) in Hdone by reflexivity.
  rewrite (eff_fields _ _ _ _ _ Ef) by reflexivity.
  rewrite (eff_trace _ _ _ _ _ Ef). clear Ef.
  unfold try_except in *.
  destruct (body s0) as [s1 [[]|e]] eqn:Hbody.
  - cbn [fst] in *.
    destruct (worker_body_done env w job_id url mt _ _ s0 s1 Hbody Hdone)
      as (urls & retried & calls & [Hu1 Hu2] & Ht & Hinfo & Hlen & Hdl & Htot).
    change (field (JOBS s0) job_id "selectedUrls") with (field J job_id "selectedUrls")
      in Hu1, Hu2.
    assert (Hsel : field J job_id "selectedUrls" = j !! "selectedUrls")
      by (unfold field; now rewrite Hj).
    rewrite Hsel in Hu1, Hu2.
    exists urls, retried. split; [exact Hu1|]. split; [exact Hu2|].
    split; [|split; [|split]].
    + rewrite info_calls_app, Ht, info_calls_app, Hinfo. cbn. now rewrite app_nil_r.
    + exact Hlen.
    + rewrite download_calls_app, Ht, download_calls_app, Hdl. cbn. now rewrite app_nil_r.
    + exact Htot.
  - exfalso. destruct (worker_handler job_id e) as [k|] eqn:Hh; [|discriminate].
    eapply worker_handler_status; eassumption.
Qed.

(** The extraction library of the playlist example: the URL is a playlist;
    the height asked for is not on offer, so that a download only succeeds
    at the best format. *)
Definition world_playlist : World :=
  {| w_probe := λ _, Ok (Some {| i_title := Some "Mix: Best/Of"; i_has_entries := true |});
     w_info := λ _ u, Ok (Some {| i_title := Some ("Title of " +:+ u);
                                  i_has_entries := false |});
     w_download := λ _ _ opts,
       if String.eqb (o_format opts) "bv*+ba/b"
       then {| a_actions := [Progress halfway]; a_outcome := Ok tt |}
       else {| a_actions := [];
               a_outcome := Raise (DownloadError
                 "ERROR: [youtube] Requested format is not available") |} |}.

(** A job on that playlist with two of its items selected, at 4320p. *)
Definition jobs_playlist : registry :=
  match create_job env_ex "ba9876543210" 1700000000 "https://example/list"
          "video" (Some 4320) None
          (Some ["https://example/item2"; "https://example/item4"]) None ∅ with
  | Ok (_, J) => J
  | Raise _ => ∅
  end.

Lemma worker_processes_selection_witness :
  let s' := fst (run_worker env_ex world_playlist "ba9876543210" jobs_playlist) in
  field (JOBS s') "ba9876543210" "status" = Some (PStr "done") ∧
  info_calls (trace s')
  = [("https://example/item2", Some 1); ("https://example/item4", Some 2)] ∧
  field (JOBS s') "ba9876543210" "totalItems" = Some (PInt 2).
Proof.
  intros s'.
  assert (Hj : jobs_playlist !! "ba9876543210"
               = Some (default ∅ (jobs_playlist !! "ba9876543210")))
    by (apply lookup_default; vm_compute; reflexivity).
  set (j := default ∅ (jobs_playlist !! "ba9876543210")) in *.
  assert (Hurl : j !! "url" = Some (PStr "https://example/list"))
    by (vm_compute; reflexivity).
  assert (Hnot : is_str (j !! "status") "done" = false) by (vm_compute; reflexivity).
  assert (Hdone : field (JOBS s') "ba9876543210" "status" = Some (PStr "done"))
    by (vm_compute; reflexivity).
  assert (Hsel : selection (j !! "selectedUrls")
                 = ["https://example/item2"; "https://example/item4"])
    by (vm_compute; reflexivity).
  destruct (worker_processes_selection env_ex world_playlist "ba9876543210"
              jobs_playlist j "https://example/list" Hj Hurl Hnot Hdone)
    as (urls & retried & Hu & _ & Hinfo & _ & _ & Htot).
  rewrite Hsel in Hu. rewrite (Hu eq_refl ltac:(discriminate)) in Hinfo, Htot.
  split; [exact Hdone|]. split; [exact Hinfo | exact Htot].
Defined.

(** The same run, evaluated: both items were first tried at 4320p and then
    downloaded at the best format. *)
Example playlist_run_downloads :
  download_calls (trace (fst (run_worker env_ex world_playlist "ba9876543210"
                                jobs_playlist)))
  = [("https://example/item2", Some 1); ("https://example/item2", Some 1);
     ("https://example/item4", Some 2); ("https://example/item4", Some 2)].
Proof. vm_compute. reflexivity. Qed.

(** ** The terminal transitions *)

(** A download during which a cancellation request arrives: the hook called
    after the request raises [KeyboardInterrupt]. *)
Definition world_canceled : World :=
  {| w_probe := w_probe world_video;
     w_info := w_info world_video;
     w_download := λ _ _ _,
       {| a_actions := [Progress halfway; CancelRequest; Progress halfway];
          a_outcome := Ok tt |} |}.

(** A download that fails after it has reported progress. *)
Definition world_failing : World :=
  {| w_probe := w_probe world_video;
     w_info := w_info world_video;
     w_download := λ _ _ _,
       {| a_actions := [Progress halfway];
          a_outcome := Raise (DownloadError "ERROR: unable to download video data") |} |}.

(** C3 fails on the code: the speed and the estimated time are cleared when
    the worker completes normally, but both [except] clauses leave them as the
    last progress event set them. *)
Theorem terminal_transition_speed_eta :
  let after (w : World) (k : string) :=
    field (JOBS (fst (run_worker env_ex w "0123456789ab" jobs_created)))
      "0123456789ab" k in
  (* normal completion *)
  after world_video "status" = Some (PStr "done") ∧
  after world_video "speed" = Some (PStr EmptyString) ∧
  after world_video "eta" = Some (PStr EmptyString) ∧
  (* cancellation observed by the progress hook *)
  after world_canceled "status" = Some (PStr "canceled") ∧
  after world_canceled "speed" = Some (PStr "1.00 MiB/s") ∧
  after world_canceled "eta" = Some (PStr "1s") ∧
  (* unrecovered download error *)
  after world_failing "status" = Some (PStr "error") ∧
  after world_failing "speed" = Some (PStr "1.00 MiB/s") ∧
  after world_failing "eta" = Some (PStr "1s").
Proof. cbv zeta. repeat split; vm_compute; reflexivity. Qed.

(** ** The staging reconciler *)

Module FSFacts.
Import FS.

(** *** Directory entries *)

Lemma assoc_set_eq (k : string) (v : node) (es : list (string * node)) :
  assoc k (assoc_set k v es) = Some v.
Proof.
  induction es as [|[k' x] es IH]; cbn.
  - now rewrite String.eqb_refl.
  - destruct (String.eqb k' k) eqn:E; cbn; now rewrite E.
Qed.

Lemma assoc_set_ne (k k' : string) (v : node) (es : list (string * node)) :
  k ≠ k' → assoc k' (assoc_set k v es) = assoc k' es.
Proof.
  intros Hne. induction es as [|[k0 x] es IH]; cbn.
  - now apply String.eqb_neq in Hne as ->.
  - destruct (String.eqb k0 k) eqn:E; cbn.
    + apply String.eqb_eq in E as ->. now apply String.eqb_neq in Hne as ->.
    + now rewrite IH.
Qed.

Lemma assoc_set_same (k : string) (v : node) (es : list (string * node)) :
  assoc k es = Some v → assoc_set k v es = es.
Proof.
  induction es as [|[k0 x] es IH]; cbn; [discriminate|].
  destruct (String.eqb k0 k); [now intros [= ->] | intros H; now rewrite IH].
Qed.

Lemma assoc_del_eq (k : string) (es : list (string * node)) :
  assoc k (assoc_del k es) = None.
Proof.
  unfold assoc_del. induction es as [|[k0 x] es IH]; cbn; [reflexivity|].
  destruct (String.eqb k0 k) eqn:E; cbn; [exact IH | now rewrite E].
Qed.

Lemma assoc_del_ne (k k' : string) (es : list (string * node)) :
  k ≠ k' → assoc k' (assoc_del k es) = assoc k' es.
Proof.
  intros Hne. unfold assoc_del. induction es as [|[k0 x] es IH]; cbn; [reflexivity|].
  destruct (String.eqb k0 k) eqn:E; cbn.
  - apply String.eqb_eq in E as ->. now apply String.eqb_neq in Hne as ->.
  - now rewrite IH.
Qed.

Lemma assoc_In (k : string) (v : node) (es : list (string * node)) :
  assoc k es = Some v → In (k, v) es.
Proof.
  induction es as [|[k0 x] es IH]; cbn; [discriminate|].
  destruct (String.eqb k0 k) eqn:E.
  - apply String.eqb_eq in E as ->. intros [= ->]. now left.
  - intros H. right. now apply IH.
Qed.

Lemma distinct_spec (l : list string) : distinct l = true ↔ List.NoDup l.
Proof.
  induction l as [|x l IH]; cbn.
  - split; [constructor | reflexivity].
  - rewrite andb_true_iff, negb_true_iff, IH. split.
    + intros [Hx Hl]. constructor; [|assumption].
      intros Hin. assert (existsb (String.eqb x) l = true); [|congruence].
      apply existsb_exists. exists x. split; [assumption | apply String.eqb_refl].
    + inversion 1 as [|? ? Hx Hl]; subst. split; [|assumption].
      destruct (existsb (String.eqb x) l) eqn:E; [|reflexivity].
      apply existsb_exists in E as (y & Hy & ->%String.eqb_eq). contradiction.
Qed.

Lemma assoc_distinct (k : string) (v : node) (es : list (string * node)) :
  distinct (map fst es) = true → In (k, v) es → assoc k es = Some v.
Proof.
  intros Hd%distinct_spec. induction es as [|[k0 x] es IH]; cbn; [tauto|].
  cbn in Hd. inversion Hd as [|? ? Hk0 Hes]; subst.
  intros [[= -> ->]|Hin].
  - now rewrite String.eqb_refl.
  - destruct (String.eqb k0 k) eqn:E; [|now apply IH].
    apply String.eqb_eq in E as ->. exfalso. apply Hk0.
    now apply (in_map fst) in Hin.
Qed.

(** *** Lookups *)

Lemma lookup_app (p q : path) (n : node) :
  fs_lookup (p ++ q) n
  = match fs_lookup p n with
    | Some m => fs_lookup q m
    | None => None
    end.
Proof.
  revert n. induction p as [|c p IH]; intros n; cbn; [reflexivity|].
  destruct n as [d|es]; [reflexivity|]. destruct (assoc c es); [apply IH | reflexivity].
Qed.

Lemma lookup_prefix_Some (p q : path) (n : node) :
  is_Some (fs_lookup (p ++ q) n) → is_Some (fs_lookup p n).
Proof. rewrite lookup_app. destruct (fs_lookup p n); [eauto | intros [? [=]]]. Qed.

(** Nothing lies below a regular file. *)
Lemma lookup_below_file (p q : path) (n : node) (d : string) :
  fs_lookup p n = Some (File d) → is_Some (fs_lookup (p ++ q) n) → q = [].
Proof.
  rewrite lookup_app. intros ->. destruct q; [reflexivity | intros [? [=]]].
Qed.

(** Two results of a lookup that agree up to the entries of a directory. *)
Definition similar (a b : option node) : Prop :=
  match a, b with
  | None, None => True
  | Some (File d), Some (File d') => d = d'
  | Some (Dir _), Some (Dir _) => True
  | _, _ => False
  end.

Lemma similar_refl (a : option node) : similar a a.
Proof. destruct a as [[d|es]|]; cbn; auto. Qed.

Lemma similar_file (a b : option node) (d : string) :
  similar a b → a = Some (File d) → b = Some (File d).
Proof. intros H ->. destruct b as [[d'|es]|]; cbn in H; try tauto. now subst. Qed.

Lemma similar_Some (a b : option node) : similar a b → is_Some a → is_Some b.
Proof.
  destruct a as [[|]|], b as [[|]|]; cbn; intros H Hs; try tauto; eauto.
Qed.

Lemma similar_None (a b : option node) : similar a b → a = None → b = None.
Proof. intros H ->. destruct b as [[|]|]; cbn in H; tauto. Qed.

Lemma similar_dir (a b : option node) :
  similar a b →
  match a with Some (Dir _) => true | _ => false end
  = match b with Some (Dir _) => true | _ => false end.
Proof. destruct a as [[|]|], b as [[|]|]; cbn; tauto. Qed.

Lemma prefix_cons_inv (c c' : string) (p q : path) :
  (c :: q) `prefix_of` (c' :: p) → c = c' ∧ q `prefix_of` p.
Proof. intros [k Hk]. injection Hk as -> ->. split; [reflexivity | now exists k]. Qed.

Lemma remove_similar (p q : path) (fs : node) :
  ¬ q `prefix_of` p → similar (fs_lookup p fs) (fs_lookup p (fs_remove q fs)).
Proof.
  revert q fs. induction p as [|c p IH]; intros q fs Hq.
  - destruct q as [|c' q]; [exfalso; apply Hq; apply prefix_nil|].
    destruct fs as [d|es]; cbn; [reflexivity|].
    destruct q; [exact I|]. destruct (assoc c' es); exact I.
  - destruct q as [|c' q]; [exfalso; apply Hq; apply prefix_nil|].
    destruct fs as [d|es]; [apply similar_refl|].
    cbn [fs_remove]. destruct q as [|c'' q].
    + cbn [fs_lookup]. rewrite assoc_del_ne; [apply similar_refl|].
      intros ->. apply Hq. exists p. reflexivity.
    + destruct (assoc c' es) as [m|] eqn:E; [|apply similar_refl].
      cbn [fs_lookup]. destruct (decide (c' = c)) as [->|Hne].
      * rewrite assoc_set_eq, E. apply IH. intros Hp. apply Hq.
        now apply prefix_cons.
      * rewrite assoc_set_ne by assumption. apply similar_refl.
Qed.

Lemma insert_similar (p q : path) (v : node) (fs fs' : node) :
  fs_insert q v fs = Some fs' → ¬ q `prefix_of` p →
  similar (fs_lookup p fs) (fs_lookup p fs').
Proof.
  revert q fs fs'. induction p as [|c p IH]; intros q fs fs' Hins Hq.
  - destruct q as [|c' q]; [exfalso; apply Hq; apply prefix_nil|].
    destruct fs as [d|es]; [discriminate|]. cbn in Hins.
    destruct (assoc c' es) as [m|].
    + destruct (fs_insert q v m); [injection Hins as <-; exact I | discriminate].
    + destruct q; [injection Hins as <-; exact I | discriminate].
  - destruct q as [|c' q]; [exfalso; apply Hq; apply prefix_nil|].
    destruct fs as [d|es]; [discriminate|]. cbn in Hins.
    destruct (assoc c' es) as [m|] eqn:E.
    + destruct (fs_insert q v m) as [m'|] eqn:Em; [|discriminate].
      injection Hins as <-. cbn [fs_lookup]. destruct (decide (c' = c)) as [->|Hne].
      * rewrite assoc_set_eq, E. eapply IH; [exact Em|].
        intros Hp. apply Hq. now apply prefix_cons.
      * rewrite assoc_set_ne by assumption. apply similar_refl.
    + destruct q; [|discriminate]. injection Hins as <-. cbn [fs_lookup].
      rewrite assoc_set_ne; [apply similar_refl|].
      intros ->. apply Hq. exists p. reflexivity.
Qed.

Lemma lookup_insert (q : path) (v : node) (fs fs' : node) :
  fs_insert q v fs = Some fs' → fs_lookup q fs' = Some v.
Proof.
  revert fs fs'. induction q as [|c q IH]; intros fs fs'; cbn.
  - now intros [= ->].
  - destruct fs as [d|es]; [discriminate|].
    destruct (assoc c es) as [m|].
    + destruct (fs_insert q v m) as [m'|] eqn:Em; [|discriminate].
      intros [= <-]. cbn. rewrite assoc_set_eq. eapply IH, Em.
    + destruct q; [|discriminate]. intros [= <-]. cbn. now rewrite assoc_set_eq.
Qed.

Lemma insert_succeeds (p : path) (name : string) (v : node) (fs : node) :
  isdir p fs = true → is_Some (fs_insert (p ++ [name]) v fs).
Proof.
  unfold isdir. revert fs. induction p as [|c p IH]; intros fs; cbn.
  - destruct fs as [d|es]; [discriminate|]. intros _.
    destruct (assoc name es); eauto.
  - destruct fs as [d|es]; [discriminate|].
    destruct (assoc c es) as [m|]; [|discriminate].
    intros H. destruct (IH m H) as [m' ->]. eauto.
Qed.

Lemma lookup_remove (p : path) (fs : node) :
  p ≠ [] → fs_lookup p (fs_remove p fs) = None.
Proof.
  revert fs. induction p as [|c p IH]; intros fs Hp; [congruence|].
  destruct fs as [d|es]; [reflexivity|]. cbn [fs_remove].
  destruct p as [|c' p].
  - cbn. now rewrite assoc_del_eq.
  - destruct (assoc c es) as [m|] eqn:E.
    + cbn [fs_lookup]. rewrite assoc_set_eq. now apply IH.
    + cbn [fs_lookup]. now rewrite E.
Qed.

(** *** [makedirs] *)

Lemma makedirs_idem (p : path) (fs : node) :
  isdir p fs = true → makedirs p fs = Some fs.
Proof.
  unfold isdir. revert fs. induction p as [|c p IH]; intros fs.
  - destruct fs; [discriminate | reflexivity].
  - destruct fs as [d|es]; [discriminate|]. cbn.
    destruct (assoc c es) as [m|] eqn:E; [|discriminate].
    intros H. cbn. rewrite (IH m H). now rewrite assoc_set_same.
Qed.

Lemma makedirs_isdir (p : path) (fs fs' : node) :
  makedirs p fs = Some fs' → isdir p fs' = true.
Proof.
  unfold isdir. revert fs fs'. induction p as [|c p IH]; intros fs fs'.
  - destruct fs; cbn; [discriminate | now intros [= <-]].
  - destruct fs as [d|es]; [discriminate|]. cbn.
    destruct (makedirs p _) as [m'|] eqn:E; [|discriminate].
    intros [= <-]. cbn. rewrite assoc_set_eq. eapply IH, E.
Qed.

Lemma makedirs_lookup (p q : path) (fs fs' : node) :
  makedirs p fs = Some fs' → ¬ q `prefix_of` p → fs_lookup q fs' = fs_lookup q fs.
Proof.
  revert q fs fs'. induction p as [|c p IH]; intros q fs fs'.
  - destruct fs; cbn; [discriminate | now intros [= <-]].
  - destruct fs as [d|es]; [discriminate|]. cbn.
    destruct (makedirs p _) as [m'|] eqn:E; [|discriminate].
    intros [= <-] Hq.
    destruct q as [|c' q]; [exfalso; apply Hq; apply prefix_nil|].
    cbn. destruct (decide (c = c')) as [<-|Hne].
    + rewrite assoc_set_eq.
      assert (Hq' : ¬ q `prefix_of` p) by (intros H; apply Hq; now apply prefix_cons).
      rewrite (IH q _ _ E Hq').
      destruct (assoc c es); [reflexivity|]. cbn.
      destruct q; [exfalso; apply Hq'; apply prefix_nil | reflexivity].
    + now rewrite assoc_set_ne.
Qed.

(** [makedirs] fails on a path that runs through a regular file. *)
Lemma makedirs_file (p q : path) (fs fs' : node) (d : string) :
  makedirs p fs = Some fs' → fs_lookup q fs = Some (File d) → ¬ q `prefix_of` p.
Proof.
  revert p fs fs'. induction q as [|c q IH]; intros p fs fs' Hmk Hq.
  - cbn in Hq. injection Hq as ->. destruct p; discriminate.
  - destruct fs as [dd|es]; [discriminate|]. cbn in Hq.
    destruct (assoc c es) as [m|] eqn:E; [|discriminate].
    intros Hpre. destruct p as [|c' p]; [destruct Hpre as [k Hk]; discriminate|].
    apply prefix_cons_inv in Hpre as [<- Hpre]. cbn in Hmk. rewrite E in Hmk. cbn in Hmk.
    destruct (makedirs p m) as [m'|] eqn:Em; [|discriminate].
    exact (IH _ _ _ Em Hq Hpre).
Qed.

(** *** The walk *)

Fixpoint node_induction (P : node → Prop) (Hf : ∀ d, P (File d))
    (Hd : ∀ es, Forall (λ e, P (snd e)) es → P (Dir es)) (n : node) : P n :=
  match n with
  | File d => Hf d
  | Dir es =>
      Hd es ((fix go (l : list (string * node)) : Forall (λ e, P (snd e)) l :=
                match l with
                | [] => List.Forall_nil _
                | (c, m) :: r =>
                    @List.Forall_cons _ (λ e, P (snd e)) (c, m) r
                      (node_induction P Hf Hd m) (go r)
                end) es)
  end.

Lemma walk_Dir (root : path) (es : list (string * node)) :
  walk root (Dir es)
  = (root, file_names es) :: flat_map (λ e, walk (root ++ [fst e]) (snd e)) es.
Proof.
  cbn [walk]. f_equal. induction es as [|[c m] es IH]; [reflexivity|].
  cbn [flat_map fst snd]. now rewrite IH.
Qed.

Lemma wf_Dir (es : list (string * node)) :
  wf (Dir es) = distinct (map fst es) && forallb (λ e, wf (snd e)) es.
Proof.
  cbn [wf]. f_equal. induction es as [|[c m] es IH]; [reflexivity|].
  cbn [forallb snd]. now rewrite IH.
Qed.

(** The regular files of a tree, by their paths from its root, in the order
    of the walk. *)
Fixpoint rel_files (n : node) : list path :=
  match n with
  | File _ => []
  | Dir es =>
      map (λ f, [f]) (file_names es) ++
      (fix sub (l : list (string * node)) : list path :=
         match l with
         | [] => []
         | (c, m) :: r => map (cons c) (rel_files m) ++ sub r
         end) es
  end.

Lemma rel_files_Dir (es : list (string * node)) :
  rel_files (Dir es)
  = map (λ f, [f]) (file_names es) ++
    flat_map (λ e, map (cons (fst e)) (rel_files (snd e))) es.
Proof.
  cbn [rel_files]. f_equal. induction es as [|[c m] es IH]; [reflexivity|].
  cbn [flat_map fst snd]. now rewrite IH.
Qed.

(** The files the loops of the reconciler visit: directory and name. *)
Definition walk_items (ds : list (path * list string)) : list (path * string) :=
  flat_map (λ rf, map (pair (fst rf)) (snd rf)) ds.

Definition item_path (x : path * string) : path := fst x ++ [snd x].

Lemma walk_items_paths (root : path) (n : node) :
  map item_path (walk_items (walk root n)) = map (app root) (rel_files n).
Proof.
  revert root. induction n as [d|es IH] using node_induction; intros root; [reflexivity|].
  rewrite walk_Dir, rel_files_Dir. unfold walk_items. cbn [flat_map fst snd].
  rewrite !map_app, !map_map. f_equal.
  fold (walk_items (flat_map (λ e, walk (root ++ [fst e]) (snd e)) es)).
  induction IH as [|[c m] es Hm _ IHes]; [reflexivity|].
  cbn [flat_map fst snd]. unfold walk_items in *.
  rewrite flat_map_app, !map_app, IHes. f_equal.
  cbn [snd] in Hm. rewrite (Hm (root ++ [c])), map_map.
  apply map_ext. intros p. now rewrite <- app_assoc.
Qed.

Lemma in_file_names (f : string) (es : list (string * node)) :
  In f (file_names es) ↔ ∃ d, In (f, File d) es.
Proof.
  unfold file_names. rewrite in_map_iff. split.
  - intros ([k [d|es']] & <- & [Hin Hf]%filter_In); [eauto | discriminate].
  - intros [d Hin]. exists (f, File d). split; [reflexivity|].
    apply filter_In. split; [assumption | reflexivity].
Qed.

Lemma in_rel_files_Dir (p : path) (es : list (string * node)) :
  In p (rel_files (Dir es)) ↔
  (∃ f d, p = [f] ∧ In (f, File d) es) ∨
  (∃ c m r, p = c :: r ∧ In (c, m) es ∧ In r (rel_files m)).
Proof.
  rewrite rel_files_Dir, in_app_iff, in_map_iff, in_flat_map.
  split; intros [H|H]; [left|right|left|right].
  - destruct H as (f & <- & [d Hd]%in_file_names). eauto.
  - destruct H as ([c m] & Hin & (r & <- & Hr)%in_map_iff). eauto 6.
  - destruct H as (f & d & -> & Hin). exists f. split; [reflexivity|].
    apply in_file_names. eauto.
  - destruct H as (c & m & r & -> & Hin & Hr). exists (c, m). split; [assumption|].
    apply in_map_iff. eauto.
Qed.

Lemma rel_files_nonempty (n : node) : ¬ In [] (rel_files n).
Proof.
  destruct n as [d|es]; [tauto|]. rewrite in_rel_files_Dir.
  intros [(f & d & [=] & _) | (c & m & r & [=] & _)].
Qed.

(** Every regular file is met by the walk. *)
Lemma lookup_rel_files (p : path) (n : node) (d : string) :
  p ≠ [] → fs_lookup p n = Some (File d) → In p (rel_files n).
Proof.
  revert n. induction p as [|c p IH]; intros n Hp; [congruence|].
  destruct n as [dd|es]; [discriminate|]. cbn.
  destruct (assoc c es) as [m|] eqn:E; [|discriminate].
  apply assoc_In in E. intros Hl. apply in_rel_files_Dir.
  destruct p as [|c' p].
  - cbn in Hl. injection Hl as ->. left. eauto.
  - right. exists c, m, (c' :: p). repeat split; [assumption|].
    apply IH; [discriminate | assumption].
Qed.

Lemma wf_child (c : string) (m : node) (es : list (string * node)) :
  wf (Dir es) = true → In (c, m) es → wf m = true ∧ assoc c es = Some m.
Proof.
  rewrite wf_Dir. intros [Hd Hall]%andb_true_iff Hin. split.
  - rewrite forallb_forall in Hall. apply (Hall (c, m) Hin).
  - now apply assoc_distinct.
Qed.

(** In a well-formed tree the walk only meets regular files, each at the
    path it is listed under. *)
Lemma rel_files_lookup (p : path) (n : node) :
  wf n = true → In p (rel_files n) → ∃ d, fs_lookup p n = Some (File d).
Proof.
  revert n. induction p as [|c p IH]; intros n Hwf Hin.
  - now apply rel_files_nonempty in Hin.
  - destruct n as [dd|es]; [destruct Hin|].
    apply in_rel_files_Dir in Hin as [(f & d & [= -> ->] & Hin) | (c' & m & r & [= -> ->] & Hin & Hr)].
    + destruct (wf_child _ _ _ Hwf Hin) as [_ E]. exists d. cbn. now rewrite E.
    + destruct (wf_child _ _ _ Hwf Hin) as [Hm E]. cbn. rewrite E. now apply IH.
Qed.

Lemma NoDup_map_inj {A B} (f : A → B) (l : list A) :
  (∀ x y, f x = f y → x = y) → List.NoDup l → List.NoDup (map f l).
Proof.
  intros Hf. induction 1 as [|x l Hx _ IH]; cbn; constructor; [|assumption].
  intros (y & Hy%Hf & Hin)%in_map_iff. now subst.
Qed.

Lemma NoDup_filter {A} (f : A → bool) (l : list A) :
  List.NoDup l → List.NoDup (List.filter f l).
Proof.
  induction 1 as [|x l Hx _ IH]; cbn; [constructor|].
  destruct (f x); [|assumption]. constructor; [|assumption].
  intros [Hin _]%filter_In. contradiction.
Qed.

Lemma NoDup_app_intro {A} (l k : list A) :
  List.NoDup l → List.NoDup k → (∀ x, In x l → In x k → False) → List.NoDup (l ++ k).
Proof.
  intros Hl Hk Hd. induction Hl as [|x l Hx _ IH]; [assumption|].
  cbn. constructor.
  - rewrite in_app_iff. intros [H|H]; [contradiction|]. apply (Hd x); [now left | assumption].
  - apply IH. intros y Hy. apply Hd. now right.
Qed.

(** In a well-formed tree the walk meets no file twice. *)
Lemma rel_files_NoDup (n : node) : wf n = true → List.NoDup (rel_files n).
Proof.
  induction n as [d|es IH] using node_induction; intros Hwf; [constructor|].
  rewrite rel_files_Dir. rewrite wf_Dir in Hwf.
  apply andb_true_iff in Hwf as [Hd%distinct_spec Hall].
  apply NoDup_app_intro.
  - apply NoDup_map_inj; [now intros x y [= ->]|].
    unfold file_names.
    assert (Hsub : ∀ l : list (string * node),
              List.NoDup (map fst l) → List.NoDup (map fst (List.filter
                (λ e, match snd e with File _ => true | Dir _ => false end) l))).
    { clear. induction l as [|[k v] l IHl]; cbn; [auto|].
      inversion 1 as [|? ? Hk Hl]; subst.
      destruct v; cbn; [|now apply IHl]. constructor; [|now apply IHl].
      intros ([k' v'] & Heq & [Hin _]%filter_In)%in_map_iff. cbn in Heq. subst.
      apply Hk. now apply (in_map fst) in Hin. }
    now apply Hsub.
  - clear -IH Hd Hall. induction IH as [|[c m] es Hm _ IHes]; [constructor|].
    cbn [flat_map fst snd]. cbn in Hd, Hall.
    inversion Hd as [|? ? Hc Hes]; subst.
    apply andb_true_iff in Hall as [Hwm Hall].
    apply NoDup_app_intro.
    + apply NoDup_map_inj; [now intros x y [= ->] | now apply Hm].
    + now apply IHes.
    + intros p (r & <- & Hr)%in_map_iff ([c' m'] & Hin & (r' & [= -> ->] & Hr')%in_map_iff)%in_flat_map.
      apply Hc. now apply (in_map fst) in Hin.
  - intros p (f & <- & _)%in_map_iff ([c m] & _ & (r & [= _ ->] & Hr)%in_map_iff)%in_flat_map.
    now apply rel_files_nonempty in Hr.
Qed.

(** *** Destination names *)

Lemma str_app (a b : list ascii) : str (a ++ b) = str a +:+ str b.
Proof. apply chars_inj. now rewrite chars_app, !chars_str. Qed.

Lemma split_last_dot_app (acc rp ext rbase : list ascii) :
  split_last_dot acc rp = Some (ext, rbase) →
  rev rp ++ acc = rev rbase ++ ext ∧ ∃ e, ext = "."%char :: e.
Proof.
  revert acc. induction rp as [|c rp IH]; intros acc; cbn; [discriminate|].
  destruct (is_slash c); [discriminate|].
  destruct (Ascii.eqb c ".") eqn:E.
  - apply Ascii.eqb_eq in E as ->. intros [= <- <-]. split; [|eauto].
    now rewrite <- app_assoc.
  - intros H. destruct (IH _ H) as [Heq He]. split; [|exact He].
    now rewrite <- app_assoc.
Qed.

(** [splitext] cuts the name in two; the extension is empty or starts with a
    dot. *)
Lemma splitext_app (f base ext : string) :
  splitext f = (base, ext) →
  base +:+ ext = f ∧ (ext = EmptyString ∨ ∃ e, ext = String "." e).
Proof.
  unfold splitext.
  destruct (split_last_dot [] (rev (chars f))) as [[e rbase]|] eqn:E.
  - apply split_last_dot_app in E as [Heq [e' ->]].
    rewrite rev_involutive, app_nil_r in Heq.
    destruct (forallb _ _).
    + intros [= <- <-]. split; [|now left].
      apply chars_inj. now rewrite chars_app, app_nil_r.
    + intros H. apply (f_equal fst) in H as Hb. apply (f_equal snd) in H as He.
      cbn [fst snd] in Hb, He. rewrite <- Hb, <- He.
      split; [|right; exists (str e'); reflexivity].
      apply chars_inj. now rewrite chars_app, !chars_str.
  - intros [= <- <-]. split; [|now left].
    apply chars_inj. now rewrite chars_app, app_nil_r.
Qed.

Lemma numbered_inj (base ext : string) (n m : Z) :
  numbered base ext n = numbered base ext m → n = m.
Proof.
  unfold numbered. intros H.
  apply (inj (String.app base)), (inj (String.app " (")) in H.
  apply (f_equal chars) in H. rewrite !chars_app in H.
  apply app_inv_tail, chars_inj in H. now apply (inj pretty) in H.
Qed.

(** The names a file may get in the final directory: its own, or its own
    with a number, [n >= 1], put before the extension. *)
Definition candidate (f name : string) : Prop :=
  name = f ∨ ∃ n, 1 ≤ n ∧ name = numbered (fst (splitext f)) (snd (splitext f)) n.

Lemma exists_In (fd : path) (name : string) (fs : node) :
  exists_ (fd ++ [name]) fs = true →
  ∃ es, fs_lookup fd fs = Some (Dir es) ∧ In name (map fst es).
Proof.
  unfold exists_. rewrite lookup_app.
  destruct (fs_lookup fd fs) as [[d|es]|]; cbn; try discriminate.
  destruct (assoc name es) as [m|] eqn:E; [|discriminate].
  intros _. exists es. split; [reflexivity|].
  apply assoc_In in E. now apply (in_map fst) in E.
Qed.

Lemma unique_dst_loop_None (fuel : nat) (fs : node) (fd : path) (base ext : string)
    (n : Z) (cand : path) :
  unique_dst_loop fuel fs fd base ext n cand = None →
  ∀ j : nat, (j < fuel)%nat →
    exists_ (fd ++ [numbered base ext (n + Z.of_nat j)]) fs = true.
Proof.
  revert n cand. induction fuel as [|fuel IH]; intros n cand; cbn.
  - intros _ j Hj. lia.
  - destruct (exists_ cand fs); [|discriminate].
    intros H j Hj. destruct j as [|j].
    + rewrite Z.add_0_r. destruct fuel; cbn in H.
      * destruct (exists_ _ fs); [reflexivity | discriminate].
      * destruct (exists_ (fd ++ [numbered base ext n]) fs); [reflexivity | discriminate].
    + specialize (IH _ _ H j ltac:(lia)).
      now replace (n + Z.of_nat (S j)) with (n + 1 + Z.of_nat j) by lia.
Qed.

Lemma unique_dst_loop_Some (fuel : nat) (fs : node) (fd : path) (base ext : string)
    (n : Z) (cand dst : path) :
  unique_dst_loop fuel fs fd base ext n cand = Some dst →
  exists_ dst fs = false ∧
  (dst = cand ∨ ∃ j, n ≤ j ∧ dst = fd ++ [numbered base ext j]).
Proof.
  revert n cand. induction fuel as [|fuel IH]; intros n cand; cbn.
  - destruct (exists_ cand fs) eqn:E; [discriminate|]. intros [= <-]. auto.
  - destruct (exists_ cand fs) eqn:E.
    + intros H. destruct (IH _ _ H) as [Hne [-> | (j & Hj & ->)]].
      * split; [assumption|]. right. exists n. split; [lia | reflexivity].
      * split; [assumption|]. right. exists j. split; [lia | reflexivity].
    + intros [= <-]. auto.
Qed.

(** The loop of [_unique_dst] ends: a directory with [k] entries cannot hold
    all of the [k + 1] names numbered 1 to [k + 1]. *)
Lemma unique_dst_total (fd : path) (f : string) (fs : node) :
  is_Some (_unique_dst fd f fs).
Proof.
  unfold _unique_dst. destruct (splitext f) as [base ext].
  destruct (unique_dst_loop _ fs fd base ext 1 _) as [dst|] eqn:E; [eauto|].
  exfalso. pose proof (unique_dst_loop_None _ _ _ _ _ _ _ E) as Hall.
  pose proof (Hall O ltac:(lia)) as H0. apply exists_In in H0 as (es & Hfd & _).
  unfold entry_count in Hall. rewrite Hfd in Hall.
  set (names := map (λ j, numbered base ext (1 + Z.of_nat j)) (seq 0 (S (length es)))).
  assert (Hnd : List.NoDup names).
  { apply NoDup_map_inj; [|apply List.seq_NoDup].
    intros x y H%numbered_inj. lia. }
  assert (Hincl : incl names (map fst es)).
  { intros x (j & <- & Hj%in_seq)%in_map_iff.
    pose proof (Hall j ltac:(lia)) as Hj'. apply exists_In in Hj' as (es' & Hfd' & Hin).
    rewrite Hfd in Hfd'. now injection Hfd' as <-. }
  pose proof (List.NoDup_incl_length Hnd Hincl) as Hlen.
  unfold names in Hlen. rewrite !length_map, length_seq in Hlen. lia.
Qed.

Lemma unique_dst_spec (fd : path) (f : string) (fs : node) (dst : path) :
  _unique_dst fd f fs = Some dst →
  ∃ name, dst = fd ++ [name] ∧ candidate f name ∧ fs_lookup dst fs = None.
Proof.
  unfold _unique_dst, candidate. destruct (splitext f) as [base ext]. cbn [fst snd].
  intros [Hne Hd]%unique_dst_loop_Some.
  assert (Hnone : fs_lookup dst fs = None).
  { unfold exists_ in Hne. destruct (fs_lookup dst fs); [discriminate | reflexivity]. }
  destruct Hd as [-> | (j & Hj & ->)].
  - exists f. split; [reflexivity|]. split; [now left | assumption].
  - exists (numbered base ext j). split; [reflexivity|].
    split; [right; exists j; split; [lia | reflexivity] | assumption].
Qed.

(** *** One file *)

Definition file_at (q : path) (d : string) (fs : node) : Prop :=
  fs_lookup q fs = Some (File d).

Lemma similar_trans (a b c : option node) : similar a b → similar b c → similar a c.
Proof.
  destruct a as [[|]|], b as [[|]|], c as [[|]|]; cbn; try tauto; congruence.
Qed.

Lemma prefix_snoc_cases (l1 l2 : path) (x : string) :
  l1 `prefix_of` (l2 ++ [x]) → l1 `prefix_of` l2 ∨ l1 = l2 ++ [x].
Proof.
  intros [k Hk]. destruct k as [|y k _] using rev_ind.
  - right. now rewrite app_nil_r in Hk.
  - left. rewrite app_assoc in Hk. apply app_inj_tail in Hk as [-> _]. now exists k.
Qed.

Lemma similar_isdir (p : path) (fs fs' : node) :
  similar (fs_lookup p fs) (fs_lookup p fs') → isdir p fs = true → isdir p fs' = true.
Proof. unfold isdir. intros H%similar_dir. now rewrite H. Qed.

(** A file is no proper prefix of anything that exists. *)
Lemma file_not_prefix (p q : path) (d : string) (fs : node) :
  file_at p d fs → is_Some (fs_lookup q fs) → p ≠ q → ¬ p `prefix_of` q.
Proof.
  intros Hp Hq Hne [k ->]. apply (lookup_below_file _ _ _ _ Hp) in Hq as ->.
  now rewrite app_nil_r in Hne.
Qed.

(** Nothing that exists lies at or below a path that does not. *)
Lemma fresh_not_prefix (p q : path) (fs : node) :
  fs_lookup p fs = None → is_Some (fs_lookup q fs) → ¬ p `prefix_of` q.
Proof.
  intros Hp Hq [k ->]. apply lookup_prefix_Some in Hq as [x Hx]. congruence.
Qed.

(** What moving the file [src] to the fresh path [dst] does to the rest of
    the tree. *)
Lemma move_frame (src dst q : path) (d : string) (fs fs' : node) :
  file_at src d fs → fs_lookup dst fs = None →
  fs_insert dst (File d) (fs_remove src fs) = Some fs' →
  is_Some (fs_lookup q fs) → q ≠ src → ¬ src `prefix_of` q →
  similar (fs_lookup q fs) (fs_lookup q fs').
Proof.
  intros Hsrc Hdst Hins Hq Hne Hpre.
  eapply similar_trans; [apply (remove_similar q src fs Hpre)|].
  eapply insert_similar; [exact Hins|].
  now apply (fresh_not_prefix _ _ fs).
Qed.

Lemma move_file_frame (src dst q : path) (d dq : string) (fs fs' : node) :
  file_at src d fs → fs_lookup dst fs = None →
  fs_insert dst (File d) (fs_remove src fs) = Some fs' →
  file_at q dq fs → q ≠ src → file_at q dq fs'.
Proof.
  intros Hsrc Hdst Hins Hq Hne.
  assert (Hex : is_Some (fs_lookup q fs)) by (unfold file_at in Hq; rewrite Hq; eauto).
  eapply similar_file; [|exact Hq].
  apply (move_frame src dst q d fs fs'); auto.
  apply (file_not_prefix _ _ _ _ Hsrc); [exact Hex | congruence].
Qed.

(** The loop body on a file that is not a temporary one: the file is moved
    to a fresh candidate name in the final directory. *)
Lemma move_one_file (fd root : path) (f d : string) (fs : node) :
  isdir fd fs = true → file_at (root ++ [f]) d fs → is_temp f = false →
  ∃ name fs',
    move_one fd root f fs = Some fs' ∧
    candidate f name ∧
    fs_lookup (fd ++ [name]) fs = None ∧
    fs_insert (fd ++ [name]) (File d) (fs_remove (root ++ [f]) fs) = Some fs'.
Proof.
  intros Hfd Hsrc Htemp. unfold move_one. rewrite Htemp.
  destruct (unique_dst_total fd f fs) as [dst Hdst]. rewrite Hdst.
  apply unique_dst_spec in Hdst as (name & -> & Hcand & Hfresh).
  rewrite removelast_last, (makedirs_idem _ _ Hfd).
  unfold shutil_move. unfold file_at in Hsrc. rewrite Hsrc.
  assert (Hfd' : isdir fd (fs_remove (root ++ [f]) fs) = true).
  { eapply similar_isdir; [|exact Hfd]. apply remove_similar.
    intros Hpre. unfold isdir in Hfd.
    destruct (fs_lookup fd fs) as [[|es]|] eqn:E; try discriminate.
    assert (Heq : root ++ [f] = fd).
    { destruct (decide (root ++ [f] = fd)) as [|Hne]; [assumption|].
      exfalso.
      apply (file_not_prefix (root ++ [f]) fd d fs Hsrc);
        [rewrite E; eauto | exact Hne | exact Hpre]. }
    rewrite Heq in Hsrc. congruence. }
  destruct (insert_succeeds fd name (File d) _ Hfd') as [fs' Hins].
  rewrite Hins. eauto 6.
Qed.

(** *** The loops *)

Fixpoint move_items (fd : path) (items : list (path * string)) (fs : node)
  : option node :=
  match items with
  | [] => Some fs
  | x :: r =>
      match move_one fd (fst x) (snd x) fs with
      | Some fs' => move_items fd r fs'
      | None => None
      end
  end.

Lemma move_items_app (fd : path) (l k : list (path * string)) (fs : node) :
  move_items fd (l ++ k) fs
  = match move_items fd l fs with
    | Some fs' => move_items fd k fs'
    | None => None
    end.
Proof.
  revert fs. induction l as [|x l IH]; intros fs; cbn; [reflexivity|].
  destruct (move_one fd (fst x) (snd x) fs); [apply IH | reflexivity].
Qed.

Lemma move_files_items (fd root : path) (files : list string) (fs : node) :
  move_files fd root files fs = move_items fd (map (pair root) files) fs.
Proof.
  revert fs. induction files as [|f files IH]; intros fs; cbn; [reflexivity|].
  destruct (move_one fd root f fs); [apply IH | reflexivity].
Qed.

Lemma move_dirs_items (fd : path) (ds : list (path * list string)) (fs : node) :
  move_dirs fd ds fs = move_items fd (walk_items ds) fs.
Proof.
  revert fs. induction ds as [|[root files] ds IH]; intros fs; cbn; [reflexivity|].
  unfold walk_items in *. cbn [flat_map fst snd].
  rewrite move_items_app, move_files_items.
  destruct (move_items fd (map (pair root) files) fs); [apply IH | reflexivity].
Qed.

Definition completed (x : path * string) : bool := negb (is_temp (snd x)).

(** What the plan of a relocation says about one file: it went from
    [root/f] to [fd/name]. *)
Definition relocated (fd : path) (fs fs' : node) (e : (path * string) * string)
  : Prop :=
  let '((root, f), name) := e in
  candidate f name ∧
  fs_lookup (fd ++ [name]) fs = None ∧
  ∃ d, file_at (root ++ [f]) d fs ∧ file_at (fd ++ [name]) d fs'.

Lemma move_items_spec (fd wd : path) (items : list (path * string)) :
  ¬ wd `prefix_of` fd →
  ∀ fs,
    isdir fd fs = true → is_Some (fs_lookup wd fs) →
    List.NoDup (map item_path items) →
    (∀ x, In x items → ∃ p d, p ≠ [] ∧ item_path x = wd ++ p ∧ file_at (item_path x) d fs) →
    ∃ fs' plan,
      move_items fd items fs = Some fs' ∧
      isdir fd fs' = true ∧ is_Some (fs_lookup wd fs') ∧
      map fst plan = List.filter completed items ∧
      List.NoDup (map snd plan) ∧
      Forall (relocated fd fs fs') plan ∧
      (∀ q d, file_at q d fs → ¬ In q (map item_path (map fst plan)) → file_at q d fs').
Proof.
  intros Hwdfd. induction items as [|[root f] items IH]; intros fs Hfd Hwd Hnd Hfiles.
  - exists fs, []. repeat split; auto; constructor.
  - cbn [map] in Hnd. inversion Hnd as [|? ? Hx Hnd']; subst.
    destruct (Hfiles (root, f) ltac:(now left)) as (p & d & Hp & Hpath & Hsrc).
    cbn [move_items fst snd]. cbn [List.filter]. unfold completed at 1. cbn [snd].
    destruct (is_temp f) eqn:Htemp; cbn [negb].
    + (* a temporary file stays where it is *)
      unfold move_one. rewrite Htemp.
      apply IH; auto. intros x Hin. apply Hfiles. now right.
    + destruct (move_one_file fd root f d fs Hfd Hsrc Htemp)
        as (name & fs1 & -> & Hcand & Hfresh & Hins).
      set (src := item_path (root, f)) in *.
      change (root ++ [f]) with src in Hins.
      assert (Hsrc_wd : ¬ src `prefix_of` wd).
      { rewrite Hpath. intros [k Hk]. apply (f_equal length) in Hk.
        rewrite !length_app in Hk. destruct p; [congruence | cbn in Hk; lia]. }
      assert (Hsrc_fd : ∀ name', ¬ src `prefix_of` (fd ++ [name'])).
      { intros name' Hpre. apply Hwdfd.
        assert (Hw : wd `prefix_of` (fd ++ [name'])).
        { destruct Hpre as [k Hk]. rewrite Hk, Hpath, <- app_assoc. now eexists. }
        apply prefix_snoc_cases in Hw as [Hw | Hw]; [assumption|].
        exfalso. destruct Hpre as [k Hk]. rewrite Hpath, <- Hw, <- app_assoc in Hk.
        apply (f_equal length) in Hk. rewrite !length_app in Hk.
        destruct p; [congruence | cbn in Hk; lia]. }
      assert (Hfd1 : isdir fd fs1 = true).
      { eapply similar_isdir; [|exact Hfd].
        apply (move_frame src (fd ++ [name]) fd d fs fs1); auto.
        - unfold isdir in Hfd. destruct (fs_lookup fd fs); [eauto | discriminate].
        - intros ->. unfold isdir in Hfd. unfold file_at in Hsrc.
          rewrite Hsrc in Hfd. discriminate.
        - intros Hpre. apply (Hsrc_fd name). destruct Hpre as [k ->].
          rewrite <- app_assoc. now eexists. }
      assert (Hwd1 : is_Some (fs_lookup wd fs1)).
      { eapply similar_Some; [|exact Hwd].
        apply (move_frame src (fd ++ [name]) wd d fs fs1); auto.
        intros ->. apply Hsrc_wd. reflexivity. }
      destruct (IH fs1 Hfd1 Hwd1 Hnd') as (fs' & plan & Hrun & Hfd' & Hwd' & Hplan & Hnames & Hrel & Hframe).
      { intros x Hin. destruct (Hfiles x ltac:(now right)) as (p' & d' & Hp' & Hpath' & Hx').
        exists p', d'. repeat split; auto.
        apply (move_file_frame src (fd ++ [name]) _ d d' fs fs1); auto.
        intros Heq. apply Hx. rewrite <- Heq. now apply in_map. }
      assert (Hnew1 : file_at (fd ++ [name]) d fs1) by (eapply lookup_insert, Hins).
      assert (Hsrcs : ∀ x, In x (map fst plan) → In x items).
      { intros x Hin. rewrite Hplan in Hin. now apply filter_In in Hin as [Hin _]. }
      exists fs', (((root, f), name) :: plan).
      split; [exact Hrun|]. split; [exact Hfd'|]. split; [exact Hwd'|].
      split; [cbn; now rewrite Hplan|].
      split; [|split].
      * cbn. constructor; [|exact Hnames].
        intros (e & Hname & Hin)%in_map_iff.
        rewrite List.Forall_forall in Hrel. specialize (Hrel e Hin).
        destruct e as [[root' f'] name']. cbn in Hname. subst name'.
        destruct Hrel as (_ & Hfr & _). unfold file_at in Hnew1. congruence.
      * constructor.
        -- cbn. split; [exact Hcand|]. split; [exact Hfresh|]. exists d.
           split; [exact Hsrc|]. apply Hframe; [exact Hnew1|].
           intros (x & Hxp & Hin%Hsrcs)%in_map_iff.
           destruct (Hfiles x ltac:(now right)) as (_ & dx & _ & _ & Hfx).
           unfold file_at in Hfx. rewrite Hxp in Hfx. congruence.
        -- rewrite List.Forall_forall in Hrel |- *. intros [[root' f'] name'] Hin.
           destruct (Hrel _ Hin) as (Hc' & Hfr' & d' & Hs' & Hd').
           assert (Hin' : In (root', f') items).
           { apply Hsrcs. now apply (in_map fst) in Hin. }
           destruct (Hfiles (root', f') ltac:(now right)) as (_ & d0 & _ & _ & Hf0).
           assert (Hne : item_path (root', f') ≠ src).
           { intros Heq. apply Hx. rewrite <- Heq. now apply in_map. }
           pose proof (move_file_frame src (fd ++ [name]) _ d d0 fs fs1
                         Hsrc Hfresh Hins Hf0 Hne) as Hf1.
           change (root' ++ [f']) with (item_path (root', f')) in Hs'.
           unfold file_at in Hs', Hf1. rewrite Hf1 in Hs'. injection Hs' as <-.
           cbn. split; [exact Hc'|]. split.
           ++ destruct (fs_lookup (fd ++ [name']) fs) as [n0|] eqn:E; [|reflexivity].
              exfalso.
              assert (Hs1 : is_Some (fs_lookup (fd ++ [name']) fs1)).
              { apply (similar_Some (fs_lookup (fd ++ [name']) fs)); [|rewrite E; eauto].
                apply (move_frame src (fd ++ [name]) (fd ++ [name']) d fs fs1); auto.
                intros Heq. apply (Hsrc_fd name'). rewrite Heq. reflexivity. }
              rewrite Hfr' in Hs1. now destruct Hs1.
           ++ exists d0. split; [exact Hf0 | exact Hd'].
      * intros q dq Hq Hnot. apply Hframe.
        -- apply (move_file_frame src (fd ++ [name]) q d dq fs fs1); auto.
           intros ->. apply Hnot. cbn. now left.
        -- intros Hin. apply Hnot. cbn. now right.
Qed.

(** *** The reconciler *)

Lemma staged_items (wd : path) (staging : node) (x : path * string) :
  wf staging = true → In x (walk_items (walk wd staging)) →
  ∃ p d, p ≠ [] ∧ item_path x = wd ++ p ∧ fs_lookup p staging = Some (File d).
Proof.
  intros Hwf Hin. apply (in_map item_path) in Hin.
  rewrite walk_items_paths in Hin. apply in_map_iff in Hin as (p & <- & Hp).
  destruct (rel_files_lookup p staging Hwf Hp) as [d Hd].
  exists p, d. split; [|split; [reflexivity | exact Hd]].
  intros ->. now apply rel_files_nonempty in Hp.
Qed.

(** C2, amended: for a staging directory that exists (with distinct entry
    names in every directory) and a final directory that can be made and
    does not lie inside it, the reconciler returns, and afterwards
    - the staging directory no longer exists;
    - every regular file of the staging tree, at whatever depth, whose name
      does not end in a temporary suffix is in the plan;
    - each file in the plan is now a file of the final directory itself,
      with its content, under its own name or its name with a number put
      before the extension, a name that was free before;
    - no two files got the same name;
    - the files outside the staging directory are as they were. *)
Theorem move_completed_relocates (wd fd : path) (fs staging : node) :
  fs_lookup wd fs = Some staging → isdir wd fs = true → wf staging = true →
  ¬ wd `prefix_of` fd → is_Some (makedirs fd fs) →
  ∃ fs' plan,
    _move_completed_to_final (Some wd) (Some fd) fs = Some fs' ∧
    fs_lookup wd fs' = None ∧
    (∀ rel f d, file_at (wd ++ rel ++ [f]) d fs → is_temp f = false →
                ∃ name, In ((wd ++ rel, f), name) plan) ∧
    Forall (relocated fd fs fs') plan ∧
    List.NoDup (map snd plan) ∧
    (∀ q d, file_at q d fs → ¬ wd `prefix_of` q → file_at q d fs').
Proof.
  intros Hwd Hdir Hwf Hwdfd [fs1 Hmk].
  assert (Hwd_ne : wd ≠ []) by (intros ->; apply Hwdfd, prefix_nil).
  assert (Hwd1 : fs_lookup wd fs1 = Some staging).
  { rewrite (makedirs_lookup _ _ _ _ Hmk Hwdfd). exact Hwd. }
  assert (Hunder : ∀ p, fs_lookup (wd ++ p) fs1 = fs_lookup (wd ++ p) fs).
  { intros p. now rewrite !lookup_app, Hwd, Hwd1. }
  assert (Hfd_fresh : ∀ name, fs_lookup (fd ++ [name]) fs1 = fs_lookup (fd ++ [name]) fs).
  { intros name. apply (makedirs_lookup _ _ _ _ Hmk).
    intros [k Hk]. apply (f_equal length) in Hk. rewrite !length_app in Hk. cbn in Hk. lia. }
  set (items := walk_items (walk wd staging)).
  destruct (move_items_spec fd wd items Hwdfd fs1) as
    (fs2 & plan & Hrun & Hfd2 & Hwd2 & Hplan & Hnames & Hrel & Hframe).
  { eapply makedirs_isdir, Hmk. }
  { rewrite Hwd1. eauto. }
  { subst items. rewrite walk_items_paths.
    apply NoDup_map_inj; [intros x y; apply app_inv_head | now apply rel_files_NoDup]. }
  { intros x Hin. destruct (staged_items wd staging x Hwf Hin) as (p & d & Hp & Hpath & Hd).
    exists p, d. split; [exact Hp|]. split; [exact Hpath|].
    unfold file_at. now rewrite Hpath, lookup_app, Hwd1. }
  assert (Hsrcs : ∀ x, In x (map fst plan) →
            ∃ p d, p ≠ [] ∧ item_path x = wd ++ p ∧ fs_lookup p staging = Some (File d)).
  { intros x Hin. rewrite Hplan in Hin. apply filter_In in Hin as [Hin _].
    now apply staged_items. }
  exists (fs_remove wd fs2), plan.
  split; [|split; [|split; [|split; [|split]]]].
  - unfold _move_completed_to_final. rewrite Hdir, Hmk. cbn [negb].
    unfold os_walk. rewrite Hwd1, move_dirs_items. fold items. now rewrite Hrun.
  - now apply lookup_remove.
  - intros rel f d Hfile Htemp. unfold file_at in Hfile.
    rewrite lookup_app, Hwd in Hfile.
    apply lookup_rel_files in Hfile; [|now destruct rel].
    assert (Hin : In (wd ++ rel ++ [f]) (map item_path items)).
    { subst items. rewrite walk_items_paths. now apply in_map. }
    apply in_map_iff in Hin as ([root f'] & Hpath & Hin).
    unfold item_path in Hpath. cbn [fst snd] in Hpath.
    rewrite app_assoc in Hpath. apply app_inj_tail in Hpath as [-> ->].
    assert (Hin' : In (wd ++ rel, f) (map fst plan)).
    { rewrite Hplan. apply filter_In. split; [exact Hin|].
      unfold completed. cbn. now rewrite Htemp. }
    apply in_map_iff in Hin' as ([x name] & Hx & Hin'). cbn in Hx. subst x. eauto.
  - rewrite List.Forall_forall in Hrel |- *. intros [[root f] name] Hin.
    destruct (Hrel _ Hin) as (Hc & Hfr & d & Hs & Hd).
    destruct (Hsrcs (root, f)) as (p & d0 & Hp & Hpath & Hd0);
      [now apply (in_map fst) in Hin|].
    unfold item_path in Hpath. cbn [fst snd] in Hpath.
    cbn. split; [exact Hc|]. split; [now rewrite <- Hfd_fresh|].
    exists d. split.
    + unfold file_at in *. now rewrite Hpath, <- Hunder, <- Hpath.
    + eapply similar_file; [|exact Hd]. apply remove_similar.
      intros [Hpre | Heq]%prefix_snoc_cases; [contradiction|].
      rewrite Heq, Hfr in Hwd1. discriminate.
  - exact Hnames.
  - intros q d Hq Hpre.
    assert (Hq1 : file_at q d fs1).
    { unfold file_at. rewrite (makedirs_lookup _ _ _ _ Hmk); [exact Hq|].
      eapply makedirs_file; eauto. }
    eapply similar_file; [apply remove_similar, Hpre|].
    apply Hframe; [exact Hq1|].
    intros (x & Hx & Hin)%in_map_iff.
    destruct (Hsrcs x Hin) as (p & _ & _ & Hpath & _).
    apply Hpre. rewrite <- Hx, Hpath. now eexists.
Qed.

(** The staging tree of the examples: a finished file in a subfolder, one at
    the top that is already in the final directory under the same name, and
    a partial download. *)
Definition fs_ex : node :=
  Dir [("videos",
        Dir [("clip.mp4", File "old clip");
             ("_tmp",
              Dir [("0123456789ab",
                    Dir [("clip.mp4", File "new clip");
                         ("song.mp3.part", File "half a song");
                         ("extras", Dir [("intro.mp4", File "intro")])])])])].

Definition wd_ex : path := ["videos"; "_tmp"; "0123456789ab"].
Definition fd_ex : path := ["videos"].

(** C2, as stated, fails: the file [extras/intro.mp4] of the staging tree
    does not keep its subfolder; it becomes [intro.mp4] in the final
    directory itself, and no folder [extras] is made there. *)
Lemma move_completed_counterexample :
  ∃ fs', _move_completed_to_final (Some wd_ex) (Some fd_ex) fs_ex = Some fs' ∧
         fs_lookup (fd_ex ++ ["extras"; "intro.mp4"]) fs' = None ∧
         fs_lookup (fd_ex ++ ["extras"]) fs' = None ∧
         fs_lookup (fd_ex ++ ["intro.mp4"]) fs' = Some (File "intro") ∧
         fs_lookup (fd_ex ++ ["clip.mp4"]) fs' = Some (File "old clip") ∧
         fs_lookup (fd_ex ++ ["clip (1).mp4"]) fs' = Some (File "new clip") ∧
         fs_lookup wd_ex fs' = None.
Proof. eexists. split; [vm_compute; reflexivity|]. repeat split. Qed.

Lemma move_completed_relocates_witness :
  ∃ fs', _move_completed_to_final (Some wd_ex) (Some fd_ex) fs_ex = Some fs' ∧
         fs_lookup wd_ex fs' = None.
Proof.
  assert (Hwd : fs_lookup wd_ex fs_ex
                = Some (Dir [("clip.mp4", File "new clip");
                             ("song.mp3.part", File "half a song");
                             ("extras", Dir [("intro.mp4", File "intro")])]))
    by reflexivity.
  assert (Hpre : ¬ wd_ex `prefix_of` fd_ex).
  { intros [k Hk]. discriminate. }
  assert (Hmk : is_Some (makedirs fd_ex fs_ex)) by (vm_compute; eauto).
  destruct (move_completed_relocates wd_ex fd_ex fs_ex _ Hwd eq_refl eq_refl Hpre Hmk)
    as (fs' & plan & Hrun & Hgone & _).
  exists fs'. split; [exact Hrun | exact Hgone].
Defined.

(** *** More on the reconciler *)

Lemma unique_dst_loop_least (fuel : nat) (fs : node) (fd : path) (base ext : string)
    (n : Z) (cand dst : path) :
  unique_dst_loop fuel fs fd base ext n cand = Some dst →
  (exists_ cand fs = false ∧ dst = cand) ∨
  (exists_ cand fs = true ∧
   ∃ m, n ≤ m ∧ dst = fd ++ [numbered base ext m] ∧
        ∀ j, n ≤ j < m → exists_ (fd ++ [numbered base ext j]) fs = true).
Proof.
  revert n cand. induction fuel as [|fuel IH]; intros n cand; cbn.
  - destruct (exists_ cand fs) eqn:E; [discriminate|]. intros [= <-]. now left.
  - destruct (exists_ cand fs) eqn:E; [|intros [= <-]; now left].
    intros H. right. split; [reflexivity|].
    destruct (IH _ _ H) as [[Hfree ->] | (Htaken & m & Hm & -> & Hall)].
    + exists n. split; [lia|]. split; [reflexivity|]. intros j Hj. lia.
    + exists m. split; [lia|]. split; [reflexivity|].
      intros j Hj. destruct (decide (j = n)) as [->|Hne]; [exact Htaken|].
      apply Hall. lia.
Qed.

(** X17: [_unique_dst] always returns.  The path it returns is in the
    destination directory and does not exist; it is the file name itself when
    that is free, and otherwise the name with the least number [n >= 1] put
    between its base and its extension for which the name is free. *)
Theorem unique_dst_least (fd : path) (f : string) (fs : node) :
  let base := fst (splitext f) in
  let ext := snd (splitext f) in
  ∃ name,
    _unique_dst fd f fs = Some (fd ++ [name]) ∧
    exists_ (fd ++ [name]) fs = false ∧
    base +:+ ext = f ∧
    ((exists_ (fd ++ [f]) fs = false ∧ name = f) ∨
     (exists_ (fd ++ [f]) fs = true ∧
      ∃ n, 1 ≤ n ∧ name = numbered base ext n ∧
           ∀ j, 1 ≤ j < n → exists_ (fd ++ [numbered base ext j]) fs = true)).
Proof.
  cbv zeta. destruct (unique_dst_total fd f fs) as [dst Hdst].
  pose proof Hdst as Hloop. unfold _unique_dst in Hloop.
  destruct (splitext f) as [base ext] eqn:Hsplit. cbn [fst snd].
  pose proof (unique_dst_loop_Some _ _ _ _ _ _ _ _ Hloop) as [Hfree _].
  apply splitext_app in Hsplit as [Happ _].
  apply unique_dst_loop_least in Hloop
    as [[Hf ->] | (Htaken & m & Hm & -> & Hall)].
  - exists f. rewrite Hdst. repeat split; auto.
  - exists (numbered base ext m). rewrite Hdst. repeat split; auto.
    right. split; [exact Htaken|]. exists m. repeat split; auto.
Qed.

(** X18: the reconciler does nothing when the staging directory is not
    there: the file system is returned as it is, and the final directory is
    not even made.  So a second run after a first one changes nothing: the
    first has removed the staging directory. *)
Theorem move_completed_idempotent (wd fd : path) (fs : node) :
  (isdir wd fs = false → _move_completed_to_final (Some wd) (Some fd) fs = Some fs) ∧
  (∀ fs', wd ≠ [] →
          _move_completed_to_final (Some wd) (Some fd) fs = Some fs' →
          _move_completed_to_final (Some wd) (Some fd) fs' = Some fs').
Proof.
  assert (Hnoop : ∀ fs0, isdir wd fs0 = false →
                         _move_completed_to_final (Some wd) (Some fd) fs0 = Some fs0).
  { intros fs0 H. unfold _move_completed_to_final. now rewrite H. }
  split; [apply Hnoop|].
  intros fs' Hwd Hrun. apply Hnoop.
  unfold _move_completed_to_final in Hrun.
  destruct (isdir wd fs) eqn:Hdir; cbn [negb] in Hrun.
  - destruct (makedirs fd fs) as [fs1|]; [|discriminate].
    destruct (move_dirs fd (os_walk wd fs1) fs1) as [fs2|]; [|discriminate].
    injection Hrun as <-. unfold isdir. now rewrite lookup_remove.
  - now injection Hrun as <-.
Qed.

Lemma move_completed_idempotent_witness :
  ∃ fs', _move_completed_to_final (Some wd_ex) (Some fd_ex) fs_ex = Some fs' ∧
         _move_completed_to_final (Some wd_ex) (Some fd_ex) fs' = Some fs'.
Proof.
  eexists. split; [vm_compute; reflexivity|].
  apply (proj2 (move_completed_idempotent wd_ex fd_ex fs_ex));
    [discriminate | vm_compute; reflexivity].
Defined.

End FSFacts.

(** * Further properties *)

(** ** ANSI colour sequences *)

(** A colour sequence: [ESC], an opening bracket, parameters (digits and
    semicolons) and the letter [m]. *)
Definition sgr (params : list ascii) : list ascii :=
  ESC :: "["%char :: params ++ ["m"%char].

Lemma is_param_not_m (c : ascii) : is_param c = true → Ascii.eqb c "m" = false.
Proof.
  destruct (Ascii.eqb c "m") eqn:E; [|reflexivity].
  apply Ascii.eqb_eq in E as ->. vm_compute. discriminate.
Qed.

Lemma strip_ansi_go_params (buf params rest : list ascii) :
  forallb is_param params = true →
  strip_ansi_go (InParams buf) (params ++ "m"%char :: rest) = strip_ansi_go Plain rest.
Proof.
  revert buf. induction params as [|c params IH]; intros buf; cbn [forallb app].
  - intros _. reflexivity.
  - intros [Hc Hp]%andb_true_iff. cbn [strip_ansi_go]. rewrite Hc. now apply IH.
Qed.

Lemma strip_ansi_go_cons (st : ansi_state) (c : ascii) (r : list ascii) :
  strip_ansi_go st (c :: r)
  = let restart :=
      ansi_flush st ++
      (if Ascii.eqb c ESC then strip_ansi_go SawEsc r
       else c :: strip_ansi_go Plain r) in
    match st with
    | Plain => restart
    | SawEsc => if Ascii.eqb c "[" then strip_ansi_go (InParams []) r else restart
    | InParams buf =>
        if is_param c then strip_ansi_go (InParams (c :: buf)) r
        else if Ascii.eqb c "m" then strip_ansi_go Plain r
        else restart
    end.
Proof. reflexivity. Qed.

Lemma strip_ansi_go_sgr (st : ansi_state) (params rest : list ascii) :
  forallb is_param params = true →
  strip_ansi_go st (sgr params ++ rest) = ansi_flush st ++ strip_ansi_go Plain rest.
Proof.
  intros Hp. unfold sgr. cbn [app]. rewrite <- app_assoc. cbn [app].
  assert (Hgo : strip_ansi_go SawEsc ("["%char :: params ++ "m"%char :: rest)
                = strip_ansi_go Plain rest).
  { rewrite strip_ansi_go_cons. cbv zeta. rewrite Ascii.eqb_refl.
    now apply strip_ansi_go_params. }
  rewrite strip_ansi_go_cons. cbv zeta. rewrite Ascii.eqb_refl, Hgo.
  destruct st as [| |buf]; reflexivity.
Qed.

Lemma strip_ansi_go_app_sgr (st : ansi_state) (p params rest : list ascii) :
  forallb is_param params = true →
  strip_ansi_go st (p ++ sgr params ++ rest)
  = strip_ansi_go st p ++ strip_ansi_go Plain rest.
Proof.
  intros Hp. revert st. induction p as [|c p IH]; intros st.
  - cbn [app]. rewrite strip_ansi_go_sgr by assumption. reflexivity.
  - cbn [app]. rewrite !strip_ansi_go_cons. cbv zeta.
    assert (Hr : ansi_flush st ++
                 (if Ascii.eqb c ESC then strip_ansi_go SawEsc (p ++ sgr params ++ rest)
                  else c :: strip_ansi_go Plain (p ++ sgr params ++ rest))
                 = (ansi_flush st ++
                    (if Ascii.eqb c ESC then strip_ansi_go SawEsc p
                     else c :: strip_ansi_go Plain p)) ++ strip_ansi_go Plain rest).
    { rewrite <- app_assoc. f_equal. destruct (Ascii.eqb c ESC); rewrite IH; reflexivity. }
    destruct st as [| |buf].
    + exact Hr.
    + destruct (Ascii.eqb c "["); [apply IH | exact Hr].
    + destruct (is_param c); [apply IH|].
      destruct (Ascii.eqb c "m"); [apply IH | exact Hr].
Qed.

(** Text without [ESC] goes through the scanner unchanged. *)
Lemma strip_ansi_go_plain (s : list ascii) :
  forallb (λ c, negb (Ascii.eqb c ESC)) s = true → strip_ansi_go Plain s = s.
Proof.
  induction s as [|c s IH]; cbn [forallb]; [reflexivity|].
  intros [Hc Hs]%andb_true_iff. apply negb_true_iff in Hc.
  rewrite strip_ansi_go_cons. cbv zeta. rewrite Hc. cbn [ansi_flush app].
  now rewrite IH.
Qed.

(** X1: [strip_ansi] takes a colour sequence out of the middle of any text:
    what is left is what it leaves of the text before, followed by what it
    leaves of the text after. *)
Theorem strip_ansi_removes_sequence (before after : string) (params : list ascii) :
  forallb is_param params = true →
  strip_ansi (Some (before +:+ str (sgr params) +:+ after))
  = strip_ansi (Some before) +:+ strip_ansi (Some after).
Proof.
  intros Hp. unfold strip_ansi.
  rewrite !chars_app, chars_str, strip_ansi_go_app_sgr by assumption.
  apply chars_inj. now rewrite chars_app, !chars_str.
Qed.

Lemma strip_ansi_removes_sequence_witness :
  strip_ansi (Some ("1.5" +:+ str (sgr (chars "0;32")) +:+ "MiB/s")) = "1.5MiB/s".
Proof.
  exact (strip_ansi_removes_sequence "1.5" "MiB/s" (chars "0;32") eq_refl).
Defined.

(** X2: a text that holds no [ESC] character is returned as it is, and
    [None] gives the empty string. *)
Theorem strip_ansi_plain (s : string) :
  forallb (λ c, negb (Ascii.eqb c ESC)) (chars s) = true →
  strip_ansi (Some s) = s ∧ strip_ansi None = EmptyString.
Proof.
  intros H. split; [|reflexivity]. unfold strip_ansi.
  rewrite strip_ansi_go_plain by assumption. apply str_chars.
Qed.

Lemma strip_ansi_plain_witness : strip_ansi (Some "00:12") = "00:12".
Proof. exact (proj1 (strip_ansi_plain "00:12" eq_refl)). Defined.

(** ** Durations and sizes *)

Lemma app_nonempty_r (a b : string) : b ≠ EmptyString → a +:+ b ≠ EmptyString.
Proof.
  intros Hb H. apply Hb. destruct a; [exact H | discriminate].
Qed.

(** X3: [humanize_seconds] of a value that is present is never the empty
    string, so that the hook falls back on [_eta_str] only when the event
    carries no [eta]. *)
Theorem humanize_seconds_nonempty (v : num) (eta_str : option string) :
  humanize_seconds (Some v) ≠ EmptyString ∧
  str_or (humanize_seconds (Some v)) (strip_ansi eta_str) = humanize_seconds (Some v) ∧
  str_or (humanize_seconds None) (strip_ansi eta_str) = strip_ansi eta_str.
Proof.
  assert (H : humanize_seconds (Some v) ≠ EmptyString).
  { unfold humanize_seconds.
    destruct (if num_positive v then _ else _) as [s|e].
    - destruct (negb (s / 3600 =? 0)); [|destruct (negb (s mod 3600 / 60 =? 0))];
        repeat apply app_nonempty_r; discriminate.
    - vm_compute. discriminate. }
  split; [exact H|]. split; [|reflexivity].
  destruct (humanize_seconds (Some v)); [congruence | reflexivity].
Qed.

(** X4: a whole number of seconds is shown with the units it needs: below
    a minute the seconds alone, below an hour minutes and seconds, else hours,
    minutes and seconds; a negative number counts as zero. *)
Theorem humanize_seconds_int (z : Z) :
  (z ≤ 0 → humanize_seconds (Some (NInt z)) = "0s") ∧
  (0 < z < 60 → humanize_seconds (Some (NInt z)) = pretty z +:+ "s") ∧
  (60 ≤ z < 3600 →
     humanize_seconds (Some (NInt z))
     = pretty (z / 60) +:+ "m " +:+ pretty (z mod 60) +:+ "s") ∧
  (3600 ≤ z →
     humanize_seconds (Some (NInt z))
     = pretty (z / 3600) +:+ "h " +:+ pretty (z mod 3600 / 60) +:+ "m " +:+
       pretty (z mod 60) +:+ "s").
Proof.
  unfold humanize_seconds, num_positive. repeat split.
  - intros H. replace (0 <? z) with false by (symmetry; apply Z.ltb_ge; lia).
    reflexivity.
  - intros H. replace (0 <? z) with true by (symmetry; apply Z.ltb_lt; lia).
    rewrite (Z.div_small z 3600), (Z.mod_small z 3600), (Z.div_small z 60),
      (Z.mod_small z 60) by lia.
    reflexivity.
  - intros H. replace (0 <? z) with true by (symmetry; apply Z.ltb_lt; lia).
    rewrite (Z.div_small z 3600), (Z.mod_small z 3600) by lia.
    cbn [Z.eqb negb].
    replace (z / 60 =? 0) with false; [reflexivity|].
    symmetry. apply Z.eqb_neq. intros H0.
    apply Z.div_small_iff in H0; lia.
  - intros H. replace (0 <? z) with true by (symmetry; apply Z.ltb_lt; lia).
    replace (z / 3600 =? 0) with false; [reflexivity|].
    symmetry. apply Z.eqb_neq. intros H0.
    apply Z.div_small_iff in H0; lia.
Qed.

Lemma humanize_seconds_int_witness :
  humanize_seconds (Some (NInt 3725)) = "1h 2m 5s".
Proof.
  exact (proj2 (proj2 (proj2 (humanize_seconds_int 3725))) ltac:(lia)).
Defined.

(** [n] divided [k] times by 1024. *)
Definition scaled (k : nat) (n : float) : float :=
  Nat.iter k (λ x, (x / 1024)%float) n.

(** X5: [humanize_bytes] always ends in one of the five units: the value is
    divided by 1024 until it is below 1024 or the unit is [TiB], and is shown
    with two decimals; the statement after the loop is never reached. *)
Theorem humanize_bytes_unit (n : float) :
  ∃ (k : nat) (unit : string),
    units !! k = Some unit ∧
    humanize_bytes n = format_fixed 2 (scaled k n) +:+ " " +:+ unit ∧
    (∀ j, (j < k)%nat → (scaled j n <? 1024)%float = false) ∧
    (unit ≠ "TiB" → (scaled k n <? 1024)%float = true).
Proof.
  unfold humanize_bytes, units. cbn [humanize_bytes_go String.eqb Ascii.eqb Bool.eqb orb].
  destruct (n <? 1024)%float eqn:E0.
  { exists 0%nat, "B". repeat split; [lia | auto]. }
  rewrite orb_false_r.
  destruct (n / 1024 <? 1024)%float eqn:E1.
  { exists 1%nat, "KiB". repeat split; [|auto].
    intros j Hj. assert (j = 0%nat) as -> by lia. exact E0. }
  rewrite orb_false_r.
  destruct (n / 1024 / 1024 <? 1024)%float eqn:E2.
  { exists 2%nat, "MiB". repeat split; [|auto].
    intros j Hj. destruct j as [|[|j]]; [exact E0 | exact E1 | lia]. }
  rewrite orb_false_r.
  destruct (n / 1024 / 1024 / 1024 <? 1024)%float eqn:E3.
  { exists 3%nat, "GiB". repeat split; [|auto].
    intros j Hj. destruct j as [|[|[|j]]]; [exact E0 | exact E1 | exact E2 | lia]. }
  rewrite orb_true_r.
  exists 4%nat, "TiB". repeat split; [|congruence].
  intros j Hj. destruct j as [|[|[|[|j]]]]; [exact E0 | exact E1 | exact E2 | exact E3 | lia].
Qed.

(** ** Folder names, again *)

(** [strip] leaves what it returns alone. *)
Lemma strip_strip (s : list ascii) : strip (strip s) = strip s.
Proof.
  unfold strip. set (a := lstrip s).
  assert (Ha : unled whitespace a).
  { subst a. unfold lstrip. now apply lstrip_tokens_unled; [apply whitespace_nonempty|]. }
  unfold rstrip at 2.
  set (c := lstrip_tokens (map (@rev ascii) whitespace) (length a) (rev a)).
  assert (Hc : unled (map (@rev ascii) whitespace) c).
  { subst c. apply lstrip_tokens_unled; [apply rev_whitespace_nonempty|].
    now rewrite length_rev. }
  destruct (lstrip_tokens_suffix (map (@rev ascii) whitespace) (length a) (rev a))
    as [pre Hpre]. fold c in Hpre.
  assert (Hb : unled whitespace (rev c)).
  { apply (unled_prefix whitespace (rev c) (rev pre)).
    now rewrite <- rev_app_distr, <- Hpre, rev_involutive. }
  unfold lstrip. rewrite (lstrip_tokens_id whitespace _ _ Hb).
  unfold rstrip. rewrite rev_involutive.
  now rewrite (lstrip_tokens_id _ _ _ Hc).
Qed.

(** X30: [safe_folder] leaves the names it returns alone: a name that has
    been made safe stays as it is when it is made safe again. *)
Theorem safe_folder_idempotent (name : string) :
  safe_folder (safe_folder name) = safe_folder name.
Proof.
  set (t := strip (sub_reserved false (chars name))).
  assert (Hsf : safe_folder name = str_or (str t) "Untitled") by reflexivity.
  rewrite Hsf. destruct (str t) as [|c r] eqn:Et; [reflexivity|].
  cbn [str_or]. rewrite <- Et. unfold safe_folder. rewrite chars_str.
  assert (Hclean : sub_reserved false t = t).
  { apply sub_reserved_id, forallb_forall. intros x Hx. apply negb_true_iff.
    eapply sub_reserved_clean, strip_incl, Hx. }
  rewrite Hclean. subst t. rewrite strip_strip.
  now rewrite Et.
Qed.

(** ** The default buckets *)

(** X29: a directory [_resolve_root_dir] returns is one that could be made,
    and it raises only when the storage directory cannot be made, with the
    error of that attempt.  Without a directory from the user (none, or the
    empty string) the root is the bucket of the media type, [Yt_videos] for
    [video] and [Yt_audios] for anything else, in the default download
    directory, whenever that bucket can be made; and the default download
    directory is [Downloads] in the user's home, or the storage directory. *)
Theorem resolve_root_dir_made (env : Env) (user_dir : option string)
    (media_type : string) :
  match _resolve_root_dir env user_dir media_type with
  | Ok root => makedirs_error env root = None
  | Raise e =>
      ∃ msg, makedirs_error env (STORAGE_DIR env) = Some msg ∧ e = PyException msg
  end ∧
  (user_dir = None ∨ user_dir = Some EmptyString →
   let bucket := Path.join (DEFAULT_DL env)
                   (if String.eqb media_type "video" then "Yt_videos" else "Yt_audios") in
   makedirs_error env bucket = None →
   _resolve_root_dir env user_dir media_type = Ok bucket) ∧
  (DEFAULT_DL env = Path.join (Path.expanduser (home env) "~") "Downloads" ∨
   DEFAULT_DL env = STORAGE_DIR env).
Proof.
  split; [|split].
  - unfold _resolve_root_dir, os_makedirs.
    match goal with
    | |- context [makedirs_error env ?r] =>
        lazymatch r with
        | STORAGE_DIR env => fail
        | _ => destruct (makedirs_error env r) eqn:Hr
        end
    end.
    + destruct (makedirs_error env (STORAGE_DIR env)) eqn:Hs; [eauto | exact Hs].
    + exact Hr.
  - intros Hud bucket Hmk. unfold _resolve_root_dir, os_makedirs.
    assert (Hroot : match user_dir with
                    | Some (String _ _ as ud) =>
                        let ud' := Path.expanduser (home env) ud in
                        if Path.isabs ud' then ud' else Path.join (STORAGE_DIR env) ud'
                    | _ => if String.eqb media_type "video" then DEFAULT_VID_BUCKET env
                           else DEFAULT_AUD_BUCKET env
                    end = bucket).
    { subst bucket. unfold DEFAULT_VID_BUCKET, DEFAULT_AUD_BUCKET.
      destruct Hud as [-> | ->]; now destruct (String.eqb media_type "video"). }
    cbv zeta in Hroot. rewrite Hroot, Hmk. reflexivity.
  - unfold DEFAULT_DL, user_downloads_dir, os_makedirs.
    destruct (makedirs_error env (Path.join _ "Downloads")); [|now left].
    destruct (makedirs_error env (STORAGE_DIR env)); now right.
Qed.

Lemma resolve_root_dir_made_witness :
  _resolve_root_dir env_ex None "audio" = Ok "/home/u/Downloads/Yt_audios".
Proof.
  exact (proj1 (proj2 (resolve_root_dir_made env_ex None "audio"))
           (or_introl eq_refl) eq_refl).
Defined.

(** ** Creating and cancelling jobs *)

Lemma record_keys_NoDup : NoDup record_keys.
Proof. apply (bool_decide_unpack _). vm_compute. exact I. Qed.

(** X6: [create_job] returns the id it drew and registers under it a record
    that is [queued], not cancelled and not terminal, with the resolved root
    directory, the bitrate [best] when none was given and no selection when
    none was given; the records of the other jobs are untouched.  It raises
    only when the root directory cannot be resolved. *)
Theorem create_job_registers (env : Env) (job_id : string) (now : Z)
    (url media_type : string) (video_height : option Z)
    (audio_bitrate : option string) (selected_urls : option (list string))
    (output_dir : option string) (J : registry) :
  match _resolve_root_dir env output_dir media_type with
  | Raise e =>
      create_job env job_id now url media_type video_height audio_bitrate
        selected_urls output_dir J = Raise e
  | Ok root =>
      ∃ J' j,
        create_job env job_id now url media_type video_height audio_bitrate
          selected_urls output_dir J = Ok (job_id, J') ∧
        get_job job_id J' = Some j ∧
        j !! "jobId" = Some (PStr job_id) ∧
        j !! "url" = Some (PStr url) ∧
        j !! "mediaType" = Some (PStr media_type) ∧
        j !! "rootDir" = Some (PStr root) ∧
        j !! "status" = Some (PStr "queued") ∧
        j !! "_cancel" = Some (PBool false) ∧
        j !! "audioBitrate"
          = Some (PStr match audio_bitrate with
                       | Some (String _ _ as b) => b
                       | _ => "best"
                       end) ∧
        j !! "selectedUrls" = Some (PList (default [] selected_urls)) ∧
        terminal j = false ∧
        (∀ id', id' ≠ job_id → get_job id' J' = get_job id' J)
  end.
Proof.
  unfold create_job. destruct (_resolve_root_dir env output_dir media_type) as [root|e];
    [|reflexivity].
  match goal with
  | |- context [<[job_id := ?r]> J] => set (rec := r)
  end.
  exists (<[job_id := rec]> J), rec. split; [reflexivity|]. unfold get_job.
  split; [apply lookup_insert_eq|].
  assert (Hk : ∀ k v,
            In (k, v)
              [ ("jobId", PStr job_id); ("url", PStr url); ("mediaType", PStr media_type);
                ("rootDir", PStr root); ("status", PStr "queued");
                ("_cancel", PBool false);
                ("audioBitrate", PStr (str_or (default EmptyString audio_bitrate) "best"));
                ("selectedUrls", PList (default [] selected_urls)) ] →
            rec !! k = Some v).
  { intros k v Hin. subst rec. apply elem_of_list_to_map_1.
    - exact record_keys_NoDup.
    - apply list_elem_of_In. cbn in Hin |- *. intuition congruence. }
  clearbody rec.
  assert (Hst := Hk "status" _ ltac:(cbn; tauto)).
  repeat split; try (apply Hk; cbn; tauto).
  - rewrite (Hk "audioBitrate" _ ltac:(cbn; tauto)).
    destruct audio_bitrate as [[|c b]|]; reflexivity.
  - unfold terminal. rewrite Hst. reflexivity.
  - intros id' Hid. now apply lookup_insert_ne.
Qed.

Lemma no_job_set_field (job_id k : string) (v : pyval) (J : registry) :
  no_job (J !! job_id) = false → no_job (set_field job_id k v J !! job_id) = false.
Proof.
  rewrite set_field_lookup. destruct (J !! job_id) as [j|]; [|discriminate].
  intros _. cbn. apply Nat.eqb_neq, map_size_non_empty_iff. apply insert_non_empty.
Qed.

Lemma set_field_twice (job_id k : string) (v : pyval) (J : registry) :
  set_field job_id k v (set_field job_id k v J) = set_field job_id k v J.
Proof.
  apply map_eq. intros id. destruct (decide (job_id = id)) as [<-|Hid].
  - rewrite !set_field_lookup. destruct (J !! job_id); cbn; [|reflexivity].
    f_equal. apply insert_insert_eq.
  - now rewrite !set_field_lookup_ne.
Qed.

Lemma set_field_comm (job_id k k' : string) (v v' : pyval) (J : registry) :
  k ≠ k' →
  set_field job_id k v (set_field job_id k' v' J)
  = set_field job_id k' v' (set_field job_id k v J).
Proof.
  intros Hk. apply map_eq. intros id. destruct (decide (job_id = id)) as [<-|Hid].
  - rewrite !set_field_lookup. destruct (J !! job_id); cbn; [|reflexivity].
    f_equal. now apply insert_insert_ne.
  - now rewrite !set_field_lookup_ne.
Qed.

(** X7: [cancel_job] answers [False] exactly when no record (or an empty
    one) is registered under the id, and then leaves the registry as it is;
    a request that is repeated gets the same answer and changes nothing
    more. *)
Theorem cancel_job_idempotent (job_id : string) (J : registry) :
  let ok := fst (cancel_job job_id J) in
  let J1 := snd (cancel_job job_id J) in
  ok = negb (no_job (J !! job_id)) ∧
  (ok = false → J1 = J) ∧
  cancel_job job_id J1 = (ok, J1).
Proof.
  unfold cancel_job. destruct (no_job (J !! job_id)) eqn:Hno; cbn [fst snd negb].
  - split; [reflexivity|]. split; [reflexivity|]. now rewrite Hno.
  - split; [reflexivity|]. split; [discriminate|].
    rewrite (no_job_set_field _ _ _ _ (no_job_set_field _ _ _ _ Hno)). f_equal.
    rewrite (set_field_comm job_id "_cancel" "message") by discriminate.
    rewrite (set_field_twice job_id "message").
    now rewrite (set_field_twice job_id "_cancel").
Qed.

(** ** The progress hook *)

Lemma cancel_flag_record (J : registry) (job_id : string) :
  truthy (default PNone (field J job_id "_cancel")) = true →
  no_job (J !! job_id) = false.
Proof.
  unfold field. destruct (J !! job_id) as [j|] eqn:Hj; [|discriminate]. cbn.
  destruct (j !! "_cancel") eqn:Hc; [|discriminate]. intros _.
  eapply no_job_false. eauto.
Qed.

(** X8: once the cancellation flag of a job is set, no invocation of its
    progress hook returns: each one raises, and an event that is not a
    [downloading] one raises [KeyboardInterrupt]. *)
Theorem progress_hook_canceled (job_id : string) (d : progress) (J : registry) :
  truthy (default PNone (field J job_id "_cancel")) = true →
  ∃ e, snd (_progress_hook job_id d J) = Raise e ∧
       (status_is (p_status d) "downloading" = false →
        e = KeyboardInterrupt "Canceled by user").
Proof.
  intros Hc. pose proof (cancel_flag_record _ _ Hc) as Hno.
  assert (Hsome : is_Some (J !! job_id)).
  { destruct (J !! job_id); [eauto | discriminate]. }
  unfold _progress_hook. run_monad. rewrite Hno.
  destruct (status_is (p_status d) "downloading") eqn:Hst.
  - cbn [fst snd].
    repeat match goal with
           | |- context [match ?r with Ok _ => _ | Raise _ => _ end] =>
               destruct r; cbn [fst snd]
           | |- context [if num_truthy ?c then _ else _] =>
               destruct (num_truthy c); cbn [fst snd]
           end;
      try (eexists; split; [reflexivity | discriminate]);
      change (?J0 !! job_id ≫= (.!! "_cancel")) with (field J0 job_id "_cancel");
      rewrite !field_set_ne by discriminate; rewrite Hc;
      (eexists; split; [reflexivity | discriminate]).
  - destruct (status_is (p_status d) "finished"); cbn [fst snd];
      change (?J0 !! job_id ≫= (.!! "_cancel")) with (field J0 job_id "_cancel");
      rewrite ?field_set_ne by discriminate; rewrite Hc;
      (eexists; split; [reflexivity | reflexivity]).
Qed.

Lemma progress_hook_canceled_witness :
  ∃ e, snd (_progress_hook "0123456789ab" halfway
              (snd (cancel_job "0123456789ab" jobs_created))) = Raise e.
Proof.
  destruct (progress_hook_canceled "0123456789ab" halfway
              (snd (cancel_job "0123456789ab" jobs_created)))
    as (e & He & _); [vm_compute; reflexivity|].
  exists e. exact He.
Defined.

(** The keys the progress hook assigns. *)
Definition progress_keys : list string :=
  ["status"; "progress"; "percent"; "speed"; "eta"; "message"].

Lemma progress_keys_false (k : string) :
  writes progress_keys k = false →
  "status" ≠ k ∧ "progress" ≠ k ∧ "percent" ≠ k ∧ "speed" ≠ k ∧ "eta" ≠ k ∧
  "message" ≠ k.
Proof.
  unfold writes, progress_keys. cbn [existsb]. intros H.
  repeat (apply orb_false_iff in H as [?%String.eqb_neq H]).
  repeat split; congruence.
Qed.

(** X9: whatever the event and however the call ends, the progress hook
    changes nothing but the six keys [status], [progress], [percent],
    [speed], [eta] and [message] of its own job's record: the other keys (the
    cancellation flag among them) and the records of the other jobs are as
    they were, and no record is added or removed.  For an id under which
    nothing is registered the hook does nothing at all. *)
Theorem progress_hook_frame (job_id : string) (d : progress) (J : registry) :
  let J' := fst (_progress_hook job_id d J) in
  (∀ k, writes progress_keys k = false → field J' job_id k = field J job_id k) ∧
  (∀ id', id' ≠ job_id → J' !! id' = J !! id') ∧
  (∀ id', is_Some (J' !! id') ↔ is_Some (J !! id')) ∧
  (no_job (J !! job_id) = true → _progress_hook job_id d J = (J, Ok tt)).
Proof.
  cbv zeta. split; [|split; [|split]].
  - intros k (? & ? & ? & ? & ? & ?)%progress_keys_false.
    unfold _progress_hook. run_monad.
    hook_cases; rewrite ?field_set_ne by assumption; reflexivity.
  - intros id' Hid. unfold _progress_hook. run_monad.
    hook_cases; rewrite ?set_field_lookup_ne by congruence; reflexivity.
  - intros id'. apply progress_hook_is_Some.
  - intros Hno. unfold _progress_hook. run_monad. now rewrite Hno.
Qed.

(** X10: on a [finished] event for a registered job the hook sets the
    message to [Processing] followed by the base name of the file and leaves
    every other key alone; it returns, unless the cancellation flag is set,
    in which case it raises [KeyboardInterrupt]. *)
Theorem progress_hook_finished (job_id : string) (d : progress) (J : registry) :
  no_job (J !! job_id) = false → p_status d = Some "finished" →
  let r := _progress_hook job_id d J in
  field (fst r) job_id "message"
  = Some (PStr ("Processing " +:+ Path.basename (default EmptyString (p_filename d))
                +:+ "…")) ∧
  (∀ k, k ≠ "message" → field (fst r) job_id k = field J job_id k) ∧
  snd r = if truthy (default PNone (field J job_id "_cancel"))
          then Raise (KeyboardInterrupt "Canceled by user") else Ok tt.
Proof.
  intros Hno Hst. cbv zeta.
  assert (Hsome : is_Some (J !! job_id)).
  { destruct (J !! job_id); [eauto | discriminate]. }
  unfold _progress_hook. run_monad. rewrite Hno. unfold status_is. rewrite Hst.
  cbn [String.eqb Ascii.eqb Bool.eqb]. cbn match.
  change (?J0 !! job_id ≫= (.!! "_cancel")) with (field J0 job_id "_cancel").
  rewrite field_set_ne by discriminate.
  destruct (truthy (default PNone (field J job_id "_cancel"))); cbn [fst snd];
    (split; [now apply field_set_eq|]);
    (split; [|reflexivity]);
    intros k Hk; now apply field_set_ne.
Qed.

(** A [finished] event for a file of the staging directory. *)
Definition finished_clip : progress :=
  {| p_status := Some "finished";
     p_total_bytes := None; p_total_bytes_estimate := None;
     p_downloaded_bytes := None; p_speed := None; p_speed_str := None;
     p_eta := None; p_eta_str := None;
     p_filename := Some "/home/u/Downloads/Yt_videos/_tmp/0123456789ab/Clip.mp4" |}.

Lemma progress_hook_finished_witness :
  field (fst (_progress_hook "0123456789ab" finished_clip jobs_created))
    "0123456789ab" "message"
  = Some (PStr "Processing Clip.mp4…").
Proof.
  assert (Hno : no_job (jobs_created !! "0123456789ab") = false)
    by (vm_compute; reflexivity).
  exact (proj1 (progress_hook_finished "0123456789ab" finished_clip jobs_created
                  Hno eq_refl)).
Defined.

(** ** What a worker keeps *)

(** The keys a worker, its progress hook and a cancellation request assign. *)
Definition worker_keys : list string :=
  [ "kind"; "title"; "status"; "message"; "finalDir"; "totalItems"; "currentItem";
    "currentTitle"; "progress"; "percent"; "eta"; "speed"; "_cancel" ].

Lemma with_jobs_id (s : wstate) : with_jobs (λ _, JOBS s) s = s.
Proof. now destruct s. Qed.

Section RegistryInvariant.
Context (job_id : string) (Q : registry → Prop).
Hypothesis Q_set : ∀ k v J, writes worker_keys k = true → Q J → Q (set_field job_id k v J).

Lemma cancel_job_keeps (J : registry) : Q J → Q (snd (cancel_job job_id J)).
Proof.
  intros H. unfold cancel_job. destruct (no_job _); [exact H|]. cbn [snd].
  repeat (apply Q_set; [reflexivity|]). exact H.
Qed.

Lemma progress_hook_keeps (d : progress) : preserves Q (_progress_hook job_id d).
Proof.
  unfold _progress_hook, read_field.
  repeat first [ preserves_step
               | (apply preserves_modify; intros ? ?; apply Q_set; [reflexivity | assumption])
               | (intros ? ?; assumption) ].
Qed.

Lemma run_actions_keeps (acts : list action) : preserves Q (run_actions job_id acts).
Proof.
  induction acts as [|[d|] acts IH]; cbn [run_actions].
  - apply preserves_ret.
  - apply preserves_bind; [apply progress_hook_keeps | intros _; exact IH].
  - apply preserves_bind; [|intros _; exact IH].
    apply preserves_modify. intros J. apply cancel_job_keeps.
Qed.
End RegistryInvariant.

Section WorkerInvariant.
Context (env : Env) (w : World) (job_id : string).
Context (P : wstate → Prop) (loggable : call → Prop).
Hypothesis P_set :
  ∀ k v s, writes worker_keys k = true → P s → P (with_jobs (set_field job_id k v) s).
Hypothesis P_log : ∀ c s, loggable c → P s → P (fst (log job_id c s)).

Lemma set_job_keeps (k : string) (v : pyval) :
  writes worker_keys k = true → preserves P (set_job job_id k v).
Proof. intros Hk. apply preserves_modify. intros s. now apply P_set. Qed.

Lemma log_keeps (c : call) : loggable c → preserves P (log job_id c).
Proof. intros Hc s. now apply P_log. Qed.

Lemma read_job_keeps (k : string) : preserves P (read_job job_id k).
Proof. intros s H. cbn. now rewrite with_jobs_id. Qed.

Lemma on_jobs_run_actions_keeps (acts : list action) :
  preserves P (on_jobs (run_actions job_id acts)).
Proof.
  intros s H. unfold on_jobs.
  pose proof (run_actions_keeps job_id (λ J, P (with_jobs (λ _, J) s))) as Hr.
  specialize (Hr (λ k v J Hk HJ, P_set k v (with_jobs (λ _, J) s) Hk HJ) acts (JOBS s)).
  cbv beta in Hr. rewrite with_jobs_id in Hr. specialize (Hr H).
  destruct (run_actions job_id acts (JOBS s)) as [J' r]. exact Hr.
Qed.

Lemma ydl_download_keeps (url : string) (opts : ydl_opts) :
  loggable (CallDownload url opts) → preserves P (ydl_download w job_id url opts).
Proof.
  intros Hc. unfold ydl_download.
  apply preserves_bind; [apply preserves_get | intros s].
  apply preserves_bind; [now apply log_keeps | intros _].
  apply preserves_bind; [apply on_jobs_run_actions_keeps | intros _].
  apply preserves_lift.
Qed.

Lemma try_download_one_keeps (url media_type : string) (height : option Z)
    (pp : option (list postprocessor)) (wd : string) :
  loggable (CallDownload url (mk_opts (_format_string media_type height) wd pp)) →
  loggable (CallDownload url (mk_opts (_format_string media_type None) wd pp)) →
  preserves P (_try_download_one w url media_type height pp job_id wd).
Proof.
  intros H1 H2. unfold _try_download_one. apply preserves_bind.
  - apply preserves_try_except.
    + apply preserves_bind; [now apply ydl_download_keeps | intros; apply preserves_ret].
    + intros [m|m|m] k; try discriminate.
      destruct (negb _); [discriminate|]. intros [= <-]. apply preserves_ret.
  - intros [|]; [apply preserves_ret | now apply ydl_download_keeps].
Qed.

Lemma download_items_keeps (media_type : string) (height : option Z)
    (pp : option (list postprocessor)) (wd : string) (total i : Z) (urls : list string) :
  (∀ u, In u urls →
        loggable (CallInfo u) ∧
        loggable (CallDownload u (mk_opts (_format_string media_type height) wd pp)) ∧
        loggable (CallDownload u (mk_opts (_format_string media_type None) wd pp))) →
  preserves P (download_items w job_id media_type height pp wd total i urls).
Proof.
  revert i. induction urls as [|u urls IH]; intros i Hl; cbn [download_items].
  - apply preserves_ret.
  - destruct (Hl u ltac:(now left)) as (Hi & Hd & Hb).
    apply preserves_bind; [now apply set_job_keeps | intros _].
    apply preserves_bind; [now apply set_job_keeps | intros _].
    apply preserves_bind.
    { apply preserves_try_except.
      - apply preserves_bind; [apply preserves_get | intros s].
        apply preserves_bind; [now apply log_keeps | intros _].
        apply preserves_bind; [apply preserves_lift | intros [inf|]];
          [apply preserves_ret | apply preserves_raise].
      - intros [m|m|m] k; try discriminate; intros [= <-]; apply preserves_ret. }
    intros title.
    apply preserves_bind; [now apply set_job_keeps | intros _].
    apply preserves_bind; [now apply try_download_one_keeps | intros _].
    apply preserves_bind; [apply read_job_keeps | intros c].
    destruct (truthy _); [apply preserves_ret|].
    apply IH. intros u' Hu'. apply Hl. now right.
Qed.

Lemma makedirs_keeps (p : string) :
  loggable (CallMakedirs p) → preserves P (makedirs env job_id p).
Proof.
  intros Hc. unfold makedirs.
  apply preserves_bind; [now apply log_keeps | intros _]. apply preserves_lift.
Qed.

Lemma download_urls_keeps (urls : list string) (media_type : string)
    (height : option Z) (wd : string) :
  loggable (CallMakedirs wd) →
  (∀ u pp, In u urls →
           loggable (CallInfo u) ∧
           loggable (CallDownload u (mk_opts (_format_string media_type height) wd pp)) ∧
           loggable (CallDownload u (mk_opts (_format_string media_type None) wd pp))) →
  preserves P (_download_urls env w job_id urls media_type height wd).
Proof.
  intros Hm Hl. unfold _download_urls.
  apply preserves_bind; [apply preserves_get | intros s].
  destruct (JOBS s !! job_id); [|apply preserves_raise].
  apply preserves_bind; [now apply makedirs_keeps | intros _].
  apply preserves_bind.
  { destruct (String.eqb media_type "audio"); [|apply preserves_ret].
    apply preserves_bind; [apply read_job_keeps | intros ab]. apply preserves_ret. }
  intros pp.
  apply preserves_bind; [now apply set_job_keeps | intros _].
  apply download_items_keeps. intros u Hu. now apply Hl.
Qed.

Lemma probe_url_meta_keeps (url : string) :
  loggable (CallProbe url) → preserves P (probe_url_meta w job_id url).
Proof.
  intros Hc. unfold probe_url_meta.
  apply preserves_bind; [now apply log_keeps | intros _].
  destruct (w_probe w url) as [[i|]|[m|m|m]];
    first [apply preserves_ret | apply preserves_raise].
Qed.

Lemma worker_handler_keeps (e : exn) (k : M wstate unit) :
  worker_handler job_id e = Some k → preserves P k.
Proof.
  intros [= <-].
  destruct e; (apply preserves_bind; [now apply set_job_keeps | intros _]);
    now apply set_job_keeps.
Qed.
End WorkerInvariant.

(** A call other than the one of the reconciler. *)
Definition engine_call (c : call) : Prop :=
  match c with
  | CallMoveCompleted _ _ => False
  | _ => True
  end.

(** The final directory of a job under [root_dir]: the root itself, or a
    folder in it named by [safe_folder]. *)
Definition final_dir_of (root_dir fd : string) : Prop :=
  fd = root_dir ∨ ∃ title, fd = Path.join root_dir (safe_folder title).

(** The staging directory of the job. *)
Definition staging_dir (root_dir job_id : string) : string :=
  Path.join (Path.join root_dir "_tmp") job_id.

Section WorkerTry.
Context (env : Env) (w : World) (job_id root_dir : string).
Context (P : wstate → Prop).
Hypothesis P_set :
  ∀ k v s, writes worker_keys k = true → P s → P (with_jobs (set_field job_id k v) s).
Hypothesis P_log : ∀ c s, engine_call c → P s → P (fst (log job_id c s)).
Hypothesis P_final_dir :
  ∀ fd s, final_dir_of root_dir fd → P s → P (set_final_dir (Some fd) s).
Hypothesis P_work_dir :
  ∀ s, P s → P (set_work_dir (Some (staging_dir root_dir job_id)) s).

Lemma worker_body_keeps (url media_type : string) (height : option Z) :
  preserves P (worker_body env w job_id url media_type height root_dir).
Proof.
  pose proof (set_job_keeps job_id P P_set) as Hset.
  unfold worker_body.
  apply preserves_bind;
    [apply (probe_url_meta_keeps w job_id P engine_call P_log); exact I | intros meta].
  do 4 (apply preserves_bind; [now apply Hset | intros _]).
  apply preserves_bind.
  { apply preserves_modify. intros s. apply P_final_dir.
    destruct (m_kind meta); [now left | right; eauto]. }
  intros _.
  apply preserves_bind;
    [apply (makedirs_keeps env job_id P engine_call P_log); exact I | intros _].
  apply preserves_bind; [now apply Hset | intros _].
  apply preserves_bind; [apply preserves_modify; intros s; apply P_work_dir | intros _].
  apply preserves_bind;
    [apply (makedirs_keeps env job_id P engine_call P_log); exact I | intros _].
  apply preserves_bind; [apply read_job_keeps | intros sel].
  apply preserves_bind.
  { apply (download_urls_keeps env w job_id P engine_call P_set P_log); [exact I|].
    intros u pp _. repeat split. }
  intros _.
  apply preserves_bind; [apply read_job_keeps | intros c].
  apply preserves_bind; [now apply Hset | intros _].
  apply preserves_bind; [now apply Hset | intros _].
  apply preserves_bind.
  { destruct (truthy _); [apply preserves_ret|].
    apply preserves_bind; [now apply Hset | intros _]. now apply Hset. }
  intros _.
  apply preserves_bind; [now apply Hset | intros _]. now apply Hset.
Qed.

Lemma worker_try_keeps (url media_type : string) (height : option Z) :
  preserves P (try_except (worker_body env w job_id url media_type height root_dir)
                 (worker_handler job_id)).
Proof.
  apply preserves_try_except; [apply worker_body_keeps|].
  intros e k. apply (worker_handler_keeps job_id P P_set).
Qed.
End WorkerTry.

(** The record of the job is there all along. *)
Lemma worker_try_job (env : Env) (w : World) (job_id root_dir url media_type : string)
    (height : option Z) (s : wstate) :
  is_Some (JOBS s !! job_id) →
  is_Some (JOBS (fst (try_except (worker_body env w job_id url media_type height root_dir)
                        (worker_handler job_id) s)) !! job_id).
Proof.
  apply (worker_try_keeps env w job_id root_dir (λ s, is_Some (JOBS s !! job_id))).
  - intros k v s0 _ H. cbn. now apply set_field_is_Some.
  - intros c s0 _ H. exact H.
  - intros fd s0 _ H. exact H.
  - intros s0 H. exact H.
Qed.

Section Completion.
Context (env : Env) (w : World) (job_id : string).

End Completion.

(** ** How a worker ends *)

Section WorkerEnd.
Context (env : Env) (w : World) (job_id : string).

Lemma worker_handler_Ok (e : exn) (s : wstate) :
  ∃ k, worker_handler job_id e = Some k ∧ snd (k s) = Ok tt.
Proof. eexists. split; [reflexivity|]. destruct e; reflexivity. Qed.

Lemma worker_try_Ok (url media_type : string) (height : option Z) (root_dir : string)
    (s : wstate) :
  snd (try_except (worker_body env w job_id url media_type height root_dir)
         (worker_handler job_id) s) = Ok tt.
Proof.
  unfold try_except.
  destruct (worker_body env w job_id url media_type height root_dir s) as [s1 [[]|e]];
    [reflexivity|].
  destruct (worker_handler_Ok e s1) as (k & -> & Hk). exact Hk.
Qed.

Lemma worker_finally_Ok (s : wstate) : snd (worker_finally job_id s) = Ok tt.
Proof.
  unfold worker_finally, read_job, log. run_monad. cbn.
  destruct (is_str _ _); reflexivity.
Qed.

(** A worker whose record has a URL and a media type runs its [try] block
    and then its [finally] clause, and returns. *)
Lemma run_worker_unfold (J : registry) (j : job) (url media_type : string) :
  J !! job_id = Some j → j !! "url" = Some (PStr url) →
  j !! "mediaType" = Some (PStr media_type) →
  let s0 := {| JOBS := J; trace := []; final_dir := None; work_dir := None |} in
  let height := match j !! "videoHeight" with
                | Some (PInt h) => Some h
                | _ => None
                end in
  let root_dir := match j !! "rootDir" with
                  | Some (PStr r) => r
                  | _ => STORAGE_DIR env
                  end in
  run_worker env w job_id J
  = (fst (worker_finally job_id
            (fst (try_except (worker_body env w job_id url media_type height root_dir)
                    (worker_handler job_id) s0))), Ok tt).
Proof.
  intros Hj Hurl Hmt s0 height root_dir. unfold run_worker, _download_worker.
  fold s0. unfold mbind at 1, M_bind at 1. unfold get_state.
  change (JOBS s0) with J. rewrite Hj, Hurl, Hmt.
  unfold mbind, M_bind, modify, try_finally.
  fold height. fold root_dir.
  change (set_work_dir None (set_final_dir None s0)) with s0.
  pose proof (worker_try_Ok url media_type height root_dir s0) as Ht.
  destruct (try_except _ _ s0) as [s1 r]. cbn [snd fst] in *. subst r.
  pose proof (worker_finally_Ok s1) as Hf.
  destruct (worker_finally job_id s1) as [s2 r]. cbn [snd fst] in *. now subst r.
Qed.

(** The [finally] clause rewrites the message of a cancelled job and
    nothing else. *)
Lemma worker_finally_fields (s : wstate) :
  is_Some (JOBS s !! job_id) →
  let s' := fst (worker_finally job_id s) in
  (∀ k, k ≠ "message" → field (JOBS s') job_id k = field (JOBS s) job_id k) ∧
  field (JOBS s') job_id "message"
  = (if is_str (field (JOBS s) job_id "status") "canceled"
     then Some (PStr "Canceled — completed items saved to destination.")
     else field (JOBS s) job_id "message") ∧
  work_dir s' = work_dir s ∧ final_dir s' = final_dir s.
Proof.
  intros Hjob. cbv zeta. unfold worker_finally, read_job, log. run_monad. cbn.
  change (JOBS s !! job_id ≫= (.!! "status")) with (field (JOBS s) job_id "status").
  destruct (is_str _ _); cbn.
  - split; [intros k Hk; now apply field_set_ne|].
    split; [now apply field_set_eq | split; reflexivity].
  - repeat split.
Qed.


End WorkerEnd.


Section WorkerFrame.
Context (env : Env) (w : World) (job_id : string).

Lemma download_worker_keeps (Q : registry → Prop) :
  (∀ k v J, writes worker_keys k = true → Q J → Q (set_field job_id k v J)) →
  preserves (λ s, Q (JOBS s)) (_download_worker env w job_id).
Proof.
  intros Q_set.
  assert (P_set : ∀ k v s, writes worker_keys k = true → Q (JOBS s) →
                           Q (JOBS (with_jobs (set_field job_id k v) s))).
  { intros k v s Hk H. now apply Q_set. }
  unfold _download_worker.
  apply preserves_bind; [apply preserves_get | intros s].
  destruct (JOBS s !! job_id) as [j|]; [|apply preserves_raise].
  destruct (j !! "url") as [[| | | |url|]|]; try apply preserves_raise.
  destruct (j !! "mediaType") as [[| | | |mt|]|]; try apply preserves_raise.
  apply preserves_bind; [apply preserves_modify; intros ? H; exact H | intros _].
  apply preserves_bind; [apply preserves_modify; intros ? H; exact H | intros _].
  apply preserves_try_finally.
  - apply (worker_try_keeps env w job_id _ (λ s, Q (JOBS s)) P_set).
    + intros c s0 _ H. exact H.
    + intros fd s0 _ H. exact H.
    + intros s0 H. exact H.
  - unfold worker_finally.
    apply preserves_bind; [apply preserves_get | intros s0].
    apply preserves_bind; [apply preserves_modify; intros ? H; exact H | intros _].
    apply preserves_bind; [apply (read_job_keeps job_id (λ s, Q (JOBS s))) | intros st].
    destruct (is_str st "canceled"); [|apply preserves_ret].
    apply preserves_modify. intros s1 H. now apply Q_set.
Qed.

(** X12: a worker changes nothing in the registry but thirteen keys of its
    own job's record: the other keys ([jobId], [url], [mediaType],
    [videoHeight], [audioBitrate], [selectedUrls], [rootDir] and [created]
    among them) and the records of all other jobs are as they were, and no
    record is added or removed. *)
Theorem worker_frame (J : registry) :
  let J' := JOBS (fst (run_worker env w job_id J)) in
  (∀ k, writes worker_keys k = false → field J' job_id k = field J job_id k) ∧
  (∀ id', id' ≠ job_id → J' !! id' = J !! id') ∧
  (∀ id', is_Some (J' !! id') ↔ is_Some (J !! id')).
Proof.
  cbv zeta. unfold run_worker.
  set (s0 := {| JOBS := J; trace := []; final_dir := None; work_dir := None |}).
  split; [|split].
  - intros k Hk.
    apply (download_worker_keeps (λ J0, field J0 job_id k = field J job_id k));
      [|reflexivity].
    intros k' v J0 Hk' <-. apply field_set_ne. intros ->. congruence.
  - intros id' Hid.
    apply (download_worker_keeps (λ J0, J0 !! id' = J !! id')); [|reflexivity].
    intros k' v J0 _ <-. apply set_field_lookup_ne. congruence.
  - intros id'.
    apply (download_worker_keeps (λ J0, is_Some (J0 !! id') ↔ is_Some (J !! id')));
      [|reflexivity].
    intros k' v J0 _ <-. apply set_field_is_Some.
Qed.

(** X13: the reconciler is called by every worker that starts, exactly once
    and as its last call, with the two directories the worker had set by
    then: the staging directory, when set, is [_tmp/<job id>] under the root
    directory, and the final directory, when set, is the root directory or a
    folder in it whose name [safe_folder] made. *)
Theorem worker_reconciles_once (J : registry) (j : job) (url media_type : string) :
  J !! job_id = Some j → j !! "url" = Some (PStr url) →
  j !! "mediaType" = Some (PStr media_type) →
  let s' := fst (run_worker env w job_id J) in
  let root_dir := match j !! "rootDir" with
                  | Some (PStr r) => r
                  | _ => STORAGE_DIR env
                  end in
  ∃ calls snapshot,
    trace s' = calls ++ [(CallMoveCompleted (work_dir s') (final_dir s'), snapshot)] ∧
    Forall (λ c, engine_call (fst c)) calls ∧
    (work_dir s' = None ∨ work_dir s' = Some (staging_dir root_dir job_id)) ∧
    (final_dir s' = None ∨ ∃ fd, final_dir s' = Some fd ∧ final_dir_of root_dir fd).
Proof.
  intros Hj Hurl Hmt. cbv zeta.
  rewrite (run_worker_unfold env w job_id J j url media_type Hj Hurl Hmt).
  cbv zeta. cbn [fst].
  set (height := match j !! "videoHeight" with Some (PInt h) => Some h | _ => None end).
  set (root_dir := match j !! "rootDir" with Some (PStr r) => r | _ => STORAGE_DIR env end).
  set (s0 := {| JOBS := J; trace := []; final_dir := None; work_dir := None |}).
  assert (Hjob0 : is_Some (JOBS s0 !! job_id)) by (cbn; rewrite Hj; eauto).
  pose proof (worker_try_job env w job_id root_dir url media_type height s0 Hjob0) as Hjob1.
  pose proof (worker_try_keeps env w job_id root_dir
                (λ s, Forall (λ c, engine_call (fst c)) (trace s) ∧
                      (work_dir s = None ∨ work_dir s = Some (staging_dir root_dir job_id)) ∧
                      (final_dir s = None ∨
                       ∃ fd, final_dir s = Some fd ∧ final_dir_of root_dir fd))) as Hinv.
  specialize (Hinv ltac:(intros k v s _ H; exact H)).
  specialize (Hinv ltac:(intros c s Hc (Ht & Hd); split; [|exact Hd]; cbn;
                         apply Forall_app; split; [exact Ht | now repeat constructor])).
  specialize (Hinv ltac:(intros fd s Hfd (Ht & Hwd & _); split; [exact Ht|];
                         split; [exact Hwd | right; eauto])).
  specialize (Hinv ltac:(intros s (Ht & _ & Hfd); split; [exact Ht|];
                         split; [now right | exact Hfd])).
  specialize (Hinv url media_type height s0
                ltac:(split; [constructor | split; now left])).
  set (s1 := fst (try_except _ _ s0)) in *.
  destruct Hinv as (Ht & Hwd & Hfd).
  destruct (worker_finally_fields job_id s1 Hjob1) as (_ & _ & -> & ->).
  pose proof (worker_finally_effect job_id s1) as [Htr _ _].
  exists (trace s1), (JOBS s1 !! job_id). repeat split; assumption.
Qed.
End WorkerFrame.

Lemma worker_reconciles_once_witness :
  ∃ calls snapshot,
    trace (fst (run_worker env_ex world_video "0123456789ab" jobs_created))
    = calls ++ [(CallMoveCompleted
                   (Some "/home/u/Downloads/Yt_videos/_tmp/0123456789ab")
                   (Some "/home/u/Downloads/Yt_videos"), snapshot)].
Proof.
  destruct (worker_reconciles_once env_ex world_video "0123456789ab" jobs_created
              (default ∅ (jobs_created !! "0123456789ab"))
              "https://example/video1" "video" created_record
              ltac:(vm_compute; reflexivity) ltac:(vm_compute; reflexivity))
    as (calls & snapshot & Ht & _).
  exists calls, snapshot. rewrite Ht. do 3 f_equal; vm_compute; reflexivity.
Defined.

Section ProbeFailure.
Context (env : Env) (w : World) (job_id : string).

(** X14: when the probe of the source raises a [DownloadError], the worker
    makes no other call to the library and creates no directory: the job ends
    as [error] with the message [DownloadError: Video or playlist unavailable]
    (the text of the library's own error is dropped), every other key of the
    record is as it was, and the reconciler is called with no staging and no
    final directory. *)
Theorem worker_probe_unavailable (J : registry) (j : job) (url media_type msg : string) :
  J !! job_id = Some j → j !! "url" = Some (PStr url) →
  j !! "mediaType" = Some (PStr media_type) →
  w_probe w url = Raise (DownloadError msg) →
  let s' := fst (run_worker env w job_id J) in
  field (JOBS s') job_id "status" = Some (PStr "error") ∧
  field (JOBS s') job_id "message"
  = Some (PStr "DownloadError: Video or playlist unavailable") ∧
  (∀ k, k ≠ "status" → k ≠ "message" → field (JOBS s') job_id k = j !! k) ∧
  map fst (trace s') = [CallProbe url; CallMoveCompleted None None].
Proof.
  intros Hj Hurl Hmt Hprobe. cbv zeta.
  rewrite (run_worker_unfold env w job_id J j url media_type Hj Hurl Hmt).
  cbv zeta. cbn [fst].
  set (height := match j !! "videoHeight" with Some (PInt h) => Some h | _ => None end).
  set (root_dir := match j !! "rootDir" with Some (PStr r) => r | _ => STORAGE_DIR env end).
  set (s0 := {| JOBS := J; trace := []; final_dir := None; work_dir := None |}).
  assert (Hjob : is_Some (J !! job_id)) by (rewrite Hj; eauto).
  assert (Hbody : worker_body env w job_id url media_type height root_dir s0
                  = (fst (log job_id (CallProbe url) s0),
                     Raise (DownloadError "Video or playlist unavailable"))).
  { unfold worker_body, probe_url_meta. run_monad. cbn. now rewrite Hprobe. }
  unfold try_except. rewrite Hbody. cbn [worker_handler].
  unfold worker_finally, set_job, read_job, log. run_monad. cbn.
  change (?J0 !! job_id ≫= (.!! "status")) with (field J0 job_id "status").
  rewrite field_set_ne by discriminate.
  rewrite field_set_eq by assumption.
  change (is_str (Some (PStr "error")) "canceled") with false. cbn.
  split; [|split; [|split]].
  - rewrite field_set_ne by discriminate. now apply field_set_eq.
  - apply field_set_eq. now apply set_field_is_Some.
  - intros k H1 H2. rewrite !field_set_ne by congruence. unfold field. now rewrite Hj.
  - reflexivity.
Qed.
End ProbeFailure.

(** An extraction library for which the source is not available. *)
Definition world_unavailable : World :=
  {| w_probe := λ _, Raise (DownloadError "ERROR: [youtube] Private video");
     w_info := w_info world_video;
     w_download := w_download world_video |}.

Lemma worker_probe_unavailable_witness :
  field (JOBS (fst (run_worker env_ex world_unavailable "0123456789ab" jobs_created)))
    "0123456789ab" "message"
  = Some (PStr "DownloadError: Video or playlist unavailable").
Proof.
  refine (proj1 (proj2 (worker_probe_unavailable env_ex world_unavailable "0123456789ab"
                          jobs_created (default ∅ (jobs_created !! "0123456789ab"))
                          "https://example/video1" "video"
                          "ERROR: [youtube] Private video" created_record _ _ eq_refl)));
    vm_compute; reflexivity.
Defined.

(** ** The options of a download *)

(** The post-processor of an audio job: extraction to MP3, at the bit rate of
    the record unless that is [best] (or missing, or empty). *)
Definition audio_postprocessor (abitrate : option pyval) : postprocessor :=
  {| pp_key := "FFmpegExtractAudio";
     pp_preferredcodec := "mp3";
     pp_preferredquality :=
       match abitrate with
       | Some v => if truthy v && negb (is_str (Some v) "best") then Some v else None
       | None => None
       end |}.

(** What [_download_urls] may call, for a record with bit rate [abitrate]:
    it makes the staging directory, asks for the metadata of the URLs it was
    given and downloads them, always into the staging directory, at the
    requested format or at the best one, and with the post-processor of the
    media type. *)
Definition download_call (media_type : string) (height : option Z) (wd : string)
    (abitrate : option pyval) (urls : list string) (c : call) : Prop :=
  match c with
  | CallMakedirs p => p = wd
  | CallInfo u => In u urls
  | CallDownload u opts =>
      In u urls ∧
      o_outtmpl opts = Path.join wd "%(title)s.%(ext)s" ∧
      (o_format opts = _format_string media_type height ∨
       o_format opts = _format_string media_type None) ∧
      o_postprocessors opts
      = (if String.eqb media_type "audio" then Some [audio_postprocessor abitrate]
         else None)
  | _ => False
  end.

Lemma fst_bind {S A B} (m : M S A) (f : A → M S B) (s : S) :
  fst ((m ≫= f) s)
  = match m s with
    | (s1, Ok a) => fst (f a s1)
    | (s1, Raise _) => s1
    end.
Proof. unfold mbind, M_bind. now destruct (m s) as [s1 [a|e]]. Qed.

Lemma read_job_run (job_id k : string) (s : wstate) :
  read_job job_id k s = (s, Ok (field (JOBS s) job_id k)).
Proof. unfold read_job, on_jobs, read_field. cbn. now rewrite with_jobs_id. Qed.

Section DownloadOptions.
Context (env : Env) (w : World) (job_id : string).

(** X15: every call [_download_urls] makes, however it ends, is one of
    [download_call]: in particular every download writes into the staging
    directory, an audio download always extracts MP3 at the record's bit
    rate, and a video download has no post-processor. *)
Theorem download_urls_calls (urls : list string) (media_type : string)
    (height : option Z) (wd : string) (s : wstate) :
  let s' := fst (_download_urls env w job_id urls media_type height wd s) in
  ∃ calls,
    trace s' = trace s ++ calls ∧
    Forall (λ c, download_call media_type height wd
                   (field (JOBS s) job_id "audioBitrate") urls (fst c)) calls.
Proof.
  cbv zeta.
  remember (field (JOBS s) job_id "audioBitrate") as ab eqn:Hab.
  set (ok := download_call media_type height wd ab urls).
  set (P := λ s' : wstate, ∃ calls, trace s' = trace s ++ calls ∧
                                    Forall (λ c, ok (fst c)) calls).
  assert (P_set : ∀ k v s0, writes worker_keys k = true → P s0 →
                            P (with_jobs (set_field job_id k v) s0)).
  { intros k v s0 _ H. exact H. }
  assert (P_log : ∀ c s0, ok c → P s0 → P (fst (log job_id c s0))).
  { intros c s0 Hc (calls & Ht & Hall). exists (calls ++ [(c, JOBS s0 !! job_id)]).
    cbn. split; [now rewrite Ht, app_assoc|].
    apply Forall_app. split; [exact Hall | now repeat constructor]. }
  assert (P0 : P s) by (exists []; split; [now rewrite app_nil_r | constructor]).
  change (P (fst (_download_urls env w job_id urls media_type height wd s))).
  unfold _download_urls. rewrite fst_bind. cbn [get_state].
  destruct (JOBS s !! job_id) as [j|] eqn:Hj; [|exact P0].
  rewrite fst_bind. unfold makedirs at 1. unfold mbind at 1, M_bind at 1.
  assert (P1 : P (fst (log job_id (CallMakedirs wd) s))) by (apply P_log; [reflexivity | exact P0]).
  destruct (log job_id (CallMakedirs wd) s) as [s1 r1] eqn:Hlog.
  assert (Hs1 : JOBS s1 = JOBS s) by (injection Hlog as <- _; reflexivity).
  assert (r1 = Ok tt) as -> by (injection Hlog as _ <-; reflexivity).
  cbn [fst] in P1. unfold lift_result.
  destruct (os_makedirs env wd) as [[]|e]; [|exact P1].
  set (pp := if String.eqb media_type "audio"
             then Some [audio_postprocessor ab] else None).
  assert (Hpp : (if String.eqb media_type "audio" then
                   abitrate ← read_job job_id "audioBitrate";
                   mret (Some [ {| pp_key := "FFmpegExtractAudio";
                                   pp_preferredcodec := "mp3";
                                   pp_preferredquality :=
                                     match abitrate with
                                     | Some v =>
                                         if truthy v &&
                                            negb (match v with
                                                  | PStr b => String.eqb b "best"
                                                  | _ => false
                                                  end)
                                         then Some v else None
                                     | None => None
                                     end |} ])
                 else mret None) s1 = (s1, Ok pp)).
  { subst pp. destruct (String.eqb media_type "audio"); [|reflexivity].
    unfold mbind, M_bind. rewrite read_job_run, Hs1, <- Hab.
    unfold audio_postprocessor.
    destruct ab as [[| | | |b|]|]; reflexivity. }
  rewrite fst_bind, Hpp, fst_bind. unfold set_job at 1, modify at 1.
  apply (download_items_keeps w job_id P ok P_set P_log); [|now apply P_set].
  intros u Hu. subst ok. cbn. subst pp.
  destruct (String.eqb media_type "audio"); repeat split; auto.
Qed.
End DownloadOptions.

(** ** Cancellation between items *)





Section CancelLoop.
Context (env : Env) (w : World) (job_id : string).



End CancelLoop.

(** ** The metadata probe *)

Module ProbeFacts.
Import Probe.

(** Heights in falling order, no two of them equal. *)
Definition descending (l : list pyval) : Prop :=
  StronglySorted (λ a b, int_value b < int_value a) l.

Lemma insert_desc_In (h x : pyval) (l : list pyval) :
  In x (insert_desc h l) ↔ x = h ∨ In x l.
Proof.
  induction l as [|y l IH]; cbn.
  - intuition congruence.
  - destruct (int_value y <? int_value h); cbn; [intuition congruence|].
    rewrite IH. intuition congruence.
Qed.

Lemma insert_desc_descending (h : pyval) (l : list pyval) :
  descending l → (∀ x, In x l → int_value x ≠ int_value h) →
  descending (insert_desc h l).
Proof.
  unfold descending. induction 1 as [|y l Hl IH Hy]; intros Hne; cbn.
  - repeat constructor.
  - destruct (int_value y <? int_value h) eqn:E.
    + apply Z.ltb_lt in E. constructor; [now constructor|].
      constructor; [exact E|].
      rewrite List.Forall_forall in Hy |- *. intros x Hx. specialize (Hy x Hx). lia.
    + apply Z.ltb_ge in E. constructor.
      * apply IH. intros x Hx. apply Hne. now right.
      * rewrite List.Forall_forall in Hy |- *. intros x [->|Hx]%insert_desc_In.
        -- specialize (Hne y ltac:(now left)). lia.
        -- now apply Hy.
Qed.

Lemma insert_desc_perm (h : pyval) (l : list pyval) :
  Permutation.Permutation (h :: l) (insert_desc h l).
Proof.
  induction l as [|y l IH]; cbn; [reflexivity|].
  destruct (int_value y <? int_value h); [reflexivity|].
  rewrite Permutation.perm_swap. now constructor.
Qed.

Lemma fold_insert_desc (s acc : list pyval) :
  descending acc → List.NoDup (map int_value (acc ++ s)) →
  descending (fold_left (λ acc h, insert_desc h acc) s acc) ∧
  ∀ x, In x (fold_left (λ acc h, insert_desc h acc) s acc) ↔ In x acc ∨ In x s.
Proof.
  revert acc. induction s as [|h s IH]; intros acc Hacc Hnd; cbn [fold_left].
  - split; [exact Hacc|]. intros x. cbn. tauto.
  - destruct (IH (insert_desc h acc)) as [Hd Hin].
    + apply insert_desc_descending; [exact Hacc|].
      intros x Hx Heq. rewrite map_app in Hnd. cbn [map] in Hnd.
      apply List.NoDup_remove_2 in Hnd. apply Hnd, in_or_app. left.
      rewrite <- Heq. now apply in_map.
    + eapply Permutation.Permutation_NoDup; [|exact Hnd].
      apply Permutation.Permutation_map.
      rewrite <- Permutation.Permutation_middle.
      change (h :: acc ++ s) with ((h :: acc) ++ s).
      apply Permutation.Permutation_app_tail, insert_desc_perm.
    + split; [exact Hd|]. intros x. rewrite Hin, insert_desc_In. cbn [In].
      intuition congruence.
Qed.

Lemma sorted_reverse_spec (s : list pyval) :
  List.NoDup (map int_value s) →
  descending (sorted_reverse s) ∧ ∀ x, In x (sorted_reverse s) ↔ In x s.
Proof.
  intros Hnd. destruct (fold_insert_desc s []) as [Hd Hin];
    [constructor | exact Hnd |].
  split; [exact Hd|]. intros x. rewrite (Hin x). cbn. tauto.
Qed.

Lemma set_add_spec (h : pyval) (s : list pyval) :
  List.NoDup (map int_value s) →
  List.NoDup (map int_value (set_add h s)) ∧
  (∀ x, In x (set_add h s) → x = h ∨ In x s) ∧
  (∀ z, In z (map int_value (set_add h s)) ↔ z = int_value h ∨ In z (map int_value s)).
Proof.
  intros Hnd. unfold set_add.
  destruct (existsb (λ x, int_value x =? int_value h) s) eqn:E.
  - split; [exact Hnd|]. split; [auto|]. intros z. split; [auto|].
    intros [-> | H]; [|exact H].
    apply existsb_exists in E as (x & Hx & Heq%Z.eqb_eq). rewrite <- Heq.
    now apply in_map.
  - split; [|split].
    + rewrite map_app. cbn. apply NoDup_ListNoDup, NoDup_app. repeat split.
      * now apply NoDup_ListNoDup.
      * intros z Hz%list_elem_of_In Hz'%list_elem_of_In. cbn in Hz'.
        destruct Hz' as [<-|[]].
        apply in_map_iff in Hz as (x & Heq & Hx).
        assert (existsb (λ x, int_value x =? int_value h) s = true); [|congruence].
        apply existsb_exists. exists x. split; [exact Hx | now apply Z.eqb_eq].
      * apply NoDup_ListNoDup. repeat constructor. intros [].
    + intros x [H | [<- | []]]%in_app_or; auto.
    + intros z. rewrite map_app, in_app_iff. cbn. intuition congruence.
Qed.

(** The formats whose height [_list_heights_from_info] collects. *)
Definition formats_of (vi : option info) : list format :=
  match vi with
  | Some i => default [] (i_formats i)
  | None => []
  end.

Lemma collect_heights_spec (formats : list format) (acc : list pyval) :
  List.NoDup (map int_value acc) → Forall (λ h, is_int h = true) acc →
  let hs := fold_left (λ hs f, if has_video_height f then set_add (f_height f) hs else hs)
              formats acc in
  List.NoDup (map int_value hs) ∧ Forall (λ h, is_int h = true) hs ∧
  ∀ z, In z (map int_value hs) ↔
       In z (map int_value acc) ∨
       ∃ f, In f formats ∧ has_video_height f = true ∧ int_value (f_height f) = z.
Proof.
  revert acc. induction formats as [|f formats IH]; intros acc Hnd Hint; cbn [fold_left].
  - cbv zeta. split; [exact Hnd|]. split; [exact Hint|].
    intros z. split; [auto|]. intros [H | (f & [] & _)]. exact H.
  - destruct (has_video_height f) eqn:Hf.
    + destruct (set_add_spec (f_height f) acc Hnd) as (Hnd' & Hin' & Hval').
      destruct (IH (set_add (f_height f) acc) Hnd') as (H1 & H2 & H3).
      { rewrite List.Forall_forall in Hint |- *. intros x [-> | Hx]%Hin'; [|now apply Hint].
        unfold has_video_height in Hf. now apply andb_true_iff in Hf as [_ Hf]. }
      split; [exact H1|]. split; [exact H2|].
      intros z. rewrite (H3 z), (Hval' z). split.
      * intros [[-> | H] | (g & Hg & Hv & Hz)]; eauto 6.
        -- right. exists f. split; [now left | auto].
        -- right. exists g. split; [now right | auto].
      * intros [H | (g & [<- | Hg] & Hv & Hz)]; eauto 6.
    + destruct (IH acc Hnd Hint) as (H1 & H2 & H3).
      split; [exact H1|]. split; [exact H2|].
      intros z. rewrite (H3 z). split.
      * intros [H | (g & Hg & Hv & Hz)]; eauto 6.
        right. exists g. split; [now right | auto].
      * intros [H | (g & [<- | Hg] & Hv & Hz)]; eauto 6. congruence.
Qed.

(** The heights come in falling order. *)
Lemma list_heights_sorted (vi : option info) :
  descending (_list_heights_from_info vi).
Proof.
  unfold _list_heights_from_info. fold (formats_of vi). cbv zeta.
  destruct (collect_heights_spec (formats_of vi) []) as (Hnd & _);
    [constructor | constructor |]. cbv zeta in Hnd.
  now destruct (sorted_reverse_spec _ Hnd) as [Hd _].
Qed.

(** X19: the heights [_list_heights_from_info] returns are in falling order
    with no height twice; each is an [int]; and a number is among them exactly
    when it is the height of a format that has a video codec other than
    [none].  Without an [info] dictionary, or without [formats] in it, the
    list is empty. *)
Theorem list_heights_descending (vi : option info) :
  descending (_list_heights_from_info vi) ∧
  Forall (λ h, is_int h = true) (_list_heights_from_info vi) ∧
  (∀ z, In z (map int_value (_list_heights_from_info vi)) ↔
        ∃ f, In f (formats_of vi) ∧ has_video_height f = true ∧
             int_value (f_height f) = z) ∧
  (formats_of vi = [] → _list_heights_from_info vi = []).
Proof.
  unfold _list_heights_from_info. fold (formats_of vi). cbv zeta.
  destruct (collect_heights_spec (formats_of vi) []) as (Hnd & Hint & Hval);
    [constructor | constructor |]. cbv zeta in *.
  destruct (sorted_reverse_spec _ Hnd) as [Hd Hin].
  split; [exact Hd|]. split; [|split].
  - rewrite List.Forall_forall in Hint |- *. intros x Hx. now apply Hint, Hin.
  - intros z. split.
    + intros (x & Hx & Hxin)%in_map_iff.
      assert (Hz : In z (map int_value
                (fold_left (λ hs f, if has_video_height f
                                    then set_add (f_height f) hs else hs)
                   (formats_of vi) []))).
      { apply in_map_iff. exists x. split; [exact Hx | now apply Hin]. }
      apply Hval in Hz as [[] | Hz]. exact Hz.
    + intros Hz.
      assert (Hz' : In z (map int_value
                (fold_left (λ hs f, if has_video_height f
                                    then set_add (f_height f) hs else hs)
                   (formats_of vi) []))) by (apply Hval; now right).
      apply in_map_iff in Hz' as (x & Hx & Hxin).
      apply in_map_iff. exists x. split; [exact Hx | now apply Hin].
  - intros ->. reflexivity.
Qed.

Lemma descending_nil : descending [].
Proof. constructor. Qed.

Section WithLibrary.
Context (lib : Library).

Lemma probe_video_heights_descending (url : option string) (hs : list pyval) :
  _probe_video_heights lib url = Ok hs → descending hs.
Proof.
  unfold _probe_video_heights.
  destruct (extract lib url) as [vi|[m|m|m]]; try discriminate; intros [= <-].
  - apply list_heights_sorted.
  - apply descending_nil.
  - apply descending_nil.
Qed.

(** What the probe found in the flat [info] dictionary. *)
Definition has_entries (vi : info) : bool :=
  match i_entries vi with
  | Some (_ :: _) => true
  | _ => false
  end.

Lemma probe_url_meta_Ok (url : string) (m : meta) :
  probe_url_meta lib url = Ok m →
  ∃ vi, extract_flat lib url = Ok (Some vi) ∧
        m_kind m = (if has_entries vi then Playlist else Video) ∧
        m_title m = str_or (default EmptyString (i_title vi)) "Untitled" ∧
        m_thumbnail m = i_thumbnail vi ∧
        m_canAudio m = true ∧
        m_defaultHeight m = head (m_availableHeights m) ∧
        descending (m_availableHeights m) ∧
        m_entries m = (if has_entries vi
                       then Some (list_entries 1 (default [] (i_entries vi)))
                       else None).
Proof.
  unfold probe_url_meta.
  destruct (extract_flat lib url) as [[vi|]|[e|e|e]]; try discriminate.
  fold (has_entries vi). intros H. exists vi. split; [reflexivity|].
  destruct (has_entries vi); cbn [negb] in H.
  - destruct (list_entries 1 (default [] (i_entries vi))) as [|first rest] eqn:El.
    + injection H as <-. cbn. repeat split; auto using descending_nil.
    + destruct (_probe_video_heights lib (l_url first)) as [hs|e] eqn:Eh; [|discriminate].
      injection H as <-. cbn. repeat split; auto.
      eapply probe_video_heights_descending, Eh.
  - destruct (_list_heights_from_info (Some vi)) as [|h hs] eqn:El.
    + destruct (_probe_video_heights lib _) as [hs|e] eqn:Eh; [|discriminate].
      injection H as <-. cbn. repeat split; auto.
      eapply probe_video_heights_descending, Eh.
    + injection H as <-. cbn. repeat split; auto.
      rewrite <- El. apply list_heights_sorted.
Qed.

(** X20: in a result of [probe_url_meta] the available heights are in falling
    order, so that the default height, which is the first of them, is the
    greatest, and is [None] exactly when there is none; audio is always
    offered and the title is never empty. *)
Theorem probe_default_height (url : string) (m : meta) :
  probe_url_meta lib url = Ok m →
  descending (m_availableHeights m) ∧
  m_defaultHeight m = head (m_availableHeights m) ∧
  (∀ h, In h (m_availableHeights m) →
        ∃ d, m_defaultHeight m = Some d ∧ int_value h ≤ int_value d) ∧
  (m_defaultHeight m = None ↔ m_availableHeights m = []) ∧
  m_canAudio m = true ∧ m_title m ≠ EmptyString.
Proof.
  intros (vi & _ & _ & Ht & _ & Ha & Hd & Hs & _)%probe_url_meta_Ok.
  split; [exact Hs|]. split; [exact Hd|]. split; [|split; [|split]].
  - rewrite Hd. intros h Hin.
    destruct (m_availableHeights m) as [|d hs]; [destruct Hin|].
    exists d. split; [reflexivity|]. destruct Hin as [<- | Hin]; [lia|].
    unfold descending in Hs. apply StronglySorted_inv in Hs as [_ Hall].
    rewrite List.Forall_forall in Hall. specialize (Hall h Hin). lia.
  - rewrite Hd. destruct (m_availableHeights m); cbn; split; congruence.
  - exact Ha.
  - rewrite Ht. apply str_or_nonempty. discriminate.
Qed.
End WithLibrary.

(** A library that knows one video, offered at 720 and 1080 lines and as
    audio alone. *)
Definition lib_video : Library :=
  {| extract_flat := λ _,
       Ok (Some {| i_title := Some "Clip"; i_thumbnail := None;
                   i_webpage_url := Some "https://example/video1";
                   i_formats :=
                     Some [ {| f_vcodec := PStr "avc1"; f_height := PInt 720 |};
                            {| f_vcodec := PStr "none"; f_height := PNone |};
                            {| f_vcodec := PStr "vp9"; f_height := PInt 1080 |};
                            {| f_vcodec := PStr "avc1"; f_height := PInt 1080 |} ];
                   i_entries := None |});
     extract := λ _, Raise (DownloadError "unused") |}.

Lemma probe_default_height_witness :
  ∃ m, probe_url_meta lib_video "https://example/video1" = Ok m ∧
       m_availableHeights m = [PInt 1080; PInt 720] ∧
       m_defaultHeight m = Some (PInt 1080).
Proof.
  eexists. split; [vm_compute; reflexivity|]. split; [reflexivity|].
  exact (proj1 (proj2 (probe_default_height lib_video "https://example/video1" _ eq_refl))).
Defined.

(** The entry of the result made from the raw entry [e] at index [i]. *)
Definition listed_from (i : Z) (e : entry) (l : listed) : Prop :=
  l_index l = i ∧
  l_id l = default EmptyString (e_id e) ∧
  l_title l = str_or (default EmptyString (e_title e)) ("Item " +:+ pretty i) ∧
  l_title l ≠ EmptyString ∧
  l_url l = opt_or (e_url e) (e_webpage_url e).

Lemma str_or_empty (a : string) : str_or a EmptyString = a.
Proof. now destruct a. Qed.

Lemma item_title_nonempty (i : Z) : "Item " +:+ pretty i ≠ EmptyString.
Proof. discriminate. Qed.

Lemma list_entries_spec (raw : list (option entry)) :
  ∀ i,
    StronglySorted (λ a b, l_index a < l_index b) (list_entries i raw) ∧
    (∀ l, In l (list_entries i raw) →
          i ≤ l_index l ∧
          ∃ e, raw !! Z.to_nat (l_index l - i) = Some (Some e) ∧
               listed_from (l_index l) e l) ∧
    (∀ (k : nat) e, raw !! k = Some (Some e) →
                    ∃ l, In l (list_entries i raw) ∧ listed_from (i + Z.of_nat k) e l).
Proof.
  induction raw as [|[e|] raw IH]; intros i.
  - cbn [list_entries]. split; [constructor|]. split; [intros l []|].
    intros k e. now rewrite lookup_nil.
  - destruct (IH (i + 1)) as (Hs & Hfrom & Hall).
    cbn [list_entries]. split; [|split].
    + constructor; [exact Hs|]. rewrite List.Forall_forall. intros l Hl.
      destruct (Hfrom l Hl) as [Hi _]. cbn. lia.
    + intros l [<- | Hl].
      * cbn [l_index]. split; [lia|]. exists e.
        rewrite Z.sub_diag. split; [reflexivity|].
        unfold listed_from. cbn. rewrite str_or_empty.
        repeat split. apply str_or_nonempty, item_title_nonempty.
      * destruct (Hfrom l Hl) as (Hi & e' & Hraw & Hl'). split; [lia|].
        exists e'. split; [|exact Hl'].
        replace (Z.to_nat (l_index l - i)) with (S (Z.to_nat (l_index l - (i + 1))))
          by lia.
        exact Hraw.
    + intros [|k] e' Hk.
      * injection Hk as <-. eexists. split; [now left|].
        rewrite Z.add_0_r. unfold listed_from. cbn. rewrite str_or_empty.
        repeat split. apply str_or_nonempty, item_title_nonempty.
      * destruct (Hall k e' Hk) as (l & Hl & Hfr). exists l. split; [now right|].
        now replace (i + Z.of_nat (S k)) with (i + 1 + Z.of_nat k) by lia.
  - destruct (IH (i + 1)) as (Hs & Hfrom & Hall).
    cbn [list_entries]. split; [exact Hs|]. split.
    + intros l Hl. destruct (Hfrom l Hl) as (Hi & e' & Hraw & Hl'). split; [lia|].
      exists e'. split; [|exact Hl'].
      replace (Z.to_nat (l_index l - i)) with (S (Z.to_nat (l_index l - (i + 1))))
        by lia.
      exact Hraw.
    + intros [|k] e' Hk; [discriminate|].
      destruct (Hall k e' Hk) as (l & Hl & Hfr). exists l. split; [exact Hl|].
      now replace (i + Z.of_nat (S k)) with (i + 1 + Z.of_nat k) by lia.
Qed.

Section WithLibrary.
Context (lib : Library).

(** X21: a source is a playlist exactly when its flat [info] dictionary has
    entries, and only then does the result list entries.  The list has one
    entry for every raw entry that is not empty, in the order of the
    playlist; the index of an entry is the position of the raw entry in the
    playlist, counted from 1 (so the indices of the entries after an empty one
    are not shifted), its URL is the raw entry's [url], or else its
    [webpage_url], and its title is the raw title, or else [Item] and the
    index. *)
Theorem probe_playlist_entries (url : string) (m : meta) :
  probe_url_meta lib url = Ok m →
  ∃ vi, extract_flat lib url = Ok (Some vi) ∧
    match m_kind m with
    | Video => has_entries vi = false ∧ m_entries m = None
    | Playlist =>
        has_entries vi = true ∧
        ∃ raw es,
          i_entries vi = Some raw ∧ m_entries m = Some es ∧
          StronglySorted (λ a b, l_index a < l_index b) es ∧
          (∀ l, In l es →
                ∃ e, raw !! Z.to_nat (l_index l - 1) = Some (Some e) ∧
                     listed_from (l_index l) e l) ∧
          (∀ (k : nat) e, raw !! k = Some (Some e) →
                          ∃ l, In l es ∧ listed_from (Z.of_nat k + 1) e l)
    end.
Proof.
  intros (vi & Hflat & Hk & _ & _ & _ & _ & _ & He)%probe_url_meta_Ok.
  exists vi. split; [exact Hflat|]. rewrite Hk.
  destruct (has_entries vi) eqn:Hhas.
  - split; [reflexivity|]. unfold has_entries in Hhas.
    destruct (i_entries vi) as [raw|] eqn:Hraw; [|discriminate].
    exists raw, (list_entries 1 raw). split; [reflexivity|]. split; [exact He|].
    destruct (list_entries_spec raw 1) as (Hs & Hfrom & Hall).
    split; [exact Hs|]. split.
    + intros l Hl. now destruct (Hfrom l Hl) as [_ H].
    + intros k e Hke. destruct (Hall k e Hke) as (l & Hl & Hfr).
      exists l. split; [exact Hl|]. now rewrite Z.add_comm.
  - split; [reflexivity | exact He].
Qed.

(** X22: [probe_url_meta] reports a [DownloadError] of the flat extraction
    as the [DownloadError] [Video or playlist unavailable], lets any other
    error of it through, and fails on a missing [info] dictionary.  Once the
    flat extraction has returned a dictionary the probe returns: an error of
    the second extraction, the one for the heights, only leaves the heights
    empty; nothing but an interrupt of that extraction gets through. *)
Theorem probe_url_meta_outcome (url : string) :
  match extract_flat lib url with
  | Raise (DownloadError _) =>
      probe_url_meta lib url = Raise (DownloadError "Video or playlist unavailable")
  | Raise e => probe_url_meta lib url = Raise e
  | Ok None =>
      probe_url_meta lib url
      = Raise (PyException "argument of type 'NoneType' is not iterable")
  | Ok (Some vi) =>
      (∃ m, probe_url_meta lib url = Ok m) ∨
      (∃ u msg, extract lib u = Raise (KeyboardInterrupt msg) ∧
                probe_url_meta lib url = Raise (KeyboardInterrupt msg))
  end.
Proof.
  unfold probe_url_meta.
  destruct (extract_flat lib url) as [[vi|]|[e|e|e]]; try reflexivity.
  assert (Hp : ∀ u, (∃ hs, _probe_video_heights lib u = Ok hs) ∨
                    (∃ msg, extract lib u = Raise (KeyboardInterrupt msg) ∧
                            _probe_video_heights lib u = Raise (KeyboardInterrupt msg))).
  { intros u. unfold _probe_video_heights.
    destruct (extract lib u) as [x|[msg|msg|msg]]; eauto. }
  destruct (match i_entries vi with Some (_ :: _) => true | _ => false end); cbn [negb].
  - destruct (list_entries 1 (default [] (i_entries vi))) as [|first rest]; [eauto|].
    destruct (Hp (l_url first)) as [[hs ->] | (msg & Hmsg & ->)]; eauto.
  - destruct (_list_heights_from_info (Some vi)) as [|h hs]; [|eauto].
    destruct (Hp (Some (str_or (default EmptyString (i_webpage_url vi)) url)))
      as [[hs ->] | (msg & Hmsg & ->)]; eauto.
Qed.
End WithLibrary.
(** A library that knows one playlist of three entries, the second of which
    is not available; its videos are offered at 480 lines. *)
Definition lib_playlist : Library :=
  {| extract_flat := λ _,
       Ok (Some {| i_title := Some "Mix"; i_thumbnail := None;
                   i_webpage_url := Some "https://example/list";
                   i_formats := None;
                   i_entries :=
                     Some [ Some {| e_url := Some "https://example/item1";
                                    e_webpage_url := None;
                                    e_title := Some "First"; e_id := Some "a1";
                                    e_duration := PInt 61; e_duration_string := PNone |};
                            None;
                            Some {| e_url := None;
                                    e_webpage_url := Some "https://example/item3";
                                    e_title := None; e_id := None;
                                    e_duration := PNone;
                                    e_duration_string := PStr "2:05" |} ] |});
     extract := λ _,
       Ok (Some {| i_title := Some "First"; i_thumbnail := None;
                   i_webpage_url := None;
                   i_formats := Some [ {| f_vcodec := PStr "avc1"; f_height := PInt 480 |} ];
                   i_entries := None |}) |}.

Lemma probe_playlist_entries_witness :
  ∃ m, probe_url_meta lib_playlist "https://example/list" = Ok m ∧
       m_kind m = Playlist ∧
       (map (λ l, (l_index l, l_title l, l_url l)) <$> m_entries m)
       = Some [ (1, "First", Some "https://example/item1");
                (3, "Item 3", Some "https://example/item3") ] ∧
       ∃ vi, extract_flat lib_playlist "https://example/list" = Ok (Some vi).
Proof.
  eexists. split; [vm_compute; reflexivity|]. split; [reflexivity|].
  split; [reflexivity|].
  destruct (probe_playlist_entries lib_playlist "https://example/list" _ eq_refl)
    as (vi & Hflat & _).
  exists vi. exact Hflat.
Defined.

End ProbeFacts.

(** ** The shared options *)

Lemma yt_opts_lookup (env : Env) (cookies : bool) (base : gmap string optval)
    (k : string) :
  _yt_opts env cookies base !! k
  = if cookies && String.eqb k "cookiefile" then Some (OStr (COOKIES_FILE env))
    else match base !! k with
         | Some v => Some v
         | None =>
             if String.eqb k "http_headers" then Some default_headers
             else default_options !! k
         end.
Proof.
  unfold _yt_opts. cbv zeta.
  set (opts := if cookies then <["cookiefile" := OStr (COOKIES_FILE env)]>
                                 (base ∪ default_options)
               else base ∪ default_options).
  assert (Hopts : ∀ k', opts !! k'
            = if cookies && String.eqb k' "cookiefile" then Some (OStr (COOKIES_FILE env))
              else match base !! k' with
                   | Some v => Some v
                   | None => default_options !! k'
                   end).
  { intros k'. subst opts. destruct cookies; cbn [andb].
    - destruct (String.eqb k' "cookiefile") eqn:E.
      + apply String.eqb_eq in E as ->. apply lookup_insert_eq.
      + apply String.eqb_neq in E. rewrite lookup_insert_ne by congruence.
        rewrite lookup_union. destruct (base !! k'), (default_options !! k'); reflexivity.
    - rewrite lookup_union. destruct (base !! k'), (default_options !! k'); reflexivity. }
  assert (Hh : opts !! "http_headers" = base !! "http_headers").
  { rewrite Hopts. rewrite andb_false_r. now destruct (base !! "http_headers"). }
  rewrite Hh. destruct (base !! "http_headers") as [h|] eqn:Hb.
  - rewrite Hopts. destruct (cookies && String.eqb k "cookiefile"); [reflexivity|].
    destruct (base !! k) eqn:Hk; [reflexivity|].
    destruct (String.eqb k "http_headers") eqn:E; [|reflexivity].
    apply String.eqb_eq in E as ->. congruence.
  - destruct (String.eqb k "http_headers") eqn:E.
    + apply String.eqb_eq in E as ->. rewrite lookup_insert_eq, Hb.
      now rewrite andb_false_r.
    + apply String.eqb_neq in E. rewrite lookup_insert_ne by congruence. apply Hopts.
Qed.

(** X23: in the options [_yt_opts] returns, every option of the caller has
    the caller's value, except that [cookiefile] is the cookies file of the
    application whenever that file exists; [quiet], [no_warnings], [logger]
    and [http_headers] are present, with their defaults when the caller did
    not give them; and applying [_yt_opts] to its own result changes
    nothing. *)
Theorem yt_opts_merge (env : Env) (cookies : bool) (base : gmap string optval) :
  let opts := _yt_opts env cookies base in
  (∀ k v, base !! k = Some v → cookies = false ∨ k ≠ "cookiefile" → opts !! k = Some v) ∧
  (cookies = true → opts !! "cookiefile" = Some (OStr (COOKIES_FILE env))) ∧
  (∀ k, In k ["quiet"; "no_warnings"; "logger"; "http_headers"] → is_Some (opts !! k)) ∧
  (base !! "quiet" = None → opts !! "quiet" = Some (OBool true)) ∧
  (base !! "http_headers" = None → opts !! "http_headers" = Some default_headers) ∧
  _yt_opts env cookies opts = opts.
Proof.
  cbv zeta. split; [|split; [|split; [|split; [|split]]]].
  - intros k v Hk Hc. rewrite yt_opts_lookup, Hk.
    destruct Hc as [-> | Hne]; [reflexivity|].
    apply String.eqb_neq in Hne. rewrite Hne. now rewrite andb_false_r.
  - intros ->. now rewrite yt_opts_lookup.
  - intros k Hk. rewrite yt_opts_lookup.
    destruct (cookies && String.eqb k "cookiefile"); [eauto|].
    destruct (base !! k); [eauto|].
    cbn in Hk. destruct Hk as [<- | [<- | [<- | [<- | []]]]]; cbn; eauto.
  - intros Hq. rewrite yt_opts_lookup, Hq. now rewrite andb_false_r.
  - intros Hh. rewrite yt_opts_lookup, Hh. now rewrite andb_false_r.
  - apply map_eq. intros k. rewrite (yt_opts_lookup env cookies (_yt_opts env cookies base)).
    destruct (cookies && String.eqb k "cookiefile") eqn:Ec.
    + now rewrite yt_opts_lookup, Ec.
    + destruct (_yt_opts env cookies base !! k) eqn:Hk; [reflexivity|].
      rewrite yt_opts_lookup, Ec in Hk.
      destruct (base !! k); [discriminate|].
      destruct (String.eqb k "http_headers"); [discriminate | exact Hk].
Qed.

(** ** The HTTP handlers *)

(** The record [create_job] registers. *)
Lemma create_job_record (env : Env) (job_id : string) (now : Z)
    (url media_type : string) (video_height : option Z)
    (audio_bitrate : option string) (selected_urls : option (list string))
    (output_dir : option string) (J : registry) (root : string) :
  _resolve_root_dir env output_dir media_type = Ok root →
  ∃ j,
    create_job env job_id now url media_type video_height audio_bitrate
      selected_urls output_dir J = Ok (job_id, <[job_id := j]> J) ∧
    (∀ k v,
       In (k, v)
         [ ("jobId", PStr job_id); ("url", PStr url); ("mediaType", PStr media_type);
           ("rootDir", PStr root); ("status", PStr "queued");
           ("_cancel", PBool false);
           ("audioBitrate", PStr (str_or (default EmptyString audio_bitrate) "best"));
           ("selectedUrls", PList (default [] selected_urls)) ] →
       j !! k = Some v).
Proof.
  intros Hroot. unfold create_job. rewrite Hroot.
  eexists. split; [reflexivity|].
  intros k v Hin. apply elem_of_list_to_map_1.
  - exact record_keys_NoDup.
  - apply list_elem_of_In. cbn in Hin |- *. intuition congruence.
Qed.

Module AppFacts.
Import App.

(** *** The push stream *)

Section Stream.
Context (dumps : job → string) (job_id : string).

Lemma stream_from_ended (st : stream_state) (turns : list registry) :
  (∀ l, st ≠ Polling l) → stream_from dumps job_id st turns = ([], st).
Proof.
  intros H. destruct turns as [|J rest]; [reflexivity|]. cbn.
  destruct st as [|e|l]; [reflexivity | reflexivity | now destruct (H l)].
Qed.


(** What one turn sends. *)
Lemma stream_turn_cases (l : option string) (J : registry) :
  let '(sent, st) := stream_turn dumps job_id l J in
  (no_job (get_job job_id J) = true ∧ sent = [error_event] ∧ st = Closed) ∨
  (∃ j, get_job job_id J = Some j ∧ no_job (Some j) = false ∧
        (st = Polling (Some (dumps j)) ∨ (∀ l', st ≠ Polling l')) ∧
        (st = Closed ↔ terminal j = true) ∧
        ((sent = [] ∧ l = Some (dumps j)) ∨
         (sent = [data_event (dumps j)] ∧ l ≠ Some (dumps j)))).
Proof.
  unfold stream_turn.
  destruct (get_job job_id J) as [j|] eqn:Hj; [|cbv beta iota; left; auto].
  destruct (no_job (Some j)) eqn:Hno; [cbv beta iota; left; auto|].
  set (changed := match l with
                  | Some p => negb (String.eqb (dumps j) p)
                  | None => true
                  end).
  assert (Hsent : ((if changed then [data_event (dumps j)] else []) = [] ∧
                   l = Some (dumps j)) ∨
                  ((if changed then [data_event (dumps j)] else [])
                   = [data_event (dumps j)] ∧ l ≠ Some (dumps j))).
  { subst changed. destruct l as [p|]; [|right; split; [reflexivity | discriminate]].
    destruct (String.eqb (dumps j) p) eqn:E; cbn [negb].
    - apply String.eqb_eq in E as ->. now left.
    - apply String.eqb_neq in E. right. split; [reflexivity | congruence]. }
  assert (Hlast : (if changed then Some (dumps j) else l) = Some (dumps j)).
  { subst changed. destruct l as [p|]; [|reflexivity].
    destruct (String.eqb (dumps j) p) eqn:E; cbn [negb]; [|reflexivity].
    now apply String.eqb_eq in E as ->. }
  cbv zeta. fold changed. rewrite Hlast. clearbody changed.
  unfold terminal. destruct (j !! "status") as [st|] eqn:Hst.
  - destruct (is_str (Some st) "done" || is_str (Some st) "error"
              || is_str (Some st) "canceled") eqn:Ht.
    + cbv beta iota. right. exists j. split; [reflexivity|]. split; [exact Hno|].
      split; [right; discriminate|]. split; [|exact Hsent].
      rewrite Hst, Ht. tauto.
    + cbv beta iota. right. exists j. split; [reflexivity|]. split; [exact Hno|].
      split; [now left|]. split; [|exact Hsent].
      rewrite Hst, Ht. split; discriminate.
  - cbv beta iota. right. exists j. split; [reflexivity|]. split; [exact Hno|].
    split; [right; discriminate|]. split; [|exact Hsent].
    rewrite Hst. cbn. split; discriminate.
Qed.

Lemma data_event_inj (p q : string) : data_event p = data_event q → p = q.
Proof.
  unfold data_event. intros H%(inj (String.app "data: ")).
  apply (f_equal chars) in H. rewrite !chars_app in H.
  now apply app_inv_tail, chars_inj in H.
Qed.

Lemma error_not_data (p : string) : error_event ≠ data_event p.
Proof. discriminate. Qed.

(** No event is sent twice in a row. *)
Fixpoint no_repeat (events : list string) : Prop :=
  match events with
  | x :: (y :: _) as rest => x ≠ y ∧ no_repeat rest
  | _ => True
  end.

Lemma stream_from_no_repeat (turns : list registry) :
  ∀ l0 ev st,
    stream_from dumps job_id (Polling l0) turns = (ev, st) →
    no_repeat ev ∧ ∀ p, l0 = Some p → head ev ≠ Some (data_event p).
Proof.
  induction turns as [|J rest IH]; intros l0 ev st; cbn [stream_from].
  - intros [= <- <-]. split; [exact I | discriminate].
  - pose proof (stream_turn_cases l0 J) as Hturn.
    destruct (stream_turn dumps job_id l0 J) as [sent st'].
    destruct (stream_from dumps job_id st' rest) as [later st''] eqn:Hlater.
    intros [= <- <-].
    destruct Hturn as [(_ & -> & ->) | (j & _ & _ & Hst & _ & Hsent)].
    + rewrite stream_from_ended in Hlater by discriminate. injection Hlater as <- <-.
      split; [exact I|]. intros p _ H. discriminate H.
    + assert (Hrest : no_repeat later ∧ head later ≠ Some (data_event (dumps j))).
      { destruct Hst as [-> | Hended].
        - destruct (IH _ _ _ Hlater) as [H1 H2]. split; [exact H1 | now apply H2].
        - rewrite stream_from_ended in Hlater by assumption. injection Hlater as <- <-.
          split; [exact I | discriminate]. }
      destruct Hrest as [Hnr Hhead].
      destruct Hsent as [[-> ->] | [-> Hne]]; cbn [app].
      * split; [exact Hnr|]. now intros p [= <-].
      * split.
        -- destruct later as [|y later]; [exact I|]. split; [|exact Hnr].
           intros <-. now apply Hhead.
        -- intros p -> H%(inj Some)%data_event_inj. congruence.
Qed.

(** X27: the stream never sends the same event twice in a row: a snapshot
    is sent only when it differs from the one sent before. *)
Theorem api_stream_no_repeat (turns : list registry) :
  no_repeat (fst (api_stream dumps job_id turns)).
Proof.
  unfold api_stream.
  destruct (stream_from dumps job_id (Polling None) turns) as [ev st] eqn:H.
  now apply stream_from_no_repeat in H as [H _].
Qed.


End Stream.



(** *** The handlers of the jobs *)

(** The request is one [api_create_job] accepts: its URL is not blank and
    its media type is [video] or [audio]. *)
Definition valid_request (data : job_request) : bool :=
  negb (String.eqb (str_strip (default EmptyString (q_url data))) EmptyString) &&
  match q_mediaType data with
  | Some mt => String.eqb mt "video" || String.eqb mt "audio"
  | None => false
  end.

(** X25: [api_create_job] answers a request whose URL is blank or whose
    media type is not [video] or [audio] with 400 and registers nothing.  It
    answers any other request, when the root directory resolves, with 200 and
    the id of a job that [api_job_status] then finds, [queued], with the URL
    stripped of surrounding white space; the other jobs are untouched.  When
    the root directory does not resolve the error is not caught. *)
Theorem api_create_job_validates (env : Env) (job_id : string) (now : Z)
    (data : job_request) (J : registry) :
  let url := str_strip (default EmptyString (q_url data)) in
  let media_type := default EmptyString (q_mediaType data) in
  let output_dir := match q_outputDir data with
                    | Some (String _ _ as d) => Some d
                    | _ => None
                    end in
  if valid_request data then
    match _resolve_root_dir env output_dir media_type with
    | Ok root =>
        ∃ J' j,
          api_create_job env job_id now data J = Ok ((JJobId job_id, 200), J') ∧
          api_job_status job_id J' = (JJob j, 200) ∧
          j !! "url" = Some (PStr url) ∧
          j !! "mediaType" = Some (PStr media_type) ∧
          j !! "rootDir" = Some (PStr root) ∧
          j !! "status" = Some (PStr "queued") ∧
          (∀ id', id' ≠ job_id → get_job id' J' = get_job id' J)
    | Raise e => api_create_job env job_id now data J = Raise e
    end
  else api_create_job env job_id now data J = Ok ((JError "Invalid payload", 400), J).
Proof.
  cbv zeta. unfold valid_request, api_create_job.
  destruct (q_mediaType data) as [mt|]; [|now rewrite andb_false_r].
  change (default EmptyString (Some mt)) with mt.
  destruct (String.eqb (str_strip (default EmptyString (q_url data))) EmptyString);
    cbn [negb andb orb]; [reflexivity|].
  destruct (String.eqb mt "video" || String.eqb mt "audio"); cbn [negb]; [|reflexivity].
  set (output_dir := match q_outputDir data with
                     | Some (String _ _ as d) => Some d
                     | _ => None
                     end).
  destruct (_resolve_root_dir env output_dir mt) as [root|e] eqn:Hroot.
  - destruct (create_job_record env job_id now
                (str_strip (default EmptyString (q_url data))) mt (q_videoHeight data)
                (q_audioBitrate data) (Some (default [] (q_selectedUrls data)))
                output_dir J root Hroot) as (j & -> & Hj).
    cbv beta iota.
    exists (<[job_id := j]> J), j. split; [reflexivity|].
    assert (Hst : j !! "status" = Some (PStr "queued")) by (apply Hj; cbn; tauto).
    split.
    { unfold api_job_status, get_job. rewrite lookup_insert_eq.
      now rewrite (no_job_false j "status") by eauto. }
    repeat split; try (apply Hj; cbn; tauto).
    intros id' Hid. unfold get_job. now apply lookup_insert_ne.
  - unfold create_job. now rewrite Hroot.
Qed.

(** X26: [api_cancel_job] and [api_job_status] answer with the same status
    code, 404 exactly for an id under which nothing (or an empty record) is
    registered, and a request that is answered with 404 changes nothing.  After a
    cancellation that was accepted, [api_job_status] shows the record with
    the cancellation flag set and the message [Cancel requested…], its other
    keys unchanged. *)
Theorem api_cancel_then_status (job_id : string) (J : registry) :
  let '(answer, J') := api_cancel_job job_id J in
  snd answer = snd (api_job_status job_id J) ∧
  (snd answer = 404 ↔ no_job (get_job job_id J) = true) ∧
  (snd answer = 404 → J' = J) ∧
  (snd answer = 200 →
   ∃ j, get_job job_id J = Some j ∧
        api_job_status job_id J'
        = (JJob (<["message" := PStr "Cancel requested…"]>
                   (<["_cancel" := PBool true]> j)), 200)).
Proof.
  unfold api_cancel_job, api_job_status, cancel_job, get_job.
  destruct (J !! job_id) as [j|] eqn:Hj.
  - destruct (no_job (Some j)) eqn:Hno; cbn.
    + repeat split; try discriminate; try reflexivity; now rewrite ?Hj.
    + split; [reflexivity|]. split; [split; discriminate|]. split; [discriminate|].
      intros _. exists j. split; [reflexivity|].
      rewrite !set_field_lookup, Hj. cbn [fmap option_fmap option_map].
      assert (Hne : no_job (Some (<["message" := PStr "Cancel requested…"]>
                                    (<["_cancel" := PBool true]> j))) = false).
      { apply (no_job_false _ "message"). rewrite lookup_insert_eq. eauto. }
      unfold no_job in Hne. now rewrite Hne.
  - cbn. repeat split; try discriminate; try reflexivity; now rewrite ?Hj.
Qed.

(** *** The probe handler *)

(** The probe once the flat extraction has returned a dictionary. *)
Lemma probe_url_meta_returns (lib : Probe.Library) (url : string) (vi : Probe.info) :
  Probe.extract_flat lib url = Ok (Some vi) →
  (∃ m, Probe.probe_url_meta lib url = Ok m) ∨
  (∃ msg, Probe.probe_url_meta lib url = Raise (KeyboardInterrupt msg)).
Proof.
  intros Hflat. unfold Probe.probe_url_meta. rewrite Hflat.
  assert (Hp : ∀ u, (∃ hs, Probe._probe_video_heights lib u = Ok hs) ∨
                    (∃ msg, Probe._probe_video_heights lib u
                            = Raise (KeyboardInterrupt msg))).
  { intros u. unfold Probe._probe_video_heights.
    destruct (Probe.extract lib u) as [x|[msg|msg|msg]]; eauto. }
  destruct (match Probe.i_entries vi with Some (_ :: _) => true | _ => false end);
    cbn [negb].
  - destruct (Probe.list_entries 1 (default [] (Probe.i_entries vi)))
      as [|first rest]; [eauto|].
    destruct (Hp (Probe.l_url first)) as [[hs ->] | (msg & ->)]; eauto.
  - destruct (Probe._list_heights_from_info (Some vi)) as [|h hs]; [|eauto].
    destruct (Hp (Some (str_or (default EmptyString (Probe.i_webpage_url vi)) url)))
      as [[hs ->] | (msg & ->)]; eauto.
Qed.

(** X24: [api_probe] answers a request without a URL, or with a blank one,
    with 400 and does not call the library.  Otherwise it answers 404 when
    the flat extraction raises a [DownloadError], 400 with the text of the
    error when it raises another exception or returns no dictionary, and 200
    with the result of the probe when it returns one; only an interrupt is
    not caught. *)
Theorem api_probe_codes (lib : Probe.Library) (url : option string) :
  let u := str_strip (default EmptyString url) in
  if String.eqb u EmptyString then api_probe lib url = Ok (JError "Missing url", 400)
  else
    match Probe.extract_flat lib u with
    | Raise (DownloadError _) =>
        api_probe lib url
        = Ok (JError "Probe failed: video/playlist unavailable or requires login (try cookies.txt).",
              404)
    | Raise (PyException e) =>
        api_probe lib url = Ok (JError ("Probe failed: " +:+ e), 400)
    | Raise (KeyboardInterrupt m) => api_probe lib url = Raise (KeyboardInterrupt m)
    | Ok None =>
        api_probe lib url
        = Ok (JError "Probe failed: argument of type 'NoneType' is not iterable", 400)
    | Ok (Some _) =>
        (∃ m, Probe.probe_url_meta lib u = Ok m ∧ api_probe lib url = Ok (JMeta m, 200)) ∨
        (∃ msg, api_probe lib url = Raise (KeyboardInterrupt msg))
    end.
Proof.
  cbv zeta. unfold api_probe.
  destruct (String.eqb (str_strip (default EmptyString url)) EmptyString); [reflexivity|].
  set (u := str_strip (default EmptyString url)).
  destruct (Probe.extract_flat lib u) as [[vi|]|[m|m|m]] eqn:Hflat.
  - destruct (probe_url_meta_returns lib u vi Hflat) as [[m ->] | [msg ->]]; eauto.
  - unfold Probe.probe_url_meta. now rewrite Hflat.
  - unfold Probe.probe_url_meta. now rewrite Hflat.
  - unfold Probe.probe_url_meta. now rewrite Hflat.
  - unfold Probe.probe_url_meta. now rewrite Hflat.
Qed.

End AppFacts.
